(** * Unified recommendation engine: ranking, popularity and feedback

    A shallow embedding of [src/recommender.py] and [src/active_learning.py].

    Conventions of the embedding.
    - A Python [str] is a [string]; a character is a code point below 256
      ([ascii]), on which [str.lower], [str.isspace], [str.split] and
      [str.strip] are written out.
    - A Python [float] (and a numpy [float64]) is an exact rational [Q]:
      the arithmetic of the code is kept, its rounding is not.  The
      popularity scores are the exception: there a comparison of two
      computed values chooses between normalising and not, so every
      operation is followed by the rounding [fl] to binary64, of which
      [rounding_ok] states what is used.  Module [Binary64] evaluates two
      sums in IEEE binary64.
    - A Python [int] is a [Z].
    - A [dict] is a [gmap]; a list of objects that the code copies and
      mutates is a list of references into an explicit store.
    - The two calls into external libraries, sklearn's [cosine_similarity]
      and numpy's [argsort], are section variables; what is used of
      [argsort] is stated as [argsort_ok].  The checks that sklearn makes
      on the shapes of its arguments before it computes are written out;
      a sparse matrix is the list of its rows and its number of columns,
      as [TfidfVectorizer.transform] returns it. *)

From Stdlib Require Import QArith Qminmax Qround String Ascii List ZArith Lia Sorted Permutation.
From Stdlib Require PrimFloat.
From stdpp Require Import gmap strings list.

Local Open Scope string_scope.
Local Open Scope list_scope.

(** ** Python strings *)

Module PyStr.

(** [str.isspace] on one character (code points below 256). *)
Definition isspace (c : ascii) : bool :=
  let n := nat_of_ascii c in
  ((9 <=? n) && (n <=? 13) || (28 <=? n) && (n <=? 32)
   || (n =? 133) || (n =? 160))%nat.

(** [str.lower] on one character (code points below 256). *)
Definition lower_char (c : ascii) : ascii :=
  let n := nat_of_ascii c in
  if ((65 <=? n) && (n <=? 90)
      || (192 <=? n) && (n <=? 222) && negb (n =? 215))%nat
  then ascii_of_nat (n + 32) else c.

(** [s.lower()] *)
Fixpoint lower (s : string) : string :=
  match s with
  | EmptyString => EmptyString
  | String c r => String (lower_char c) (lower r)
  end.

(** [bool(s)]: a string is truthy when it is not empty. *)
Definition truthy (s : string) : bool :=
  match s with EmptyString => false | String _ _ => true end.

(** [s.split(sep)] for a one-character separator: never returns the
    empty list, [''.split(';') == ['']]. *)
Fixpoint split_on (sep : ascii) (s : string) : list string :=
  match s with
  | EmptyString => [EmptyString]
  | String c r =>
      if Ascii.eqb c sep then EmptyString :: split_on sep r
      else match split_on sep r with
           | [] => [String c EmptyString]
           | t :: ts => String c t :: ts
           end
  end.

(** [s.split()]: the maximal runs of non-whitespace characters; [cur]
    is the run being read. *)
Fixpoint split_ws_from (cur : string) (s : string) : list string :=
  match s with
  | EmptyString => if truthy cur then [cur] else []
  | String c r =>
      if isspace c
      then (if truthy cur then cur :: split_ws_from EmptyString r
            else split_ws_from EmptyString r)
      else split_ws_from (cur +:+ String c EmptyString) r
  end.

Definition split_ws (s : string) : list string := split_ws_from EmptyString s.

(** [s.lstrip()], [s.rstrip()], [s.strip()] *)
Fixpoint lstrip (s : string) : string :=
  match s with
  | EmptyString => EmptyString
  | String c r => if isspace c then lstrip r else s
  end.

Fixpoint rstrip (s : string) : string :=
  match s with
  | EmptyString => EmptyString
  | String c r =>
      match rstrip r with
      | EmptyString => if isspace c then EmptyString else String c EmptyString
      | r' => String c r'
      end
  end.

Definition strip (s : string) : string := rstrip (lstrip s).

(** [needle in hay] *)
Fixpoint contains (needle hay : string) : bool :=
  String.prefix needle hay
  || match hay with
     | EmptyString => false
     | String _ r => contains needle r
     end.

(** [len(s)] *)
Definition len (s : string) : Z := Z.of_nat (String.length s).

End PyStr.

(** ** Exceptions *)

(** The exceptions a call can end in.  [ValueError] is raised by the input
    validation of sklearn.  [InvalidRatioError] is the name the
    specification uses; no statement of the source raises it. *)
Inductive exn : Type :=
| KeyError
| IndexError
| ValueError
| InvalidRatioError.

Inductive result (A : Type) : Type :=
| Ok (a : A)
| Raise (e : exn).
Arguments Ok {A} a.
Arguments Raise {A} e.

(** Sequencing of calls that may raise, written [x ← r; k]. *)
#[global] Instance result_bind : MBind result :=
  fun A B k r => match r with Ok a => k a | Raise e => Raise e end.
#[global] Instance result_ret : MRet result := @Ok.

Definition of_option {A : Type} (e : exn) (o : option A) : result A :=
  match o with
  | Some a => Ok a
  | None => Raise e
  end.

(** ** Boost rules of [recommend_for_user] (recommender.py, lines 83-94) *)

Module Boost.
Import PyStr.
Local Open Scope Q_scope.

(** [if user_city and user_city == city] *)
Definition city_rule (user_city city : string) : bool :=
  truthy user_city && String.eqb user_city city.

(** [if any(k for k in cat.split() if k in user_interests)] *)
Definition category_rule (user_interests cat : string) : bool :=
  existsb truthy
    (List.filter (fun k => contains k user_interests) (split_ws cat)).

(** [if any(t.strip() in user_interests for t in tags.split(";"))] *)
Definition tag_rule (user_interests tags : string) : bool :=
  existsb (fun t => contains (strip t) user_interests) (split_on ";" tags).

End Boost.

(** ** Operations of Python and numpy on numbers and sequences *)

Module Num.
Local Open Scope Q_scope.

(** [x < y] as a boolean. *)
Definition Qltb (x y : Q) : bool := negb (Qle_bool y x).

(** Python's built-in [max(a, b)]: the second argument only when it is
    strictly larger. *)
Definition py_max (a b : Q) : Q := if Qltb a b then b else a.

(** [vals.min()] and [vals.max()] of a non-empty array. *)
Definition array_min (v : Q) (vs : list Q) : Q := foldl Qmin v vs.
Definition array_max (v : Q) (vs : list Q) : Q := foldl Qmax v vs.

(** [a[:stop]] for a Python or numpy sequence. *)
Definition slice_to {A : Type} (stop : Z) (a : list A) : list A :=
  if (0 <=? stop)%Z then take (Z.to_nat stop) a
  else take (length a - Z.to_nat (- stop)) a.

(** [a[i] += d] on a numpy array, for [i >= 0]. *)
Definition add_at (i : nat) (d : Q) (a : list Q) : result (list Q) :=
  match a !! i with
  | Some x => Ok (<[i := x + d]> a)
  | None => Raise IndexError
  end.

(** [l.index(x)] *)
Fixpoint index_of (x : string) (l : list string) : option nat :=
  match l with
  | [] => None
  | y :: r => if String.eqb y x then Some 0%nat else S <$> index_of x r
  end.

(** *** Rounding

    An operation of the code on two floats returns the binary64 number
    nearest to its exact result: [fl x] is that number for the rational
    [x].  What the statements use of it holds of the rounding of IEEE 754
    as long as nothing overflows: it is monotone, it leaves 0 and 1 as
    they are, and the difference of two different binary64 numbers is
    not rounded to 0.  The numbers of the popularity scores are bounded by
    the number of tags and the length of a description, far below the
    overflow threshold. *)
Record rounding_ok (fl : Q -> Q) : Prop := {
  fl_mono : forall x y, x <= y -> fl x <= fl y;
  fl_zero : fl 0 == 0;
  fl_one : fl 1 == 1;
  fl_gap : forall x y, fl x < fl y -> 0 < fl (fl y - fl x)
}.

(** A rounding to compute with: none. *)
Definition exact (x : Q) : Q := x.

End Num.

(** ** Data *)

(** A row of the events, jobs or posts table; [row.get(col, "")] passed
    through [str] is the field. *)
Record AssetRow : Type := {
  row_id : string;
  row_category : string;
  row_city : string;
  row_tags : string;
  row_description : string
}.

(** A row of the users table. *)
Record UserRow : Type := {
  urow_id : string;
  urow_city : string;
  urow_interests : string
}.

Inductive asset_type : Type := events | jobs | posts.

Definition type_name (t : asset_type) : string :=
  match t with
  | events => "events"
  | jobs => "jobs"
  | posts => "posts"
  end.

(** [s[:-1]] *)
Fixpoint drop_last (s : string) : string :=
  match s with
  | EmptyString => EmptyString
  | String c EmptyString => EmptyString
  | String c r => String c (drop_last r)
  end.

Record Datasets : Type := {
  ds_users : list UserRow;
  ds_events : list AssetRow;
  ds_jobs : list AssetRow;
  ds_posts : list AssetRow
}.

Definition asset_rows (ds : Datasets) (t : asset_type) : list AssetRow :=
  match t with
  | events => ds_events ds
  | jobs => ds_jobs ds
  | posts => ds_posts ds
  end.

(** A row of a sparse matrix: the stored entries (column, value); [nnz]
    is their number. *)
Definition vec : Type := list (nat * Q).
Definition nnz (v : vec) : nat := length v.

(** An entry of the embeddings dict: the ids, and the sparse matrix with
    one row per id, [width] being its number of columns ([shape[1]]). *)
Record EmbeddingSpace : Type := {
  ids : list string;
  vectors : list vec;
  width : nat
}.

Record Embeddings : Type := {
  emb_users : EmbeddingSpace;
  emb_events : EmbeddingSpace;
  emb_jobs : EmbeddingSpace;
  emb_posts : EmbeddingSpace
}.

Definition emb_of (e : Embeddings) (t : asset_type) : EmbeddingSpace :=
  match t with
  | events => emb_events e
  | jobs => emb_jobs e
  | posts => emb_posts e
  end.

(** A recommendation dict.  [reason] is read with [rec.get("reason", "")],
    so it may be absent. *)
Record Rec : Type := {
  user_id : string;
  asset_id : string;
  rec_type : string;
  score : Q;
  reason : option string
}.

Definition with_score (r : Rec) (s : Q) : Rec :=
  {| user_id := user_id r; asset_id := asset_id r; rec_type := rec_type r;
     score := s; reason := reason r |}.

Definition with_reason (r : Rec) (s : string) : Rec :=
  {| user_id := user_id r; asset_id := asset_id r; rec_type := rec_type r;
     score := score r; reason := Some s |}.

(** ** [_compute_popularity_score] (recommender.py, lines 16-36) *)

Module Popularity.
Import PyStr Num.
Local Open Scope Q_scope.

(** [len([t for t in tags.split(";") if t.strip()])] *)
Definition tag_count (tags : string) : Z :=
  Z.of_nat (length (List.filter (fun t => truthy (strip t)) (split_on ";" tags))).

Section Rounding.
(** The rounding to binary64. *)
Variable fl : Q -> Q.

(** [base + (desc_len / 1000.0)]: both integers are converted to floats,
    the quotient and the sum are rounded. *)
Definition raw_score (row : AssetRow) : Q :=
  fl (fl (inject_Z (Z.max 1 (tag_count (row_tags row))))
      + fl (fl (inject_Z (len (row_description row))) / 1000)).

(** The loop of lines 22-26: [scores[row[id_col]] = ...], a later row
    overwriting an earlier one with the same id. *)
Definition raw_scores (rows : list AssetRow) : gmap string Q :=
  foldl (fun scores row => <[row_id row := raw_score row]> scores) ∅ rows.

(** [(vals - vmin) / (vmax - vmin)] on one value: two differences and a
    quotient, each rounded. *)
Definition rescale (vmin vmax v : Q) : Q := fl (fl (v - vmin) / fl (vmax - vmin)).

(** Lines 28-36.  The values are written back at the positions they were
    read from, and a dict enumerates its keys and its values in the same
    order: each key keeps its own, possibly rescaled, value. *)
Definition _compute_popularity_score (rows : list AssetRow) : gmap string Q :=
  let scores := raw_scores rows in
  match (map_to_list scores).*2 with
  | [] => ∅
  | v :: vs =>
      let vmin := array_min v vs in
      let vmax := array_max v vs in
      if Qltb vmin vmax then rescale vmin vmax <$> scores else scores
  end.

End Rounding.

End Popularity.

(** ** [Recommender] (recommender.py, lines 39-108) *)

Module Recommender.
Import PyStr Num Boost.
Local Open Scope Q_scope.

Record t : Type := {
  embeddings : Embeddings;
  datasets : Datasets;
  popularity : asset_type -> gmap string Q
}.

(** [__init__]; [fl] is the rounding of the popularity scores. *)
Definition init (fl : Q -> Q) (e : Embeddings) (ds : Datasets) : t :=
  {| embeddings := e;
     datasets := ds;
     popularity := fun ty => Popularity._compute_popularity_score fl (asset_rows ds ty) |}.

(** [df.query("<id column> == @eid").iloc[0]] *)
Definition find_asset (rows : list AssetRow) (eid : string) : result AssetRow :=
  of_option IndexError (List.find (fun r => String.eqb (row_id r) eid) rows).

Definition find_user (rows : list UserRow) (uid : string) : result UserRow :=
  of_option IndexError (List.find (fun r => String.eqb (urow_id r) uid) rows).

(** Lines 83-94, the body of the loop for the candidate at position [i]:
    the three rules, each adding its constant to [boosts[i]]. *)
Definition boost_candidate (rows : list AssetRow) (user_city user_interests : string)
    (boosts : list Q) (i : nat) (eid : string) : result (list Q) :=
  row ← find_asset rows eid;
  let cat := lower (row_category row) in
  let city := lower (row_city row) in
  let tags := lower (row_tags row) in
  b1 ← (if city_rule user_city city then add_at i 0.1 boosts else Ok boosts);
  b2 ← (if category_rule user_interests cat then add_at i 0.05 b1 else Ok b1);
  if tag_rule user_interests tags then add_at i 0.03 b2 else Ok b2.

(** Lines 73-94: [for i, eid in enumerate(entity_ids)]. *)
Fixpoint boost_loop (rows : list AssetRow) (user_city user_interests : string)
    (boosts : list Q) (i : nat) (eids : list string) : result (list Q) :=
  match eids with
  | [] => Ok boosts
  | eid :: rest =>
      b ← boost_candidate rows user_city user_interests boosts i eid;
      boost_loop rows user_city user_interests b (S i) rest
  end.

(** Lines 100-107: one dict per index of the order. *)
Fixpoint make_recs (uid : string) (ty : asset_type) (rsn : string)
    (entity_ids : list string) (final_scores : list Q) (order : list nat)
    : result (list Rec) :=
  match order with
  | [] => Ok []
  | idx :: rest =>
      eid ← of_option IndexError (entity_ids !! idx);
      s ← of_option IndexError (final_scores !! idx);
      recs ← make_recs uid ty rsn entity_ids final_scores rest;
      Ok ({| user_id := uid; asset_id := eid; rec_type := drop_last (type_name ty);
             score := s; reason := Some rsn |} :: recs)
  end.

Section External.
(** The cosine similarity of two rows, as sklearn computes it. *)
Variable cosine_similarity : vec -> vec -> Q.
(** [numpy.argsort] *)
Variable argsort : list Q -> list nat.

(** [sklearn.metrics.pairwise.cosine_similarity(X, Y).ravel()] for the
    matrix [X] of the one row [x] and the matrix [Y] of the rows [y].
    sklearn validates its arguments first ([check_pairwise_arrays]): a
    matrix without a row or without a column, and two matrices of
    different widths, end in [ValueError]; then there is one similarity
    per row of [Y]. *)
Definition pairwise_cosine (x_width : nat) (x : vec) (y_width : nat) (y : list vec)
    : result (list Q) :=
  if ((x_width =? 0) || (y_width =? 0) || (length y =? 0)
      || negb (x_width =? y_width))%nat
  then Raise ValueError
  else Ok (cosine_similarity x <$> y).

(** Lines 58-65: base scores and reason. *)
Definition base_scores (self : t) (ty : asset_type) (user_vec : vec)
    : result (list Q * string) :=
  let entity_matrix := vectors (emb_of (embeddings self) ty) in
  let entity_ids := ids (emb_of (embeddings self) ty) in
  if (nnz user_vec =? 0)%nat
  then Ok ((fun eid => default 0 (popularity self ty !! eid)) <$> entity_ids,
           "popularity fallback")
  else
    sim ← pairwise_cosine (width (emb_users (embeddings self))) user_vec
            (width (emb_of (embeddings self) ty)) entity_matrix;
    Ok (sim, "text-based similarity").

Definition recommend_for_user (self : t) (uid : string) (ty : asset_type)
    (top_n : Z) : result (list Rec) :=
  let users := emb_users (embeddings self) in
  uidx ← of_option KeyError (index_of uid (ids users));
  user_vec ← of_option IndexError (vectors users !! uidx);
  let entity_ids := ids (emb_of (embeddings self) ty) in
  '(scores, rsn) ← base_scores self ty user_vec;
  user_row ← find_user (ds_users (datasets self)) uid;
  let user_city := lower (urow_city user_row) in
  let user_interests := lower (urow_interests user_row) in
  boosts ← boost_loop (asset_rows (datasets self) ty) user_city user_interests
             ((fun _ => 0) <$> scores) 0 entity_ids;
  let final_scores := zip_with Qplus scores boosts in
  let order := argsort (Qopp <$> final_scores) in
  make_recs uid ty rsn entity_ids final_scores (slice_to top_n order).

End External.

(** What the ranking uses of [numpy.argsort]: the result lists every
    index once, and the keys read in that order do not decrease.  The
    order among equal keys is left open, as it is by numpy's default
    sort. *)
Definition argsort_ok (argsort : list Q -> list nat) : Prop :=
  forall keys : list Q,
    Permutation (argsort keys) (seq 0 (length keys))
    /\ forall i j ki kj,
         (i < j)%nat ->
         (argsort keys !! i) ≫= (keys !!.) = Some ki ->
         (argsort keys !! j) ≫= (keys !!.) = Some kj ->
         ki <= kj.

(** An [argsort] to compute with: insertion sort, which leaves equal keys
    in index order. *)
Fixpoint insert_index (keys : list Q) (i : nat) (sorted : list nat) : list nat :=
  match sorted with
  | [] => [i]
  | j :: rest =>
      if Qltb (default 0 (keys !! i)) (default 0 (keys !! j))
      then i :: j :: rest
      else j :: insert_index keys i rest
  end.

Definition insertion_argsort (keys : list Q) : list nat :=
  foldl (fun sorted i => insert_index keys i sorted) [] (seq 0 (length keys)).

End Recommender.

(** ** [ActiveLearner] (active_learning.py) *)

Module ActiveLearner.
Import Num.
Local Open Scope Q_scope.

(** A feedback entry [(user_id, asset_type, asset_id, feedback)]. *)
Abbreviation entry := (string * string * string * Z)%type.
Abbreviation key := (string * string * string)%type.

Record t : Type := {
  positive_weight : Q;
  negative_weight : Q;
  feedback : list entry
}.

(** [__init__], with its default weights. *)
Definition init (pw nw : Q) : t :=
  {| positive_weight := pw; negative_weight := nw; feedback := [] |}.
Definition default_learner : t := init 0.2 (-0.25).

Definition key_of (rec : Rec) : key := (user_id rec, rec_type rec, asset_id rec).

(** Lines 33-38, for one recommendation and its draw [r]. *)
Definition draw_feedback (positive_ratio negative_ratio : Q) (rec : Rec) (r : Q)
    : list entry :=
  if Qltb r negative_ratio
  then [(user_id rec, rec_type rec, asset_id rec, (-1)%Z)]
  else if Qltb r (negative_ratio + positive_ratio)
       then [(user_id rec, rec_type rec, asset_id rec, 1%Z)]
       else [].

(** The loop of lines 33-38; [random i] is the value of the [i]-th call
    of [random.random()], the first call being [random n]. *)
Fixpoint simulate_loop (positive_ratio negative_ratio : Q) (random : nat -> Q)
    (n : nat) (recs : list Rec) : list entry :=
  match recs with
  | [] => []
  | rec :: rest =>
      (draw_feedback positive_ratio negative_ratio rec (random n)
       ++ simulate_loop positive_ratio negative_ratio random (S n) rest)%list
  end.

(** [simulate_feedback]: the new state of the learner and the returned
    entries. *)
Definition simulate_feedback (self : t) (recommendations : list Rec)
    (positive_ratio negative_ratio : Q) (random : nat -> Q)
    : result (t * list entry) :=
  let feedback_entries :=
    simulate_loop positive_ratio negative_ratio random 0 recommendations in
  Ok ({| positive_weight := positive_weight self;
         negative_weight := negative_weight self;
         feedback := (feedback self ++ feedback_entries)%list |},
      feedback_entries).

(** Lines 49-52: [fb_map.setdefault(k, 0); fb_map[k] += f]. *)
Definition build_fb_map (feedback_entries : list entry) : gmap key Z :=
  foldl (fun fb_map '(u, atype, aid, f) =>
           <[(u, atype, aid) := (default 0 (fb_map !! (u, atype, aid)) + f)%Z]> fb_map)
        ∅ feedback_entries.

(** *** The store of recommendation dicts

    A dict is a cell of the store and a Python variable holds its
    position; [rec.copy()] allocates a cell, an item assignment rewrites
    one. *)
Abbreviation store := (list Rec).
Abbreviation ref := nat.

Definition copy (h : store) (r : ref) : option (store * ref) :=
  v ← h !! r; Some ((h ++ [v])%list, length h).

Definition set_item (h : store) (r : ref) (f : Rec -> Rec) : option store :=
  v ← h !! r; Some (<[r := f v]> h).

Definition suffix_positive : string := "; feedback adjusted (positive)".
Definition suffix_negative : string := "; feedback adjusted (negative)".

(** Lines 56-67 for one [rec]: the store after the body and the reference
    appended to [adjusted]. *)
Definition adjust_one (self : t) (fb_map : gmap key Z) (h : store) (rec : ref)
    : option (store * ref) :=
  v ← h !! rec;
  match fb_map !! key_of v with
  | Some f =>
      if (0 <? f)%Z then
        '(h1, rec1) ← copy h rec;
        h2 ← set_item h1 rec1 (fun d => with_score d (score d + positive_weight self));
        h3 ← set_item h2 rec1
               (fun d => with_reason d (default "" (reason d) +:+ suffix_positive));
        Some (h3, rec1)
      else
        '(h1, rec1) ← copy h rec;
        h2 ← set_item h1 rec1
               (fun d => with_score d (py_max 0.0 (score d + negative_weight self)));
        h3 ← set_item h2 rec1
               (fun d => with_reason d (default "" (reason d) +:+ suffix_negative));
        Some (h3, rec1)
  | None => Some (h, rec)
  end.

(** Lines 54-68: the loop over [recs]. *)
Fixpoint adjust_loop (self : t) (fb_map : gmap key Z) (h : store) (recs : list ref)
    : option (store * list ref) :=
  match recs with
  | [] => Some (h, [])
  | rec :: rest =>
      '(h1, rec1) ← adjust_one self fb_map h rec;
      '(h2, adjusted) ← adjust_loop self fb_map h1 rest;
      Some (h2, rec1 :: adjusted)
  end.

(** [apply_feedback]; [None] only when [recs] holds a position outside
    the store, which no Python value does. *)
Definition apply_feedback (self : t) (h : store) (recs : list ref)
    (feedback_entries : list entry) : option (store * list ref) :=
  adjust_loop self (build_fb_map feedback_entries) h recs.

(** What the body of the loop leaves in the cell it returns, as a function
    of the value [v] of the dict it read; used in the statements. *)
Definition adjusted_value (self : t) (fb_map : gmap key Z) (v : Rec) : Rec :=
  match fb_map !! key_of v with
  | Some f =>
      if (0 <? f)%Z
      then with_reason (with_score v (score v + positive_weight self))
             (default "" (reason v) +:+ suffix_positive)
      else with_reason (with_score v (py_max 0.0 (score v + negative_weight self)))
             (default "" (reason v) +:+ suffix_negative)
  | None => v
  end.

End ActiveLearner.

(** ** Two computations in binary64

    The statements below are about the arithmetic of the code on exact
    rationals, or on rationals with an abstract rounding.  This module
    keeps, for one cell and in IEEE binary64, the order in which lines
    72-96 add the constants, to compare it with the sum read from left to
    right; and two raw popularity scores that are equal as rationals. *)

Module Binary64.
Import PrimFloat.
Local Open Scope float_scope.
#[local] Set Warnings "-inexact-float".

(** [boosts[i]] after [np.zeros_like] and the three [+=]. *)
Definition boosts_all_rules : float := ((0 + 0.1) + 0.05) + 0.03.

(** [final_scores[i]], line 96. *)
Definition final_score (base_score : float) : float := base_score + boosts_all_rules.

(** [base + 0.10 + 0.05 + 0.03] as Python evaluates it. *)
Definition left_to_right (base_score : float) : float :=
  ((base_score + 0.1) + 0.05) + 0.03.

(** The base score 1.0 and the literal 1.18. *)
Definition one : float := 1.
Definition one_eighteen : float := 1.18.

(** [base + (desc_len / 1000.0)], line 26 of recommender.py, for one tag
    and a description of 1006 characters, and for two tags and a
    description of 6 characters. *)
Definition raw_score (base desc_len : float) : float := base + desc_len / 1000.
Definition one_tag_long : float := raw_score 1 1006.
Definition two_tags_short : float := raw_score 2 6.

End Binary64.

(** ** Vocabulary of the statements *)

Module Spec.
Import PyStr Num Boost.
Local Open Scope Q_scope.

(** [hay] reads [pre ++ needle ++ post]. *)
Definition substring_of (needle hay : string) : Prop :=
  exists pre post : string, hay = pre +:+ needle +:+ post.

(** The value [boosts[i]] holds after the rules ran on a cell that held
    [x], the user's strings being already lower-cased: after the city and
    category rules, after the category and tag rules alone, and after all
    three. *)
Definition bump_city_category (user_city user_interests : string) (row : AssetRow)
    (x : Q) : Q :=
  let b1 := if city_rule user_city (lower (row_city row)) then x + 0.1 else x in
  if category_rule user_interests (lower (row_category row)) then b1 + 0.05 else b1.

Definition bump_category_tag (user_interests : string) (row : AssetRow) (x : Q) : Q :=
  let b2 := if category_rule user_interests (lower (row_category row))
            then x + 0.05 else x in
  if tag_rule user_interests (lower (row_tags row)) then b2 + 0.03 else b2.

Definition bump (user_city user_interests : string) (row : AssetRow) (x : Q) : Q :=
  let b2 := bump_city_category user_city user_interests row x in
  if tag_rule user_interests (lower (row_tags row)) then b2 + 0.03 else b2.

(** The boost of a candidate for a user. *)
Definition boost_of (user : UserRow) (row : AssetRow) : Q :=
  bump (lower (urow_city user)) (lower (urow_interests user)) row 0.

Definition indicator (b : bool) (q : Q) : Q := if b then q else 0.

(** A sparse row is the zero vector when every stored value is zero; it
    is canonical when no stored value is, which is how the TF-IDF
    transformer of [feature_builder.py] builds its rows. *)
Definition is_zero_vector (v : vec) : Prop := Forall (fun e => e.2 == 0) v.
Definition canonical (v : vec) : Prop := Forall (fun e => ~ e.2 == 0) v.

(** The matrix of the asset type can be compared with a row of the user
    matrix: it has a row, and both matrices have the same number of
    columns, which is not 0. *)
Definition comparable (e : Embeddings) (ty : asset_type) : Prop :=
  vectors (emb_of e ty) <> []
  /\ width (emb_users e) <> 0%nat
  /\ width (emb_of e ty) = width (emb_users e).

(** The tables agree with the embedding space: the user has a vector and
    a row, every candidate has a vector and a row, and when the user's
    vector has a stored entry the matrix of the asset type can be compared
    with it. *)
Record well_formed (e : Embeddings) (ds : Datasets) (uid : string)
    (ty : asset_type) : Prop := {
  wf_user_vectors : length (vectors (emb_users e)) = length (ids (emb_users e));
  wf_user_row : exists row, Recommender.find_user (ds_users ds) uid = Ok row;
  wf_asset_vectors : length (vectors (emb_of e ty)) = length (ids (emb_of e ty));
  wf_asset_rows : forall eid, eid ∈ ids (emb_of e ty) ->
                  exists row, Recommender.find_asset (asset_rows ds ty) eid = Ok row;
  wf_comparable : forall uidx user_vec,
                  index_of uid (ids (emb_users e)) = Some uidx ->
                  vectors (emb_users e) !! uidx = Some user_vec ->
                  nnz user_vec <> 0%nat ->
                  comparable e ty
}.

(** Scores do not increase along the list. *)
Definition sorted_desc (recs : list Rec) : Prop :=
  forall i j ri rj, (i < j)%nat -> recs !! i = Some ri -> recs !! j = Some rj ->
                    score rj <= score ri.

(** Among entries of equal score, asset ids ascend. *)
Definition ties_by_asset_id (recs : list Rec) : Prop :=
  forall i j ri rj, (i < j)%nat -> recs !! i = Some ri -> recs !! j = Some rj ->
                    score ri == score rj ->
                    String.leb (asset_id ri) (asset_id rj) = true.

(** The sum of the signals a feedback list holds for a key, and whether
    it holds any. *)
Definition signals (k : ActiveLearner.key) (fb : list ActiveLearner.entry) : list Z :=
  omap (fun '(u, atype, aid, f) =>
          if decide ((u, atype, aid) = k) then Some f else None) fb.

Definition signal_sum (k : ActiveLearner.key) (fb : list ActiveLearner.entry) : Z :=
  foldr Z.add 0%Z (signals k fb).

(** [m] is the least (greatest) value of the dict. *)
Definition is_min (m : Q) (scores : gmap string Q) : Prop :=
  (exists k, scores !! k = Some m) /\ forall k v, scores !! k = Some v -> m <= v.
Definition is_max (m : Q) (scores : gmap string Q) : Prop :=
  (exists k, scores !! k = Some m) /\ forall k v, scores !! k = Some v -> v <= m.

(** The raw score as the specification words it: the count is of the
    ';'-delimited tokens that are not the empty string. *)
Definition worded_tag_count (tags : string) : Z :=
  Z.of_nat (length (List.filter truthy (split_on ";" tags))).
Definition worded_raw_score (fl : Q -> Q) (row : AssetRow) : Q :=
  fl (fl (inject_Z (Z.max 1 (worded_tag_count (row_tags row))))
      + fl (fl (inject_Z (len (row_description row))) / 1000)).

(** The boost as the specification words it: a city match is equality of
    the lower-cased cities, and the category and tag rules look for the
    tokens in the interests string as it is. *)
Definition worded_boost (user : UserRow) (row : AssetRow) : Q :=
  indicator (String.eqb (lower (urow_city user)) (lower (row_city row))) 0.10
  + indicator (existsb (fun k => contains k (urow_interests user))
                 (split_ws (row_category row))) 0.05
  + indicator (existsb (fun t => contains (strip t) (urow_interests user))
                 (split_on ";" (row_tags row))) 0.03.

(** The key an index stands for in [argsort], and the order of indices by
    their keys. *)
Definition key_at (keys : list Q) (i : nat) : Q := default 0 (keys !! i).
Definition key_le (keys : list Q) (a b : nat) : Prop := key_at keys a <= key_at keys b.

End Spec.

(** ** Sample tables *)

Module Sample.
Local Open Scope Q_scope.

(** The dot product of two sparse rows, which is their cosine similarity
    when both have norm one. *)
Definition dot (u v : vec) : Q :=
  foldr (fun e acc =>
           e.2 * default 0 (snd <$> List.find (fun f => (f.1 =? e.1)%nat) v) + acc)
        0 u.

Definition ada : UserRow :=
  {| urow_id := "u1"; urow_city := "Berlin"; urow_interests := "AI and Tech" |}.
Definition bob : UserRow :=
  {| urow_id := "u2"; urow_city := ""; urow_interests := "tech ai" |}.

Definition meetup : AssetRow :=
  {| row_id := "e1"; row_category := "Tech Meetup"; row_city := "berlin";
     row_tags := "ai; ml"; row_description := "berlin tech meetup" |}.
Definition gallery : AssetRow :=
  {| row_id := "e2"; row_category := "Art"; row_city := "Paris";
     row_tags := ""; row_description := "" |}.
Definition nowhere : AssetRow :=
  {| row_id := "e3"; row_category := "tech"; row_city := "";
     row_tags := "ai"; row_description := "" |}.
Definition blank_tags : AssetRow :=
  {| row_id := "e4"; row_category := "Art"; row_city := "Paris";
     row_tags := " ; "; row_description := "" |}.

Definition no_rows : EmbeddingSpace := {| ids := []; vectors := []; width := 2 |}.

(** Ada has text, Bob has none; three events. *)
Definition tables : Datasets :=
  {| ds_users := [ada; bob]; ds_events := [meetup; gallery; nowhere];
     ds_jobs := []; ds_posts := [] |}.
Definition space : Embeddings :=
  {| emb_users := {| ids := ["u1"; "u2"]; vectors := [[(0%nat, 1)]; []]; width := 2 |};
     emb_events := {| ids := ["e1"; "e2"; "e3"];
                      vectors := [[(0%nat, 1)]; [(1%nat, 1)]; [(0%nat, 0.6); (1%nat, 0.8)]];
                      width := 2 |};
     emb_jobs := no_rows; emb_posts := no_rows |}.
Definition engine : Recommender.t := Recommender.init Num.exact space tables.

(** Two events that differ in their id only, listed as "b" then "a". *)
Definition twin (id : string) : AssetRow :=
  {| row_id := id; row_category := "Art"; row_city := "Paris";
     row_tags := "art"; row_description := "" |}.
Definition twin_tables : Datasets :=
  {| ds_users := [bob]; ds_events := [twin "b"; twin "a"];
     ds_jobs := []; ds_posts := [] |}.
Definition twin_space : Embeddings :=
  {| emb_users := {| ids := ["u2"]; vectors := [[]]; width := 2 |};
     emb_events := {| ids := ["b"; "a"]; vectors := [[(0%nat, 1)]; [(0%nat, 1)]];
                      width := 2 |};
     emb_jobs := no_rows; emb_posts := no_rows |}.

(** The same two events, listed as "a" then "b". *)
Definition twin_tables_ab : Datasets :=
  {| ds_users := [bob]; ds_events := [twin "a"; twin "b"];
     ds_jobs := []; ds_posts := [] |}.
Definition twin_space_ab : Embeddings :=
  {| emb_users := {| ids := ["u2"]; vectors := [[]]; width := 2 |};
     emb_events := {| ids := ["a"; "b"]; vectors := [[(0%nat, 1)]; [(0%nat, 1)]];
                      width := 2 |};
     emb_jobs := no_rows; emb_posts := no_rows |}.

(** What the engine returns for Ada and for Bob, on events. *)
Definition ada_events : result (list Rec) :=
  Eval vm_compute in
    Recommender.recommend_for_user dot Recommender.insertion_argsort engine "u1" events 10.
Definition bob_events : result (list Rec) :=
  Eval vm_compute in
    Recommender.recommend_for_user dot Recommender.insertion_argsort engine "u2" events 10.

Definition twin_rec (id : string) : Rec :=
  {| user_id := "u2"; asset_id := id; rec_type := "event"; score := 1.000;
     reason := Some "popularity fallback" |}.

(** A recommendation and the store that holds it. *)
Definition liked : Rec :=
  {| user_id := "u1"; asset_id := "e1"; rec_type := "event"; score := 0.5;
     reason := Some "text-based similarity" |}.
Definition other : Rec :=
  {| user_id := "u1"; asset_id := "e2"; rec_type := "event"; score := 0.1;
     reason := Some "text-based similarity" |}.
Definition like : ActiveLearner.entry := ("u1", "event", "e1", 1%Z).
Definition dislike : ActiveLearner.entry := ("u1", "event", "e1", (-1)%Z).

End Sample.

(** ** [generate_all_recommendations] (recommender.py, lines 110-116) *)

Module Batch.
Import Recommender.

(** The dict [{"events": [], "jobs": [], "posts": []}], whose keys are
    fixed. *)
Record all_recs : Type := {
  of_events : list Rec;
  of_jobs : list Rec;
  of_posts : list Rec
}.

Definition no_recs : all_recs := {| of_events := []; of_jobs := []; of_posts := [] |}.

Definition recs_of (a : all_recs) (ty : asset_type) : list Rec :=
  match ty with
  | events => of_events a
  | jobs => of_jobs a
  | posts => of_posts a
  end.

(** [all_recs[asset_type].extend(recs)] *)
Definition extend (a : all_recs) (ty : asset_type) (recs : list Rec) : all_recs :=
  match ty with
  | events => {| of_events := of_events a ++ recs; of_jobs := of_jobs a;
                 of_posts := of_posts a |}
  | jobs => {| of_events := of_events a; of_jobs := of_jobs a ++ recs;
               of_posts := of_posts a |}
  | posts => {| of_events := of_events a; of_jobs := of_jobs a;
                of_posts := of_posts a ++ recs |}
  end.

Section External.
Variable cosine_similarity : vec -> vec -> Q.
Variable argsort : list Q -> list nat.

(** The inner loop, [for asset_type in all_recs.keys()], for one user. *)
Definition user_pass (self : Recommender.t) (top_n : Z) (acc : all_recs) (uid : string)
    : result all_recs :=
  r1 ← recommend_for_user cosine_similarity argsort self uid events top_n;
  let acc1 := extend acc events r1 in
  r2 ← recommend_for_user cosine_similarity argsort self uid jobs top_n;
  let acc2 := extend acc1 jobs r2 in
  r3 ← recommend_for_user cosine_similarity argsort self uid posts top_n;
  Ok (extend acc2 posts r3).

(** The outer loop, [for uid in self.embeddings["users"]["ids"]]. *)
Fixpoint user_loop (self : Recommender.t) (top_n : Z) (acc : all_recs)
    (uids : list string) : result all_recs :=
  match uids with
  | [] => Ok acc
  | uid :: rest =>
      acc1 ← user_pass self top_n acc uid;
      user_loop self top_n acc1 rest
  end.

Definition generate_all_recommendations (self : Recommender.t) (top_n : Z)
    : result all_recs :=
  user_loop self top_n no_recs (ids (emb_users (embeddings self))).

End External.

End Batch.

(** ** Grouping by user in [run] (main.py, lines 66-76) *)

Module Pipeline.
Import Batch.

(** A dict from user ids to [{"events": [], "jobs": [], "posts": []}], in
    insertion order. *)
Abbreviation per_user := (list (string * all_recs)).

(** [uid in d] and [d[uid]] *)
Fixpoint has_key (uid : string) (d : per_user) : bool :=
  match d with
  | [] => false
  | (k, _) :: rest => String.eqb k uid || has_key uid rest
  end.

Fixpoint get (uid : string) (d : per_user) : option all_recs :=
  match d with
  | [] => None
  | (k, v) :: rest => if String.eqb k uid then Some v else get uid rest
  end.

(** [d[uid] = v]: an existing key keeps its place, a new key goes last. *)
Fixpoint set (uid : string) (v : all_recs) (d : per_user) : per_user :=
  match d with
  | [] => [(uid, v)]
  | (k, w) :: rest =>
      if String.eqb k uid then (k, v) :: rest else (k, w) :: set uid v rest
  end.

(** Line 67, the dict comprehension over the user ids. *)
Definition start (user_ids : list string) : per_user :=
  foldl (fun d uid => set uid no_recs d) [] user_ids.

(** Lines 70-73, the body of the inner loop for one [rec] of
    [adjusted[asset_type]]. *)
Definition file_rec (ty : asset_type) (d : per_user) (rec : Rec) : per_user :=
  let uid := user_id rec in
  let d1 := if has_key uid d then d else set uid no_recs d in
  match get uid d1 with
  | Some v => set uid (extend v ty [rec]) d1
  | None => d1
  end.

(** Lines 67-76: the list of pairs (user id, recommendations) that is
    written to [user_recommendations.json]. *)
Definition group_by_user (user_ids : list string) (adjusted : all_recs) : per_user :=
  let d0 := start user_ids in
  let d1 := foldl (file_rec events) d0 (of_events adjusted) in
  let d2 := foldl (file_rec jobs) d1 (of_jobs adjusted) in
  foldl (file_rec posts) d2 (of_posts adjusted).

End Pipeline.

(** ** Profile and asset texts (feature_builder.py, lines 19-47) *)

Module FeatureText.
Import PyStr.

(** A row of a table as [iterrows] yields it: its cells by column name,
    each already a string. *)
Abbreviation row := (gmap string string).

(** [str(row.get(col, ""))] *)
Definition cell (r : row) (col : string) : string := default "" (r !! col).

(** [sep.join(parts)] *)
Fixpoint join (sep : string) (parts : list string) : string :=
  match parts with
  | [] => ""
  | [p] => p
  | p :: rest => p +:+ sep +:+ join sep rest
  end.

(** The body of the loop of [build_asset_text]: the text, then the id
    [row[id_col]], which must be there. *)
Definition asset_text (r : row) (fields : list string) : string :=
  join " " (cell r <$> fields).

Fixpoint build_asset_text (df : list row) (id_col : string) (fields : list string)
    : result (list (string * string)) :=
  match df with
  | [] => Ok []
  | r :: rest =>
      let text := asset_text r fields in
      id ← of_option KeyError (r !! id_col);
      series ← build_asset_text rest id_col fields;
      Ok ((id, text) :: series)
  end.

(** The body of the loop of [build_user_profile_text], lines 27-33. *)
Definition profile_text (r : row) : string :=
  let university := cell r "university" in
  let degree := cell r "degree" in
  let interests := cell r "interests" in
  let bio := cell r "bio" in
  let city := cell r "city" in
  join " " [university; degree; interests; bio; city].

Fixpoint build_user_profile_text (users : list row) : result (list (string * string)) :=
  match users with
  | [] => Ok []
  | r :: rest =>
      let text := profile_text r in
      id ← of_option KeyError (r !! "user_id");
      series ← build_user_profile_text rest;
      Ok ((id, text) :: series)
  end.

End FeatureText.

(** ** Display of the results (streamlit_app.py) *)

Module Display.
Import PyStr Num.
Local Open Scope Q_scope.

(** [friendly_reason], lines 101-114. *)
Definition friendly_parts (reason : string) : list string :=
  (if contains "text-based" reason || contains "similarity" reason
   then ["Matches your profile based on textual similarity"] else [])
  ++ (if contains "popularity" reason
      then ["Popular item fallback (cold-start)"] else [])
  ++ (if contains "feedback adjusted (positive)" reason
      then ["Boosted by positive feedback"] else [])
  ++ (if contains "feedback adjusted (negative)" reason
      then ["Reduced after negative feedback"] else []).

Definition friendly_reason (reason_raw : string) : string :=
  let reason := if truthy reason_raw then lower reason_raw else "" in
  match friendly_parts reason with
  | [] => "Recommended based on relevance to your profile"
  | parts => FeatureText.join "; " parts
  end.

(** Python's built-in [min(a, b)]: the second argument only when it is
    strictly smaller. *)
Definition py_min (a b : Q) : Q := if Qltb b a then b else a.

(** [int(x)] of a float: truncation toward zero. *)
Definition py_int (x : Q) : Z := Z.quot (Qnum x) (Z.pos (Qden x)).

(** [score_to_percentage], line 120; a float never takes the [except]
    branches. *)
Definition score_to_percentage (score : Q) : Z :=
  py_int (py_max 0 (py_min 1 score) * 100).

(** [sorted(items, key=...)], which is stable: an item goes after the
    items whose key is not larger than its own. *)
Fixpoint insert_by (key : Rec -> Q) (x : Rec) (sorted : list Rec) : list Rec :=
  match sorted with
  | [] => [x]
  | y :: rest =>
      if Qltb (key x) (key y) then x :: y :: rest
      else y :: insert_by key x rest
  end.

Definition py_sorted (key : Rec -> Q) (items : list Rec) : list Rec :=
  foldl (fun sorted x => insert_by key x sorted) [] items.

(** Line 180: [sorted(items, key=lambda x: -float(x.get("score", 0.0)))[:10]]. *)
Definition shown (items : list Rec) : list Rec :=
  slice_to 10 (py_sorted (fun x => - score x) items).

(** Line 38 of [load_user_recs]: the dict from user id to recommendations
    built from the list of entries of the file. *)
Definition user_mapping (data : list (string * Batch.all_recs))
    : gmap string Batch.all_recs :=
  foldl (fun m entry => <[entry.1 := entry.2]> m) ∅ data.

End Display.

(** ** More sample data

    The lists that the sample engine returns, the popularity of two of its
    events, an engine whose events table misses a row, an engine with a
    job and a post, and a sequence of draws of [random.random()]. *)

Module Scenario.
Import Sample.
Local Open Scope Q_scope.

Definition ada_recs : list Rec :=
  Eval vm_compute in match ada_events with Ok l => l | Raise _ => [] end.
Definition bob_recs : list Rec :=
  Eval vm_compute in match bob_events with Ok l => l | Raise _ => [] end.
Definition ada_first : Rec :=
  Eval vm_compute in match ada_recs with r :: _ => r | [] => liked end.

Definition raw_gallery : Q :=
  Eval vm_compute in default 0 (Popularity.raw_scores Num.exact (ds_events tables) !! "e2").
Definition raw_meetup : Q :=
  Eval vm_compute in default 0 (Popularity.raw_scores Num.exact (ds_events tables) !! "e1").
Definition pop_gallery : Q :=
  Eval vm_compute in
    default 0 (Popularity._compute_popularity_score Num.exact (ds_events tables) !! "e2").
Definition pop_meetup : Q :=
  Eval vm_compute in
    default 0 (Popularity._compute_popularity_score Num.exact (ds_events tables) !! "e1").

(** The tables without the row of the event "e3", which the embedding
    space still lists. *)
Definition short_tables : Datasets :=
  {| ds_users := [ada; bob]; ds_events := [meetup; gallery];
     ds_jobs := []; ds_posts := [] |}.
Definition short_engine : Recommender.t :=
  Recommender.init Num.exact space short_tables.

(** The sample tables with one job and one post, so that no matrix is
    without rows. *)
Definition desk : AssetRow :=
  {| row_id := "j1"; row_category := "Tech"; row_city := "Berlin";
     row_tags := "ai"; row_description := "ml engineer" |}.
Definition note : AssetRow :=
  {| row_id := "p1"; row_category := "Art"; row_city := "";
     row_tags := "paint"; row_description := "" |}.
Definition full_tables : Datasets :=
  {| ds_users := [ada; bob]; ds_events := [meetup; gallery; nowhere];
     ds_jobs := [desk]; ds_posts := [note] |}.
Definition full_space : Embeddings :=
  {| emb_users := emb_users space;
     emb_events := emb_events space;
     emb_jobs := {| ids := ["j1"]; vectors := [[(0%nat, 1)]]; width := 2 |};
     emb_posts := {| ids := ["p1"]; vectors := [[(1%nat, 1)]]; width := 2 |} |}.
Definition full_engine : Recommender.t :=
  Recommender.init Num.exact full_space full_tables.

(** All recommendations of that engine. *)
Definition engine_all : Batch.all_recs :=
  Eval vm_compute in
    match Batch.generate_all_recommendations dot Recommender.insertion_argsort
            full_engine 10 with
    | Ok a => a
    | Raise _ => Batch.no_recs
    end.


(** The first draw is 0.05, every later one 0.5. *)
Definition draws (i : nat) : Q := if (i =? 0)%nat then 0.05 else 0.5.

End Scenario.

(** * Python strings: facts used below *)

Module PyStrFacts.
Import PyStr.

Lemma truthy_true_iff (s : string) : truthy s = true <-> s <> "".
Proof. destruct s; simpl; split; intros H; congruence. Qed.

Lemma append_cons (c : ascii) (s t : string) :
  String c s +:+ t = String c (s +:+ t).
Proof. reflexivity. Qed.

Lemma prefix_spec (n h : string) :
  String.prefix n h = true <-> exists post, h = n +:+ post.
Proof.
  revert h. induction n as [|c n IH]; intros h.
  - split; [intros _; exists h; reflexivity | intros _; destruct h; reflexivity].
  - destruct h as [|d h]; simpl.
    + split; [discriminate | intros [p Hp]; discriminate].
    + destruct (ascii_dec c d) as [->|Hne].
      * rewrite IH. split; intros [p Hp]; exists p; rewrite append_cons in *; congruence.
      * split; [discriminate | intros [p Hp]; rewrite append_cons in Hp; congruence].
Qed.

Lemma contains_nil (n : string) : contains n "" = String.prefix n "".
Proof. unfold contains. apply orb_false_r. Qed.

Lemma contains_cons (n : string) (d : ascii) (h : string) :
  contains n (String d h) = String.prefix n (String d h) || contains n h.
Proof. reflexivity. Qed.

Lemma contains_spec (n h : string) :
  contains n h = true <-> Spec.substring_of n h.
Proof.
  unfold Spec.substring_of. induction h as [|d h IH].
  - rewrite contains_nil, prefix_spec. split.
    + intros [p Hp]. exists "", p. exact Hp.
    + intros [[|c pre] [post Hp]]; [exists post; exact Hp | discriminate].
  - rewrite contains_cons, orb_true_iff, prefix_spec, IH. split.
    + intros [[p Hp] | (pre & post & Hp)].
      * exists "", p. exact Hp.
      * exists (String d pre), post. rewrite append_cons. congruence.
    + intros [[|c pre] [post Hp]].
      * left. exists post. exact Hp.
      * right. exists pre, post. rewrite append_cons in Hp. congruence.
Qed.

Lemma contains_empty (h : string) : contains "" h = true.
Proof. destruct h; reflexivity. Qed.

Lemma split_ws_from_truthy (cur s t : string) :
  t ∈ split_ws_from cur s -> truthy t = true.
Proof.
  revert cur. induction s as [|c s IH]; intros cur; simpl.
  - destruct (truthy cur) eqn:E; [|intros H; inversion H].
    intros H. apply list_elem_of_singleton in H. congruence.
  - destruct (isspace c).
    + destruct (truthy cur) eqn:E; [|apply IH].
      intros H. apply elem_of_cons in H as [-> | H]; [exact E | exact (IH _ H)].
    + apply IH.
Qed.

Lemma split_ws_truthy (s t : string) : t ∈ split_ws s -> truthy t = true.
Proof. apply split_ws_from_truthy. Qed.

End PyStrFacts.

(** * The boost rules *)

Module BoostFacts.
Import PyStr Num Boost Spec PyStrFacts.
Local Open Scope Q_scope.

Lemma city_rule_spec (uc c : string) :
  city_rule uc c = true <-> uc <> "" /\ uc = c.
Proof.
  unfold city_rule.
  rewrite andb_true_iff, truthy_true_iff, String.eqb_eq. reflexivity.
Qed.

Lemma category_rule_spec (ui cat : string) :
  category_rule ui cat = true
  <-> exists k, k ∈ split_ws cat /\ substring_of k ui.
Proof.
  unfold category_rule. rewrite existsb_exists. split.
  - intros (k & Hin & _). apply filter_In in Hin as [Hin Hc].
    exists k. split; [apply list_elem_of_In, Hin | apply contains_spec, Hc].
  - intros (k & Hin & Hsub). exists k. split.
    + apply filter_In. split; [apply list_elem_of_In, Hin | apply contains_spec, Hsub].
    + apply (split_ws_truthy cat), Hin.
Qed.

Lemma tag_rule_spec (ui tags : string) :
  tag_rule ui tags = true
  <-> exists t, t ∈ split_on ";" tags /\ substring_of (strip t) ui.
Proof.
  unfold tag_rule. rewrite existsb_exists. split.
  - intros (t & Hin & Hc). exists t.
    split; [apply list_elem_of_In, Hin | apply contains_spec, Hc].
  - intros (t & Hin & Hsub). exists t.
    split; [apply list_elem_of_In, Hin | apply contains_spec, Hsub].
Qed.

Lemma tag_rule_empty (ui : string) : tag_rule ui (lower "") = true.
Proof. unfold tag_rule. simpl. rewrite contains_empty. reflexivity. Qed.

Lemma add_at_ok (i : nat) (d x : Q) (a : list Q) :
  a !! i = Some x -> add_at i d a = Ok (<[i := x + d]> a).
Proof. intros H. unfold add_at. rewrite H. reflexivity. Qed.

(** One pass of the loop body rewrites cell [i] and nothing else. *)
Lemma boost_candidate_ok rows uc ui (boosts : list Q) i eid row x :
  Recommender.find_asset rows eid = Ok row ->
  boosts !! i = Some x ->
  Recommender.boost_candidate rows uc ui boosts i eid
  = Ok (<[i := bump uc ui row x]> boosts).
Proof.
  intros Hrow Hx. unfold Recommender.boost_candidate, bump, bump_city_category.
  rewrite Hrow. cbn.
  assert (Hi : (i < length boosts)%nat) by (eapply lookup_lt_Some; eauto).
  destruct (city_rule _ _), (category_rule _ _), (tag_rule _ _); cbn;
    repeat first
      [ rewrite (add_at_ok i _ x boosts Hx); cbn
      | erewrite add_at_ok by (apply list_lookup_insert_eq; rewrite ?length_insert; exact Hi); cbn
      | rewrite list_insert_insert_eq ];
    try reflexivity.
  rewrite list_insert_id by exact Hx. reflexivity.
Qed.

Lemma boost_candidate_inv rows uc ui (boosts b : list Q) i eid :
  Recommender.boost_candidate rows uc ui boosts i eid = Ok b ->
  exists row,
    Recommender.find_asset rows eid = Ok row
    /\ length b = length boosts
    /\ (forall j, j <> i -> b !! j = boosts !! j)
    /\ (forall x, boosts !! i = Some x -> b !! i = Some (bump uc ui row x)).
Proof.
  unfold Recommender.boost_candidate.
  destruct (Recommender.find_asset rows eid) as [row|e] eqn:Hrow; [|discriminate].
  cbn. intros H. exists row. split; [reflexivity|].
  destruct (boosts !! i) as [x|] eqn:Hx.
  - pose proof (boost_candidate_ok rows uc ui boosts i eid row x Hrow Hx) as Hok.
    unfold Recommender.boost_candidate in Hok. rewrite Hrow in Hok. cbn in Hok.
    rewrite Hok in H. injection H as <-.
    split; [apply length_insert|]. split.
    + intros j Hj. apply list_lookup_insert_ne. congruence.
    + intros x' [= <-]. apply list_lookup_insert_eq. eapply lookup_lt_Some; eauto.
  - assert (Hadd : forall d, add_at i d boosts = Raise IndexError)
      by (intros d; unfold add_at; rewrite Hx; reflexivity).
    destruct (city_rule _ _); [rewrite Hadd in H; discriminate|]. cbn in H.
    destruct (category_rule _ _); [rewrite Hadd in H; discriminate|]. cbn in H.
    destruct (tag_rule _ _); [rewrite Hadd in H; discriminate|].
    injection H as <-. split; [reflexivity|]. split; [reflexivity|].
    intros x [=].
Qed.

End BoostFacts.

(** * The ranking loop and the assembly of the result *)

Module RankingFacts.
Import PyStr Num Boost Spec PyStrFacts BoostFacts Recommender.
Local Open Scope Q_scope.

Lemma boost_loop_inv rows uc ui (eids : list string) :
  forall (boosts : list Q) (i : nat) (b : list Q),
    boost_loop rows uc ui boosts i eids = Ok b ->
    length b = length boosts
    /\ (forall j, (j < i \/ i + length eids <= j)%nat -> b !! j = boosts !! j)
    /\ (forall k eid, eids !! k = Some eid ->
          exists row, find_asset rows eid = Ok row
                      /\ forall x, boosts !! (i + k)%nat = Some x ->
                                   b !! (i + k)%nat = Some (bump uc ui row x)).
Proof.
  induction eids as [|eid0 rest IH]; intros boosts i b; simpl.
  - intros [= <-]. split; [reflexivity|]. split; [reflexivity|].
    intros k eid Hk. rewrite lookup_nil in Hk. discriminate.
  - destruct (boost_candidate rows uc ui boosts i eid0) as [b1|e] eqn:H1; [|discriminate].
    cbn. intros H2.
    apply boost_candidate_inv in H1 as (row0 & Hrow0 & Hlen1 & Hother1 & Hcell1).
    apply IH in H2 as (Hlen2 & Hother2 & Hcells2).
    split; [congruence|]. split.
    + intros j Hj. rewrite Hother2 by lia. apply Hother1. lia.
    + intros [|k] eid Hk; simpl in Hk.
      * injection Hk as <-. exists row0. split; [exact Hrow0|].
        rewrite Nat.add_0_r. intros x Hx.
        rewrite Hother2 by lia. apply Hcell1, Hx.
      * destruct (Hcells2 k eid Hk) as (row & Hrow & Hcell).
        exists row. split; [exact Hrow|]. intros x Hx.
        replace (i + S k)%nat with (S i + k)%nat in * by lia.
        apply Hcell. rewrite Hother1 by lia. exact Hx.
Qed.

Lemma boost_loop_ok rows uc ui (eids : list string) :
  forall (boosts : list Q) (i : nat),
    (forall eid, eid ∈ eids -> exists row, find_asset rows eid = Ok row) ->
    (i + length eids <= length boosts)%nat ->
    exists b, boost_loop rows uc ui boosts i eids = Ok b.
Proof.
  induction eids as [|eid0 rest IH]; intros boosts i Hrows Hlen; simpl.
  - exists boosts. reflexivity.
  - destruct (Hrows eid0) as [row Hrow]; [left|].
    simpl in Hlen.
    destruct (lookup_lt_is_Some_2 boosts i) as [x Hx]; [lia|].
    rewrite (boost_candidate_ok rows uc ui boosts i eid0 row x Hrow Hx). cbn.
    apply IH.
    + intros eid Hin. apply Hrows. right. exact Hin.
    + rewrite length_insert. lia.
Qed.

Lemma make_recs_inv uid ty rsn (eids : list string) (final : list Q) (order : list nat) :
  forall recs,
    make_recs uid ty rsn eids final order = Ok recs ->
    length recs = length order
    /\ forall p idx, order !! p = Some idx ->
         exists eid s,
           eids !! idx = Some eid /\ final !! idx = Some s
           /\ recs !! p = Some {| user_id := uid; asset_id := eid;
                                  rec_type := drop_last (type_name ty);
                                  score := s; reason := Some rsn |}.
Proof.
  induction order as [|idx0 rest IH]; intros recs; simpl.
  - intros [= <-]. split; [reflexivity|]. intros p idx Hp.
    rewrite lookup_nil in Hp. discriminate.
  - destruct (eids !! idx0) as [eid0|] eqn:E1; [|discriminate]. cbn.
    destruct (final !! idx0) as [s0|] eqn:E2; [|discriminate]. cbn.
    destruct (make_recs uid ty rsn eids final rest) as [recs'|e] eqn:E3; [|discriminate].
    cbn. intros [= <-].
    destruct (IH recs' eq_refl) as [Hlen Hcells].
    split; [simpl; congruence|].
    intros [|p] idx Hp; simpl in Hp.
    + injection Hp as <-. exists eid0, s0. repeat split; assumption.
    + apply Hcells, Hp.
Qed.

Lemma make_recs_ok uid ty rsn (eids : list string) (final : list Q) (order : list nat) :
  (forall idx, idx ∈ order -> (idx < length eids)%nat /\ (idx < length final)%nat) ->
  exists recs, make_recs uid ty rsn eids final order = Ok recs.
Proof.
  induction order as [|idx0 rest IH]; intros Hin; simpl.
  - exists []. reflexivity.
  - destruct (Hin idx0) as [H1 H2]; [left|].
    destruct (lookup_lt_is_Some_2 eids idx0 H1) as [eid0 ->].
    destruct (lookup_lt_is_Some_2 final idx0 H2) as [s0 ->]. cbn.
    destruct IH as [recs' ->]; [intros idx Hidx; apply Hin; right; exact Hidx|].
    cbn. eexists. reflexivity.
Qed.

Lemma slice_to_prefix {A : Type} (stop : Z) (a : list A) :
  exists k, slice_to stop a = take k a.
Proof. unfold slice_to. destruct (0 <=? stop)%Z; eexists; reflexivity. Qed.

Lemma slice_to_length {A : Type} (stop : Z) (a : list A) :
  (0 <= stop)%Z -> (Z.of_nat (length (slice_to stop a)) <= stop)%Z.
Proof.
  intros H. unfold slice_to. destruct (Z.leb_spec 0 stop); [|lia].
  rewrite length_take. lia.
Qed.

Lemma slice_to_lookup {A : Type} (stop : Z) (a : list A) (p : nat) (x : A) :
  slice_to stop a !! p = Some x -> a !! p = Some x.
Proof.
  destruct (slice_to_prefix stop a) as [k ->].
  intros H. apply lookup_take_Some in H as [H _]. exact H.
Qed.

End RankingFacts.

(** * The insertion [argsort] meets [argsort_ok] *)

Module ArgsortFacts.
Import Num Recommender Spec.
Local Open Scope Q_scope.

Lemma Qltb_true (x y : Q) : Qltb x y = true -> x <= y.
Proof.
  unfold Qltb. intros H. apply negb_true_iff in H.
  apply Qlt_le_weak, Qnot_le_lt. intros Hle.
  apply Qle_bool_iff in Hle. congruence.
Qed.

Lemma Qltb_false (x y : Q) : Qltb x y = false -> y <= x.
Proof.
  unfold Qltb. intros H. apply negb_false_iff in H.
  apply Qle_bool_iff, H.
Qed.

Lemma Qltb_lt (x y : Q) : Qltb x y = true <-> x < y.
Proof.
  unfold Qltb. rewrite negb_true_iff. split.
  - intros H. apply Qnot_le_lt. intros Hle. apply Qle_bool_iff in Hle. congruence.
  - intros H. destruct (Qle_bool y x) eqn:E; [|reflexivity].
    apply Qle_bool_iff in E. exfalso. exact (Qlt_not_le _ _ H E).
Qed.

Lemma insert_index_perm keys i (l : list nat) :
  Permutation (insert_index keys i l) (i :: l).
Proof.
  induction l as [|j rest IH]; simpl; [reflexivity|].
  destruct (Qltb _ _); [reflexivity|].
  rewrite IH. apply perm_swap.
Qed.

Lemma insert_index_hd keys i j (l : list nat) :
  key_le keys j i -> HdRel (key_le keys) j l ->
  HdRel (key_le keys) j (insert_index keys i l).
Proof.
  intros Hji Hhd. destruct l as [|k rest]; simpl.
  - constructor. exact Hji.
  - destruct (Qltb _ _); constructor; [exact Hji|].
    inversion Hhd; assumption.
Qed.

Lemma insert_index_sorted keys i (l : list nat) :
  Sorted (key_le keys) l -> Sorted (key_le keys) (insert_index keys i l).
Proof.
  induction l as [|j rest IH]; intros Hs; simpl.
  - repeat constructor.
  - inversion Hs as [|? ? Hrest Hhd]; subst.
    destruct (Qltb _ _) eqn:E.
    + constructor; [exact Hs|]. constructor. apply Qltb_true, E.
    + constructor; [apply IH, Hrest|].
      apply insert_index_hd; [apply Qltb_false, E | exact Hhd].
Qed.

Lemma insertion_fold keys (l acc : list nat) :
  Sorted (key_le keys) acc ->
  Permutation (foldl (fun sorted i => insert_index keys i sorted) acc l) (l ++ acc)
  /\ Sorted (key_le keys) (foldl (fun sorted i => insert_index keys i sorted) acc l).
Proof.
  revert acc. induction l as [|i l IH]; intros acc Hs; simpl.
  - split; [reflexivity | exact Hs].
  - destruct (IH (insert_index keys i acc) (insert_index_sorted keys i acc Hs))
      as [Hp Hsorted].
    split; [|exact Hsorted].
    rewrite Hp, insert_index_perm. symmetry. apply Permutation_middle.
Qed.

Lemma strongly_sorted_lookup {A : Type} (R : A -> A -> Prop) (l : list A) :
  StronglySorted R l ->
  forall i j a b, (i < j)%nat -> l !! i = Some a -> l !! j = Some b -> R a b.
Proof.
  induction 1 as [|x l Hs IH Hall]; intros i j a b Hij Hi Hj.
  - rewrite lookup_nil in Hi. discriminate.
  - destruct j as [|j]; [lia|]. simpl in Hj.
    destruct i as [|i]; simpl in Hi.
    + injection Hi as <-. rewrite List.Forall_forall in Hall.
      apply Hall. apply list_elem_of_In. eapply list_elem_of_lookup_2. exact Hj.
    + apply (IH i j); [lia | assumption | assumption].
Qed.

Lemma insertion_argsort_ok : argsort_ok insertion_argsort.
Proof.
  intros keys. unfold insertion_argsort.
  destruct (insertion_fold keys (seq 0 (length keys)) []) as [Hp Hs];
    [constructor|].
  rewrite app_nil_r in Hp. split; [exact Hp|].
  intros i j ki kj Hij Hi Hj.
  set (order := foldl _ _ _) in *.
  destruct (order !! i) as [a|] eqn:Ea; [|discriminate].
  destruct (order !! j) as [b|] eqn:Eb; [|discriminate].
  cbn in Hi, Hj.
  assert (Hab : key_le keys a b).
  { apply (strongly_sorted_lookup (key_le keys) order) with (i := i) (j := j);
      try assumption.
    apply Sorted_StronglySorted; [|exact Hs].
    intros x y z Hxy Hyz. unfold key_le in *. eapply Qle_trans; eassumption. }
  unfold key_le, key_at in Hab. rewrite Hi, Hj in Hab. exact Hab.
Qed.

Lemma index_of_elem (x : string) (l : list string) :
  x ∈ l -> exists i, index_of x l = Some i /\ l !! i = Some x.
Proof.
  induction l as [|y r IH]; intros Hin; [inversion Hin|]. simpl.
  destruct (String.eqb_spec y x) as [->|Hne].
  - exists 0%nat. split; reflexivity.
  - apply elem_of_cons in Hin as [Heq|Hin]; [congruence|].
    destruct (IH Hin) as (i & -> & Hi). exists (S i). split; [reflexivity | exact Hi].
Qed.

Lemma index_of_Some (x : string) (l : list string) (i : nat) :
  index_of x l = Some i -> l !! i = Some x.
Proof.
  revert i. induction l as [|y r IH]; intros i; simpl; [discriminate|].
  destruct (String.eqb_spec y x) as [->|Hne].
  - intros [= <-]. reflexivity.
  - destruct (index_of x r) as [k|]; [|discriminate].
    intros [= <-]. simpl. apply IH. reflexivity.
Qed.

End ArgsortFacts.

(** * [recommend_for_user] *)

Section Ranking.
Import PyStr Num Boost Spec PyStrFacts BoostFacts Recommender RankingFacts.
Local Open Scope Q_scope.

Variable cosine_similarity : vec -> vec -> Q.
Variable argsort : list Q -> list nat.

Local Abbreviation rank := (recommend_for_user cosine_similarity argsort).
Local Abbreviation base := (base_scores cosine_similarity).
Local Abbreviation pairwise := (pairwise_cosine cosine_similarity).

(** The validation of sklearn: when it passes, and what it raises. *)
Lemma pairwise_cosine_inv x_width x y_width y sims :
  pairwise x_width x y_width y = Ok sims ->
  sims = cosine_similarity x <$> y
  /\ y <> [] /\ x_width <> 0%nat /\ y_width = x_width.
Proof.
  unfold pairwise_cosine.
  destruct (Nat.eqb_spec x_width 0) as [|Hx]; [discriminate|].
  destruct (Nat.eqb_spec y_width 0) as [|Hy]; [discriminate|].
  destruct y as [|v y]; [discriminate|].
  destruct (Nat.eqb_spec x_width y_width) as [Hw|]; [|discriminate].
  simpl. intros [= <-]. repeat split; [discriminate | exact Hx | congruence].
Qed.

Lemma pairwise_cosine_ok x_width x y_width y :
  y <> [] -> x_width <> 0%nat -> y_width = x_width ->
  pairwise x_width x y_width y = Ok (cosine_similarity x <$> y).
Proof.
  intros Hy Hx ->. unfold pairwise_cosine.
  destruct (Nat.eqb_spec x_width 0) as [|_]; [contradiction|].
  destruct y as [|v y]; [contradiction|].
  rewrite Nat.eqb_refl. reflexivity.
Qed.

Lemma pairwise_cosine_raise x_width x y_width y e :
  pairwise x_width x y_width y = Raise e ->
  e = ValueError /\ (y = [] \/ x_width = 0%nat \/ y_width <> x_width).
Proof.
  unfold pairwise_cosine.
  destruct (Nat.eqb_spec x_width 0) as [Hx|Hx]; simpl.
  { intros [= <-]. auto. }
  destruct (Nat.eqb_spec y_width 0) as [Hy|Hy]; simpl.
  { intros [= <-]. split; [reflexivity|]. right. right. congruence. }
  destruct y as [|v y]; simpl.
  { intros [= <-]. auto. }
  destruct (Nat.eqb_spec x_width y_width) as [Hw|Hw]; simpl; [discriminate|].
  intros [= <-]. split; [reflexivity|]. right. right. congruence.
Qed.

(** The two branches of lines 58-65. *)
Lemma base_scores_inv self ty user_vec scores rsn :
  base self ty user_vec = Ok (scores, rsn) ->
  (nnz user_vec = 0%nat
   /\ scores = (fun eid => default 0 (popularity self ty !! eid))
               <$> ids (emb_of (embeddings self) ty)
   /\ rsn = "popularity fallback")
  \/ (nnz user_vec <> 0%nat
      /\ scores = cosine_similarity user_vec <$> vectors (emb_of (embeddings self) ty)
      /\ rsn = "text-based similarity"
      /\ vectors (emb_of (embeddings self) ty) <> []
      /\ width (emb_users (embeddings self)) <> 0%nat
      /\ width (emb_of (embeddings self) ty) = width (emb_users (embeddings self))).
Proof.
  unfold base_scores.
  destruct (Nat.eqb_spec (nnz user_vec) 0) as [Hn|Hn].
  - intros [= <- <-]. left. auto.
  - destruct (pairwise _ _ _ _) as [sims|e] eqn:E; [|discriminate].
    cbn. intros [= <- <-].
    apply pairwise_cosine_inv in E as (-> & Hy & Hx & Hw).
    right. repeat split; assumption.
Qed.

Lemma base_scores_raise self ty user_vec e :
  base self ty user_vec = Raise e ->
  e = ValueError
  /\ nnz user_vec <> 0%nat
  /\ (vectors (emb_of (embeddings self) ty) = []
      \/ width (emb_users (embeddings self)) = 0%nat
      \/ width (emb_of (embeddings self) ty) <> width (emb_users (embeddings self))).
Proof.
  unfold base_scores.
  destruct (Nat.eqb_spec (nnz user_vec) 0) as [Hn|Hn]; [discriminate|].
  destruct (pairwise _ _ _ _) as [sims|e'] eqn:E; [discriminate|].
  cbn. intros [= <-].
  apply pairwise_cosine_raise in E as [-> H]. auto.
Qed.

(** What a returning call went through. *)
Lemma recommend_for_user_inv self uid ty top_n recs :
  rank self uid ty top_n = Ok recs ->
  exists uidx user_vec scores rsn user_row boosts,
    index_of uid (ids (emb_users (embeddings self))) = Some uidx
    /\ vectors (emb_users (embeddings self)) !! uidx = Some user_vec
    /\ base self ty user_vec = Ok (scores, rsn)
    /\ find_user (ds_users (datasets self)) uid = Ok user_row
    /\ boost_loop (asset_rows (datasets self) ty)
         (lower (urow_city user_row)) (lower (urow_interests user_row))
         ((fun _ => 0) <$> scores) 0
         (ids (emb_of (embeddings self) ty)) = Ok boosts
    /\ make_recs uid ty rsn
         (ids (emb_of (embeddings self) ty))
         (zip_with Qplus scores boosts)
         (slice_to top_n (argsort (Qopp <$> zip_with Qplus scores boosts)))
       = Ok recs.
Proof.
  unfold recommend_for_user.
  destruct (index_of uid _) as [uidx|] eqn:E1; [|discriminate]. cbn.
  destruct (vectors _ !! uidx) as [user_vec|] eqn:E2; [|discriminate]. cbn.
  destruct (base self ty user_vec) as [[scores rsn]|e] eqn:E3; [|discriminate]. cbn.
  destruct (find_user _ uid) as [user_row|e] eqn:E4; [|discriminate]. cbn.
  destruct (boost_loop _ _ _ _ _ _) as [boosts|e] eqn:E5; [|discriminate]. cbn.
  intros H. exists uidx, user_vec, scores, rsn, user_row, boosts.
  repeat split; try reflexivity; assumption.
Qed.

(** Every returned entry is a candidate of the embedding space that has a
    row, and its score is its base score plus its boost. *)
Lemma recommend_for_user_entry self uid ty top_n recs p r :
  rank self uid ty top_n = Ok recs ->
  recs !! p = Some r ->
  exists uidx user_vec scores rsn user_row idx eid row b,
    index_of uid (ids (emb_users (embeddings self))) = Some uidx
    /\ vectors (emb_users (embeddings self)) !! uidx = Some user_vec
    /\ base self ty user_vec = Ok (scores, rsn)
    /\ find_user (ds_users (datasets self)) uid = Ok user_row
    /\ ids (emb_of (embeddings self) ty) !! idx = Some eid
    /\ find_asset (asset_rows (datasets self) ty) eid = Ok row
    /\ scores !! idx = Some b
    /\ r = {| user_id := uid; asset_id := eid;
              rec_type := drop_last (type_name ty);
              score := b + boost_of user_row row;
              reason := Some rsn |}.
Proof.
  intros Hrank Hp.
  apply recommend_for_user_inv in Hrank
    as (uidx & user_vec & scores & rsn & user_row & boosts & E1 & E2 & E3 & E4 & E5 & E6).
  apply make_recs_inv in E6 as [Hlen Hcells].
  destruct (lookup_lt_is_Some_2 (slice_to top_n
              (argsort (Qopp <$> zip_with Qplus scores boosts))) p)
    as [idx Hidx]; [rewrite <- Hlen; eapply lookup_lt_Some; eauto|].
  destruct (Hcells p idx Hidx) as (eid & s & Heid & Hs & Hr).
  apply boost_loop_inv in E5 as (Hblen & _ & Hbcells).
  destruct (Hbcells idx eid Heid) as (row & Hrow & Hcell).
  rewrite lookup_zip_with in Hs.
  destruct (scores !! idx) as [b|] eqn:Hb; [|discriminate].
  cbn in Hs. destruct (boosts !! idx) as [bo|] eqn:Hbo; [|discriminate].
  cbn in Hs. injection Hs as <-.
  specialize (Hcell 0). simpl in Hcell.
  rewrite list_lookup_fmap, Hb in Hcell. specialize (Hcell eq_refl).
  rewrite Hbo in Hcell. injection Hcell as ->.
  exists uidx, user_vec, scores, rsn, user_row, idx, eid, row, b.
  repeat split; try assumption. unfold boost_of. congruence.
Qed.

(** The returned list follows the order of [argsort] on the negated
    final scores. *)
Lemma recommend_for_user_sorted self uid ty top_n recs :
  argsort_ok argsort ->
  rank self uid ty top_n = Ok recs ->
  sorted_desc recs.
Proof.
  intros Hsort Hrank i j ri rj Hij Hi Hj.
  apply recommend_for_user_inv in Hrank
    as (uidx & user_vec & scores & rsn & user_row & boosts & _ & _ & _ & _ & _ & E6).
  set (final := zip_with Qplus scores boosts) in *.
  apply make_recs_inv in E6 as [Hlen Hcells].
  destruct (lookup_lt_is_Some_2 (slice_to top_n (argsort (Qopp <$> final))) i)
    as [ii Hii]; [rewrite <- Hlen; eapply lookup_lt_Some; eauto|].
  destruct (lookup_lt_is_Some_2 (slice_to top_n (argsort (Qopp <$> final))) j)
    as [jj Hjj]; [rewrite <- Hlen; eapply lookup_lt_Some; eauto|].
  destruct (Hcells i ii Hii) as (ei & si & _ & Hsi & Hri).
  destruct (Hcells j jj Hjj) as (ej & sj & _ & Hsj & Hrj).
  rewrite Hi in Hri. injection Hri as ->.
  rewrite Hj in Hrj. injection Hrj as ->. simpl.
  apply slice_to_lookup in Hii, Hjj.
  destruct (Hsort (Qopp <$> final)) as [_ Hord].
  assert (H : - si <= - sj).
  { apply (Hord i j (- si) (- sj) Hij).
    - rewrite Hii. cbn. rewrite list_lookup_fmap, Hsi. reflexivity.
    - rewrite Hjj. cbn. rewrite list_lookup_fmap, Hsj. reflexivity. }
  apply Qopp_le_compat in H. rewrite !Qopp_involutive in H. exact H.
Qed.

Lemma recommend_for_user_length self uid ty top_n recs :
  (0 <= top_n)%Z ->
  rank self uid ty top_n = Ok recs ->
  (Z.of_nat (length recs) <= top_n)%Z.
Proof.
  intros Hn Hrank.
  apply recommend_for_user_inv in Hrank
    as (uidx & user_vec & scores & rsn & user_row & boosts & _ & _ & _ & _ & _ & E6).
  apply make_recs_inv in E6 as [-> _]. apply slice_to_length, Hn.
Qed.

Lemma base_scores_length self ty user_vec scores rsn :
  length (vectors (emb_of (embeddings self) ty)) = length (ids (emb_of (embeddings self) ty)) ->
  base self ty user_vec = Ok (scores, rsn) ->
  length scores = length (ids (emb_of (embeddings self) ty)).
Proof.
  intros Hlen Hbase.
  apply base_scores_inv in Hbase as [(_ & -> & _)|(_ & -> & _)];
    rewrite length_fmap; congruence.
Qed.


(** A call on tables that agree with the embedding space returns. *)
Lemma recommend_for_user_ok fl e ds uid ty top_n :
  argsort_ok argsort ->
  well_formed e ds uid ty ->
  uid ∈ ids (emb_users e) ->
  exists recs, rank (init fl e ds) uid ty top_n = Ok recs.
Proof.
  intros Hsort [Huv [urow Hurow] Hav Hrows Hcmp] Hin.
  unfold recommend_for_user. simpl embeddings. simpl datasets.
  destruct (ArgsortFacts.index_of_elem uid _ Hin) as (uidx & Huidx & Hidx).
  rewrite Huidx. cbn.
  destruct (lookup_lt_is_Some_2 (vectors (emb_users e)) uidx) as [user_vec Hvec];
    [rewrite Huv; eapply lookup_lt_Some; eauto|].
  rewrite Hvec. cbn.
  assert (Hbase : exists scores rsn, base (init fl e ds) ty user_vec = Ok (scores, rsn)).
  { unfold base_scores. destruct (Nat.eqb_spec (nnz user_vec) 0) as [Hz|Hnz].
    - eexists _, _. reflexivity.
    - destruct (Hcmp uidx user_vec Huidx Hvec Hnz) as (Hy & Hx & Hw).
      simpl embeddings. rewrite pairwise_cosine_ok by assumption.
      eexists _, _. reflexivity. }
  destruct Hbase as (scores & rsn & Hbase).
  pose proof (base_scores_length (init fl e ds) ty user_vec scores rsn Hav Hbase) as Hlen.
  rewrite Hbase. cbn. simpl in Hlen.
  rewrite Hurow. cbn.
  destruct (boost_loop_ok (asset_rows ds ty) (lower (urow_city urow))
              (lower (urow_interests urow)) (ids (emb_of e ty))
              ((fun _ => 0) <$> scores) 0 Hrows) as [boosts Hb];
    [rewrite length_fmap; simpl; lia|].
  rewrite Hb. cbn.
  apply boost_loop_inv in Hb as (Hblen & _ & _). rewrite length_fmap in Hblen.
  apply make_recs_ok. intros idx Hidx'.
  assert (Hfinal : length (zip_with Qplus scores boosts) = length scores)
    by (rewrite length_zip_with; lia).
  assert (idx < length (zip_with Qplus scores boosts))%nat; [|lia].
  destruct (slice_to_prefix top_n (argsort (Qopp <$> zip_with Qplus scores boosts)))
    as [k Hk].
  rewrite Hk in Hidx'. apply subseteq_take, list_elem_of_In in Hidx'.
  destruct (Hsort (Qopp <$> zip_with Qplus scores boosts)) as [Hperm _].
  apply (Permutation_in _ Hperm), in_seq in Hidx'.
  rewrite length_fmap in Hidx'. lia.
Qed.

End Ranking.

(** * [_compute_popularity_score] *)

Module PopularityFacts.
Import PyStr Num Spec Popularity.
Local Open Scope Q_scope.

Section Rounding.
Variable fl : Q -> Q.

Lemma raw_scores_snoc (rows : list AssetRow) (r : AssetRow) :
  raw_scores fl (rows ++ [r]) = <[row_id r := raw_score fl r]> (raw_scores fl rows).
Proof. unfold raw_scores. rewrite foldl_app. reflexivity. Qed.

(** The raw score stored under an id is that of the last row with the id. *)
Lemma raw_scores_lookup (rows : list AssetRow) (k : string) :
  raw_scores fl rows !! k
  = raw_score fl <$> List.find (fun r => String.eqb (row_id r) k) (rev rows).
Proof.
  induction rows as [|r rows IH] using rev_ind; [reflexivity|].
  rewrite raw_scores_snoc, rev_app_distr. simpl.
  destruct (String.eqb_spec (row_id r) k) as [->|Hne].
  - apply lookup_insert_eq.
  - rewrite lookup_insert_ne by exact Hne. exact IH.
Qed.

Lemma raw_scores_empty (rows : list AssetRow) :
  raw_scores fl rows = ∅ -> rows = [].
Proof.
  destruct rows as [|r rows] using rev_ind; [reflexivity|].
  rewrite raw_scores_snoc. intros H. exfalso.
  exact (insert_non_empty (raw_scores fl rows) (row_id r) (raw_score fl r) H).
Qed.

(** Every stored raw score is the raw score of a row, hence a rounded
    number. *)
Lemma raw_scores_value (rows : list AssetRow) (k : string) (v : Q) :
  raw_scores fl rows !! k = Some v ->
  exists row, row ∈ rows /\ row_id row = k /\ v = raw_score fl row.
Proof.
  rewrite raw_scores_lookup. intros H.
  destruct (List.find _ (rev rows)) as [row|] eqn:E; [|discriminate].
  injection H as <-. apply find_some in E as [Hin Hid].
  exists row. split; [|split; [apply String.eqb_eq, Hid | reflexivity]].
  apply list_elem_of_In, in_rev, Hin.
Qed.

(** Rounding respects the equality of rationals. *)
Lemma fl_proper (x y : Q) : rounding_ok fl -> x == y -> fl x == fl y.
Proof.
  intros Hfl Hxy. apply Qle_antisym; apply (fl_mono fl Hfl); rewrite Hxy; apply Qle_refl.
Qed.

Lemma fl_nonneg (x : Q) : rounding_ok fl -> 0 <= x -> 0 <= fl x.
Proof.
  intros Hfl Hx. rewrite <- (fl_zero fl Hfl). apply (fl_mono fl Hfl), Hx.
Qed.

Lemma fl_ge_one (x : Q) : rounding_ok fl -> 1 <= x -> 1 <= fl x.
Proof.
  intros Hfl Hx. rewrite <- (fl_one fl Hfl). apply (fl_mono fl Hfl), Hx.
Qed.

Lemma fl_le_one (x : Q) : rounding_ok fl -> x <= 1 -> fl x <= 1.
Proof.
  intros Hfl Hx. rewrite <- (fl_one fl Hfl). apply (fl_mono fl Hfl), Hx.
Qed.

(** A raw score is at least 1. *)
Lemma raw_score_at_least_one (row : AssetRow) :
  rounding_ok fl -> 1 <= raw_score fl row.
Proof.
  intros Hfl. unfold raw_score. apply fl_ge_one; [exact Hfl|].
  assert (H1 : 1 <= fl (inject_Z (Z.max 1 (tag_count (row_tags row))))).
  { apply fl_ge_one; [exact Hfl|]. unfold Qle. simpl. lia. }
  assert (H2 : 0 <= fl (fl (inject_Z (len (row_description row))) / 1000)).
  { apply fl_nonneg; [exact Hfl|].
    apply Qle_shift_div_l; [reflexivity|]. rewrite Qmult_0_l.
    apply fl_nonneg; [exact Hfl|]. unfold Qle, len. simpl. lia. }
  rewrite <- (Qplus_0_r 1). apply Qplus_le_compat; assumption.
Qed.

Lemma Qmin_cases (x y : Q) : (Qmin x y = x /\ x <= y) \/ (Qmin x y = y /\ y <= x).
Proof.
  unfold Qmin, GenericMinMax.gmin.
  destruct (x ?= y) eqn:E.
  - left. split; [reflexivity|]. apply Qeq_alt in E. rewrite E. apply Qle_refl.
  - left. split; [reflexivity|]. apply Qlt_alt in E. apply Qlt_le_weak, E.
  - right. split; [reflexivity|]. apply Qgt_alt in E. apply Qlt_le_weak, E.
Qed.

Lemma Qmax_cases (x y : Q) : (Qmax x y = y /\ x <= y) \/ (Qmax x y = x /\ y <= x).
Proof.
  unfold Qmax, GenericMinMax.gmax.
  destruct (x ?= y) eqn:E.
  - right. split; [reflexivity|]. apply Qeq_alt in E. rewrite E. apply Qle_refl.
  - left. split; [reflexivity|]. apply Qlt_alt in E. apply Qlt_le_weak, E.
  - right. split; [reflexivity|]. apply Qgt_alt in E. apply Qlt_le_weak, E.
Qed.

Lemma array_min_spec (vs : list Q) :
  forall v, array_min v vs ∈ v :: vs /\ forall x, x ∈ v :: vs -> array_min v vs <= x.
Proof.
  unfold array_min. induction vs as [|w vs IH]; intros v; simpl.
  - split; [left|]. intros x Hx. apply list_elem_of_singleton in Hx as ->. apply Qle_refl.
  - destruct (IH (Qmin v w)) as [Hin Hle]. split.
    + apply elem_of_cons in Hin as [Heq|Hin].
      * rewrite Heq. destruct (Qmin_cases v w) as [[-> _]|[-> _]];
          [left | right; left].
      * right. right. exact Hin.
    + intros x Hx.
      assert (Hm : foldl Qmin (Qmin v w) vs <= Qmin v w) by (apply Hle; left).
      apply elem_of_cons in Hx as [->|Hx].
      * eapply Qle_trans; [exact Hm | apply Q.le_min_l].
      * apply elem_of_cons in Hx as [->|Hx].
        -- eapply Qle_trans; [exact Hm | apply Q.le_min_r].
        -- apply Hle. right. exact Hx.
Qed.

Lemma array_max_spec (vs : list Q) :
  forall v, array_max v vs ∈ v :: vs /\ forall x, x ∈ v :: vs -> x <= array_max v vs.
Proof.
  unfold array_max. induction vs as [|w vs IH]; intros v; simpl.
  - split; [left|]. intros x Hx. apply list_elem_of_singleton in Hx as ->. apply Qle_refl.
  - destruct (IH (Qmax v w)) as [Hin Hle]. split.
    + apply elem_of_cons in Hin as [Heq|Hin].
      * rewrite Heq. destruct (Qmax_cases v w) as [[-> _]|[-> _]];
          [right; left | left].
      * right. right. exact Hin.
    + intros x Hx.
      assert (Hm : Qmax v w <= foldl Qmax (Qmax v w) vs) by (apply Hle; left).
      apply elem_of_cons in Hx as [->|Hx].
      * eapply Qle_trans; [apply Q.le_max_l | exact Hm].
      * apply elem_of_cons in Hx as [->|Hx].
        -- eapply Qle_trans; [apply Q.le_max_r | exact Hm].
        -- apply Hle. right. exact Hx.
Qed.

Lemma elem_of_values (scores : gmap string Q) (v : Q) :
  v ∈ (map_to_list scores).*2 <-> exists k, scores !! k = Some v.
Proof.
  rewrite list_elem_of_fmap. split.
  - intros ([k v'] & -> & Hin). exists k. apply elem_of_map_to_list, Hin.
  - intros [k Hk]. exists (k, v). split; [reflexivity|]. apply elem_of_map_to_list, Hk.
Qed.

(** The rescaled value of a number between two different rounded
    numbers lies in [0,1]. *)
Lemma rescale_bounds (x y v : Q) :
  rounding_ok fl ->
  fl x < fl y -> fl x <= v -> v <= fl y ->
  0 <= rescale fl (fl x) (fl y) v /\ rescale fl (fl x) (fl y) v <= 1.
Proof.
  intros Hfl Hlt Hlo Hhi. unfold rescale.
  assert (Hpos : 0 < fl (fl y - fl x)) by (apply (fl_gap fl Hfl), Hlt).
  assert (Hn0 : 0 <= fl (v - fl x)).
  { apply fl_nonneg; [exact Hfl|]. apply Qle_minus_iff in Hlo. exact Hlo. }
  assert (Hnd : fl (v - fl x) <= fl (fl y - fl x)).
  { apply (fl_mono fl Hfl). apply Qplus_le_l. exact Hhi. }
  split.
  - apply fl_nonneg; [exact Hfl|].
    apply Qle_shift_div_l; [exact Hpos|]. rewrite Qmult_0_l. exact Hn0.
  - apply fl_le_one; [exact Hfl|].
    apply Qle_shift_div_r; [exact Hpos|]. rewrite Qmult_1_l. exact Hnd.
Qed.

(** Rescaling keeps the order. *)
Lemma rescale_le (x y v1 v2 : Q) :
  rounding_ok fl ->
  fl x < fl y -> v1 <= v2 ->
  rescale fl (fl x) (fl y) v1 <= rescale fl (fl x) (fl y) v2.
Proof.
  intros Hfl Hlt Hle. unfold rescale.
  assert (Hpos : 0 < fl (fl y - fl x)) by (apply (fl_gap fl Hfl), Hlt).
  apply (fl_mono fl Hfl).
  apply Qle_shift_div_l; [exact Hpos|].
  unfold Qdiv. rewrite <- Qmult_assoc, (Qmult_comm (/ _)), Qmult_inv_r, Qmult_1_r.
  - apply (fl_mono fl Hfl). apply Qplus_le_l. exact Hle.
  - intros H0. rewrite H0 in Hpos. exact (Qlt_irrefl 0 Hpos).
Qed.

(** The least value is rescaled to 0 and the greatest to 1. *)
Lemma rescale_endpoints (x y : Q) :
  rounding_ok fl ->
  fl x < fl y ->
  rescale fl (fl x) (fl y) (fl x) == 0 /\ rescale fl (fl x) (fl y) (fl y) == 1.
Proof.
  intros Hfl Hlt. unfold rescale.
  assert (Hpos : 0 < fl (fl y - fl x)) by (apply (fl_gap fl Hfl), Hlt).
  assert (Hd : ~ fl (fl y - fl x) == 0).
  { intros H0. rewrite H0 in Hpos. exact (Qlt_irrefl 0 Hpos). }
  split.
  - assert (H0 : fl (fl x - fl x) == 0).
    { transitivity (fl 0); [|apply (fl_zero fl Hfl)].
      apply fl_proper; [exact Hfl|]. ring. }
    transitivity (fl 0); [|apply (fl_zero fl Hfl)].
    apply fl_proper; [exact Hfl|]. rewrite H0. field. exact Hd.
  - transitivity (fl 1); [|apply (fl_one fl Hfl)].
    apply fl_proper; [exact Hfl|]. field. exact Hd.
Qed.

End Rounding.

Lemma exact_ok : rounding_ok exact.
Proof.
  split; unfold exact.
  - intros x y H. exact H.
  - reflexivity.
  - reflexivity.
  - intros x y H. apply Qlt_minus_iff in H. exact H.
Qed.

(** The least and the greatest value of a non-empty dict of raw scores
    are raw scores of rows. *)
Lemma min_max_are_raw (fl : Q -> Q) (rows : list AssetRow) (v : Q) (vs : list Q) :
  (map_to_list (raw_scores fl rows)).*2 = v :: vs ->
  (exists rmin, array_min v vs = raw_score fl rmin)
  /\ (exists rmax, array_max v vs = raw_score fl rmax)
  /\ is_min (array_min v vs) (raw_scores fl rows)
  /\ is_max (array_max v vs) (raw_scores fl rows).
Proof.
  intros E.
  destruct (array_min_spec vs v) as [Hmin_in Hmin_le].
  destruct (array_max_spec vs v) as [Hmax_in Hmax_le].
  rewrite <- E in Hmin_in, Hmin_le, Hmax_in, Hmax_le.
  apply elem_of_values in Hmin_in as Hkmin. apply elem_of_values in Hmax_in as Hkmax.
  destruct Hkmin as [kmin Hkmin]. destruct Hkmax as [kmax Hkmax].
  destruct (raw_scores_value fl rows kmin _ Hkmin) as (rmin & _ & _ & Hrmin).
  destruct (raw_scores_value fl rows kmax _ Hkmax) as (rmax & _ & _ & Hrmax).
  split; [exists rmin; exact Hrmin|]. split; [exists rmax; exact Hrmax|].
  split; (split; [eexists; eassumption|]); intros k x Hk.
  - apply Hmin_le, elem_of_values. eauto.
  - apply Hmax_le, elem_of_values. eauto.
Qed.

End PopularityFacts.

(** * [ActiveLearner]: aggregation and adjustment *)

Module ActiveLearnerFacts.
Import Num Spec ActiveLearner.
Local Open Scope Q_scope.

Lemma fb_fold_lookup (fb : list entry) :
  forall (m : gmap key Z) (k : key),
    foldl (fun fb_map '(u, atype, aid, f) =>
             <[(u, atype, aid) := (default 0 (fb_map !! (u, atype, aid)) + f)%Z]> fb_map)
          m fb !! k
    = match signals k fb with
      | [] => m !! k
      | _ => Some (default 0 (m !! k) + signal_sum k fb)%Z
      end.
Proof.
  unfold signal_sum.
  induction fb as [|[[[u atype] aid] f] rest IH]; intros m k; [reflexivity|].
  simpl foldl. rewrite IH. simpl signals.
  destruct (decide ((u, atype, aid) = k)) as [->|Hne]; simpl.
  - rewrite lookup_insert_eq. simpl.
    destruct (signals k rest); simpl; f_equal;
      rewrite ?Z.add_0_r, ?Z.add_assoc; reflexivity.
  - rewrite lookup_insert_ne by exact Hne. reflexivity.
Qed.

(** The dict built from the feedback holds, for each key that occurs, the
    sum of its signals. *)
Lemma build_fb_map_lookup (fb : list entry) (k : key) :
  build_fb_map fb !! k
  = match signals k fb with
    | [] => None
    | _ => Some (signal_sum k fb)
    end.
Proof.
  unfold build_fb_map. rewrite fb_fold_lookup, lookup_empty. simpl.
  destruct (signals k fb); reflexivity.
Qed.

Lemma snoc_insert_last (h : store) (v w : Rec) :
  <[length h := w]> (h ++ [v]) = h ++ [w].
Proof.
  replace (length h) with (length h + 0)%nat at 1 by lia.
  rewrite insert_app_r. reflexivity.
Qed.

Lemma copy_spec (h : store) (r : ref) (v : Rec) :
  h !! r = Some v -> copy h r = Some (h ++ [v], length h).
Proof. intros H. unfold copy. rewrite H. reflexivity. Qed.

Lemma set_item_last (h : store) (v : Rec) (f : Rec -> Rec) :
  set_item (h ++ [v]) (length h) f = Some (h ++ [f v]).
Proof.
  unfold set_item. rewrite list_lookup_middle by reflexivity.
  simpl. rewrite snoc_insert_last. reflexivity.
Qed.

(** The body of the loop leaves the store as it is, or appends one cell
    holding the adjusted copy. *)
Lemma adjust_one_spec (self : t) (fb_map : gmap key Z) (h : store) (rec : ref) (v : Rec) :
  h !! rec = Some v ->
  adjust_one self fb_map h rec
  = match fb_map !! key_of v with
    | Some _ => Some (h ++ [adjusted_value self fb_map v], length h)
    | None => Some (h, rec)
    end.
Proof.
  intros Hv. unfold adjust_one, adjusted_value.
  rewrite Hv. simpl.
  destruct (fb_map !! key_of v) as [f|]; [|reflexivity].
  destruct (0 <? f)%Z; rewrite (copy_spec h rec v Hv); simpl;
    rewrite set_item_last; simpl; rewrite set_item_last; reflexivity.
Qed.

(** The loop, started on a store [h] that extends the caller's [h0]. *)
Lemma adjust_loop_spec (self : t) (fb_map : gmap key Z) (h0 : store) (recs : list ref) :
  forall h : store,
    h0 `prefix_of` h ->
    (forall r, r ∈ recs -> (r < length h0)%nat) ->
    exists news out,
      adjust_loop self fb_map h recs = Some (h ++ news, out)
      /\ length out = length recs
      /\ forall i r v, recs !! i = Some r -> h0 !! r = Some v ->
           exists r', out !! i = Some r'
                      /\ (h ++ news) !! r' = Some (adjusted_value self fb_map v)
                      /\ (fb_map !! key_of v = None -> r' = r)
                      /\ (is_Some (fb_map !! key_of v) -> (length h <= r')%nat).
Proof.
  induction recs as [|r0 rest IH]; intros h Hpre Hvalid.
  - exists [], []. simpl. rewrite app_nil_r. split; [reflexivity|].
    split; [reflexivity|]. intros i r v Hi. rewrite lookup_nil in Hi. discriminate.
  - destruct (lookup_lt_is_Some_2 h0 r0) as [v0 Hv0]; [apply Hvalid; left|].
    assert (Hv0' : h !! r0 = Some v0) by (eapply prefix_lookup_Some; eauto).
    simpl. rewrite (adjust_one_spec self fb_map h r0 v0 Hv0').
    destruct (fb_map !! key_of v0) as [f|] eqn:Hf; cbn.
    + destruct (IH (h ++ [adjusted_value self fb_map v0])) as (news & out & -> & Hlen & Hcells).
      { etransitivity; [exact Hpre | apply prefix_app_r; reflexivity]. }
      { intros r Hr. apply Hvalid. right. exact Hr. }
      cbn. exists (adjusted_value self fb_map v0 :: news), (length h :: out).
      rewrite <- app_assoc. simpl. split; [reflexivity|].
      split; [congruence|].
      intros [|i] r v Hi Hv; simpl in Hi.
      * injection Hi as <-. rewrite Hv0 in Hv. injection Hv as <-.
        exists (length h). split; [reflexivity|].
        split; [apply list_lookup_middle; reflexivity|].
        split; [intros Hn; rewrite Hf in Hn; discriminate | intros _; lia].
      * destruct (Hcells i r v Hi Hv) as (r' & Hr' & Hval & Hsame & Hfresh).
        exists r'. split; [exact Hr'|]. rewrite <- app_assoc in Hval. simpl in Hval.
        split; [exact Hval|]. split; [exact Hsame|].
        intros Hs. specialize (Hfresh Hs). rewrite length_app in Hfresh. simpl in Hfresh. lia.
    + destruct (IH h Hpre) as (news & out & -> & Hlen & Hcells).
      { intros r Hr. apply Hvalid. right. exact Hr. }
      cbn. exists news, (r0 :: out). split; [reflexivity|].
      split; [simpl; congruence|].
      intros [|i] r v Hi Hv; simpl in Hi.
      * injection Hi as <-. rewrite Hv0 in Hv. injection Hv as <-.
        exists r0. split; [reflexivity|].
        split.
        { unfold adjusted_value. rewrite Hf. apply lookup_app_l_Some, Hv0'. }
        split; [reflexivity | intros [x Hx]; rewrite Hf in Hx; discriminate].
      * apply Hcells; assumption.
Qed.

End ActiveLearnerFacts.

(** * Statements about the boosts *)

Module BoostClaims.
Import PyStr Num Boost Spec PyStrFacts BoostFacts Recommender.
Local Open Scope Q_scope.

(** Claim C9.  For a candidate whose tags attribute is the empty string the
    tag rule holds for every interests string, because [''.split(';')] is
    [['']] and the empty token is found in every string; so the pass of the
    loop over that candidate always ends by adding 0.03 to its cell,
    whatever the user's city and interests are. *)
Theorem empty_tags_always_boosted
    (rows : list AssetRow) (user_city user_interests : string)
    (boosts : list Q) (i : nat) (eid : string) (row : AssetRow) (x : Q) :
  find_asset rows eid = Ok row ->
  row_tags row = "" ->
  boosts !! i = Some x ->
  split_on ";" (lower (row_tags row)) = [""]
  /\ contains (strip "") user_interests = true
  /\ tag_rule user_interests (lower (row_tags row)) = true
  /\ boost_candidate rows user_city user_interests boosts i eid
     = Ok (<[i := bump_city_category user_city user_interests row x + 0.03]> boosts).
Proof.
  intros Hrow Htags Hx.
  assert (Htag : tag_rule user_interests (lower (row_tags row)) = true)
    by (rewrite Htags; apply tag_rule_empty).
  split; [rewrite Htags; reflexivity|].
  split; [apply contains_empty|].
  split; [exact Htag|].
  rewrite (boost_candidate_ok rows user_city user_interests boosts i eid row x Hrow Hx).
  unfold bump. rewrite Htag. reflexivity.
Qed.

Lemma empty_tags_always_boosted_witness :
  boost_candidate [Sample.gallery] "berlin" "ai and tech" [0] 0 "e2"
  = Ok [0 + 0.03].
Proof.
  apply (empty_tags_always_boosted [Sample.gallery] "berlin" "ai and tech" [0] 0 "e2"
           Sample.gallery 0); reflexivity.
Defined.

(** Claim C10.  A user whose city attribute is the empty string gets no
    city boost for any candidate, also for one whose city is empty too: the
    city rule is false, and the pass of the loop over a candidate applies
    the category and tag rules only. *)
Theorem empty_user_city_never_boosted
    (user : UserRow) (rows : list AssetRow) (user_interests : string)
    (boosts : list Q) (i : nat) (eid : string) (row : AssetRow) (x : Q) :
  urow_city user = "" ->
  find_asset rows eid = Ok row ->
  boosts !! i = Some x ->
  city_rule (lower (urow_city user)) (lower (row_city row)) = false
  /\ boost_candidate rows (lower (urow_city user)) user_interests boosts i eid
     = Ok (<[i := bump_category_tag user_interests row x]> boosts).
Proof.
  intros Hcity Hrow Hx.
  assert (Hrule : city_rule (lower (urow_city user)) (lower (row_city row)) = false)
    by (rewrite Hcity; reflexivity).
  split; [exact Hrule|].
  rewrite (boost_candidate_ok rows _ user_interests boosts i eid row x Hrow Hx).
  unfold bump, bump_city_category, bump_category_tag. rewrite Hrule. reflexivity.
Qed.

Lemma empty_user_city_never_boosted_witness :
  row_city Sample.nowhere = urow_city Sample.bob
  /\ city_rule (lower (urow_city Sample.bob)) (lower (row_city Sample.nowhere)) = false
  /\ boost_candidate [Sample.nowhere] (lower (urow_city Sample.bob)) "tech ai" [0] 0 "e3"
     = Ok [0 + 0.05 + 0.03].
Proof.
  split; [reflexivity|].
  apply (empty_user_city_never_boosted Sample.bob [Sample.nowhere] "tech ai" [0] 0 "e3"
           Sample.nowhere 0); reflexivity.
Defined.

(** The three rules in words: the user's city is not empty and equals the
    candidate's; some whitespace token of the category occurs in the
    interests; some trimmed ';'-token of the tags occurs in the interests. *)
Lemma rules_in_words (user_city user_interests city cat tags : string) :
  (city_rule user_city city = true <-> user_city <> "" /\ user_city = city)
  /\ (category_rule user_interests cat = true
      <-> exists k, k ∈ split_ws cat /\ substring_of k user_interests)
  /\ (tag_rule user_interests tags = true
      <-> exists t, t ∈ split_on ";" tags /\ substring_of (strip t) user_interests).
Proof.
  split; [apply city_rule_spec|].
  split; [apply category_rule_spec | apply tag_rule_spec].
Qed.

(** The boost is the sum of the constants of the rules that hold. *)
Lemma bump_sum (user_city user_interests : string) (row : AssetRow) (x : Q) :
  bump user_city user_interests row x
  == x + (indicator (city_rule user_city (lower (row_city row))) 0.10
          + indicator (category_rule user_interests (lower (row_category row))) 0.05
          + indicator (tag_rule user_interests (lower (row_tags row))) 0.03).
Proof.
  unfold bump, bump_city_category, indicator.
  destruct (city_rule _ _), (category_rule _ _), (tag_rule _ _); ring.
Qed.

End BoostClaims.

(** * Statements about [recommend_for_user] *)

Module PopularityKeys.
Import Num Spec Popularity PopularityFacts Recommender.

Lemma find_asset_raw (fl : Q -> Q) (rows : list AssetRow) (eid : string)
    (row : AssetRow) :
  find_asset rows eid = Ok row -> is_Some (raw_scores fl rows !! eid).
Proof.
  unfold find_asset. intros H.
  destruct (List.find _ rows) as [r|] eqn:E; [|discriminate].
  apply find_some in E as [Hin Hid].
  rewrite raw_scores_lookup.
  destruct (List.find _ (rev rows)) as [r'|] eqn:E'; [eexists; reflexivity|].
  exfalso. assert (Hno := find_none _ _ E' r).
  simpl in Hno, Hid. rewrite Hid in Hno.
  assert (true = false); [|discriminate].
  apply Hno, in_rev. rewrite rev_involutive. exact Hin.
Qed.

Lemma popularity_keys (fl : Q -> Q) (rows : list AssetRow) (k : string) :
  is_Some (raw_scores fl rows !! k) ->
  is_Some (_compute_popularity_score fl rows !! k).
Proof.
  intros [v Hv]. unfold _compute_popularity_score.
  destruct ((map_to_list (raw_scores fl rows)).*2) as [|w ws] eqn:E.
  - exfalso. assert (Hin : v ∈ (map_to_list (raw_scores fl rows)).*2)
      by (apply elem_of_values; eauto).
    rewrite E in Hin. inversion Hin.
  - destruct (Qltb _ _); [|eauto].
    rewrite lookup_fmap, Hv. eexists. reflexivity.
Qed.

End PopularityKeys.

Section RankingClaims.
Import PyStr Num Boost Spec PyStrFacts BoostFacts Recommender RankingFacts.
Import Popularity PopularityKeys BoostClaims.
Local Open Scope Q_scope.

Variable cosine_similarity : vec -> vec -> Q.
Variable argsort : list Q -> list nat.

Local Abbreviation rank := (recommend_for_user cosine_similarity argsort).
Local Abbreviation base := (base_scores cosine_similarity).

(** Claim C5 (amended).  Every returned entry is a candidate whose score is
    its base score, from whichever branch computed it, plus its boost; the
    boost is the sum of the constants of the rules that hold on the
    lower-cased attributes, 0.10 for a non-empty user city equal to the
    candidate's, 0.05 for a category token found in the interests, 0.03 for
    a trimmed tag token found in the interests; when all three hold the
    score is base + 0.10 + 0.05 + 0.03 in exact arithmetic. *)
Theorem final_score_is_base_plus_boost
    (self : Recommender.t) (uid : string) (ty : asset_type) (top_n : Z)
    (recs : list Rec) (r : Rec) :
  rank self uid ty top_n = Ok recs ->
  r ∈ recs ->
  exists uidx user_vec user_row idx row scores rsn b,
    index_of uid (ids (emb_users (embeddings self))) = Some uidx
    /\ vectors (emb_users (embeddings self)) !! uidx = Some user_vec
    /\ find_user (ds_users (datasets self)) uid = Ok user_row
    /\ ids (emb_of (embeddings self) ty) !! idx = Some (asset_id r)
    /\ find_asset (asset_rows (datasets self) ty) (asset_id r) = Ok row
    /\ base self ty user_vec = Ok (scores, rsn)
    /\ scores !! idx = Some b
    /\ score r = b + boost_of user_row row
    /\ boost_of user_row row
       == indicator (city_rule (lower (urow_city user_row)) (lower (row_city row))) 0.10
          + indicator (category_rule (lower (urow_interests user_row))
                         (lower (row_category row))) 0.05
          + indicator (tag_rule (lower (urow_interests user_row))
                         (lower (row_tags row))) 0.03
    /\ (city_rule (lower (urow_city user_row)) (lower (row_city row)) = true ->
        category_rule (lower (urow_interests user_row)) (lower (row_category row)) = true ->
        tag_rule (lower (urow_interests user_row)) (lower (row_tags row)) = true ->
        score r == b + 0.10 + 0.05 + 0.03).
Proof.
  intros Hrank Hin.
  apply list_elem_of_lookup_1 in Hin as [p Hp].
  destruct (recommend_for_user_entry _ _ self uid ty top_n recs p r Hrank Hp)
    as (uidx & user_vec & scores & rsn & user_row & idx & eid & row & b
        & E1 & E2 & E3 & E4 & E5 & E6 & E7 & ->).
  exists uidx, user_vec, user_row, idx, row, scores, rsn, b. simpl.
  repeat (split; [assumption|]).
  split; [reflexivity|].
  assert (Hsum := bump_sum (lower (urow_city user_row))
                    (lower (urow_interests user_row)) row 0).
  split.
  - unfold boost_of. rewrite Hsum. ring.
  - intros H1 H2 H3. unfold boost_of. rewrite Hsum, H1, H2, H3.
    unfold indicator. ring.
Qed.





(** On a row without a stored zero, as the TF-IDF transformer builds its
    rows, the zero vector is the row without stored entries. *)
Lemma zero_canonical_nnz (v : vec) :
  canonical v -> is_zero_vector v -> nnz v = 0%nat.
Proof.
  intros Hc Hz. destruct v as [|e v]; [reflexivity|].
  inversion Hc; inversion Hz; subst. contradiction.
Qed.

(** A user with a stored entry and a matrix that cannot be compared with
    the user's row: the call ends in [ValueError]. *)
Lemma recommend_for_user_value_error self uid ty top_n uidx user_vec :
  index_of uid (ids (emb_users (embeddings self))) = Some uidx ->
  vectors (emb_users (embeddings self)) !! uidx = Some user_vec ->
  nnz user_vec <> 0%nat ->
  ~ comparable (embeddings self) ty ->
  rank self uid ty top_n = Raise ValueError.
Proof.
  intros Hidx Hvec Hnz Hcmp. unfold recommend_for_user.
  rewrite Hidx. cbn. rewrite Hvec. cbn.
  destruct (base self ty user_vec) as [[scores rsn]|err] eqn:E.
  - exfalso. apply Hcmp.
    apply base_scores_inv in E as [(Hz & _)|(_ & _ & _ & Hy & Hx & Hw)];
      [contradiction|].
    repeat split; assumption.
  - apply base_scores_raise in E as [-> _]. reflexivity.
Qed.


End RankingClaims.

(** * The ranking on the sample tables *)

Module RankingExamples.
Import PyStr Num Boost Spec Recommender ArgsortFacts.
Local Open Scope Q_scope.




Lemma final_score_is_base_plus_boost_witness :
  exists r rest b,
    Sample.ada_events = Ok (r :: rest)
    /\ asset_id r = "e1"
    /\ score r == b + 0.10 + 0.05 + 0.03.
Proof.
  pose (r := {| user_id := "u1"; asset_id := "e1"; rec_type := "event";
                score := 1.18000; reason := Some "text-based similarity" |}).
  destruct (final_score_is_base_plus_boost Sample.dot insertion_argsort
              Sample.engine "u1" events 10
              (match Sample.ada_events with Ok l => l | Raise _ => [] end) r)
    as (uidx & user_vec & user_row & idx & row & scores & rsn & b
        & _ & _ & Huser & _ & Hrow & _ & _ & _ & _ & Hall);
    [vm_compute; reflexivity | left |].
  vm_compute in Huser. injection Huser as <-.
  vm_compute in Hrow. injection Hrow as <-.
  exists r, (match Sample.ada_events with Ok (_ :: l) => l | _ => [] end), b.
  split; [reflexivity|]. split; [reflexivity|].
  apply Hall; reflexivity.
Defined.

(** Claim C5, as stated, fails.  Bob and the event "e3" both have the empty
    city, which is an exact match, a category token and a tag of the event
    occur in Bob's interests, and the score is the base score plus 0.08.
    Ada's interests hold "AI" and the event "e1" has the tag "ai", which
    does not occur in them as a substring, and the score includes the
    0.03 of the tag rule. *)
Lemma final_score_not_worded_boost :
  (exists r1 r2 r3 b,
     Sample.bob_events = Ok [r1; r2; r3]
     /\ asset_id r2 = "e3"
     /\ popularity Sample.engine events !! "e3" = Some b
     /\ worded_boost Sample.bob Sample.nowhere == 0.10 + 0.05 + 0.03
     /\ score r2 == b + 0.05 + 0.03
     /\ ~ score r2 == b + worded_boost Sample.bob Sample.nowhere)
  /\ (exists r1 r2 r3,
        Sample.ada_events = Ok [r1; r2; r3]
        /\ asset_id r1 = "e1"
        /\ worded_boost Sample.ada Sample.meetup == 0.10 + 0.05
        /\ score r1 == Sample.dot [(0%nat, 1)] [(0%nat, 1)] + 0.10 + 0.05 + 0.03
        /\ ~ score r1 == Sample.dot [(0%nat, 1)] [(0%nat, 1)]
                         + worded_boost Sample.ada Sample.meetup).
Proof.
  split.
  - do 4 eexists. split; [reflexivity|].
    split; [reflexivity|]. split; [vm_compute; reflexivity|].
    split; [reflexivity|]. split; [reflexivity|].
    intros H. vm_compute in H. discriminate H.
  - do 3 eexists. split; [reflexivity|].
    split; [reflexivity|]. split; [reflexivity|]. split; [reflexivity|].
    intros H. vm_compute in H. discriminate H.
Qed.



Lemma two_indices (l : list nat) :
  Permutation l [0; 1]%nat -> l = [0; 1]%nat \/ l = [1; 0]%nat.
Proof.
  intros H. symmetry in H.
  apply Permutation_length_2_inv in H as [->| ->]; auto.
Qed.

(** No [argsort] that meets [argsort_ok] orders ties by asset id: whichever
    of the two indices it lists first for two equal keys, one of the two
    listings of the twin events is returned with "b" before "a". *)
Lemma no_argsort_orders_ties_by_id
    (cosine_similarity : vec -> vec -> Q) (argsort : list Q -> list nat) :
  argsort_ok argsort ->
  exists e ds recs,
    recommend_for_user cosine_similarity argsort (init exact e ds) "u2" events 10 = Ok recs
    /\ ~ ties_by_asset_id recs.
Proof.
  intros Hok.
  destruct (Hok [-1000 # 1000; -1000 # 1000]) as [Hperm _].
  apply two_indices in Hperm as [Ho|Ho].
  - exists Sample.twin_space, Sample.twin_tables.
    exists [Sample.twin_rec "b"; Sample.twin_rec "a"]. split.
    + unfold recommend_for_user. vm_compute. rewrite Ho. reflexivity.
    + intros H.
      specialize (H 0%nat 1%nat _ _ ltac:(lia) eq_refl eq_refl ltac:(reflexivity)).
      vm_compute in H. discriminate H.
  - exists Sample.twin_space_ab, Sample.twin_tables_ab.
    exists [Sample.twin_rec "b"; Sample.twin_rec "a"]. split.
    + unfold recommend_for_user. vm_compute. rewrite Ho. reflexivity.
    + intros H.
      specialize (H 0%nat 1%nat _ _ ltac:(lia) eq_refl eq_refl ltac:(reflexivity)).
      vm_compute in H. discriminate H.
Qed.

(** In binary64 the score of a candidate of base score 1.0 that meets the
    three rules is 1.18, and [1.0 + 0.10 + 0.05 + 0.03] read from left to
    right is 1.1800000000000002. *)
Lemma binary64_sum_order :
  PrimFloat.eqb (Binary64.final_score Binary64.one) Binary64.one_eighteen = true
  /\ PrimFloat.eqb (Binary64.final_score Binary64.one)
                   (Binary64.left_to_right Binary64.one) = false.
Proof. split; vm_compute; reflexivity. Qed.

End RankingExamples.

(** * Statements about the popularity score *)

Module PopularityClaims.
Import PyStr Num Spec Popularity PopularityFacts ArgsortFacts.
Local Open Scope Q_scope.

(** Claim C6 (amended).  The raw score of a row is
    max(1, number of ';'-delimited tag tokens that are not empty after
    trimming) + description length / 1000, computed in floats: the two
    integers are converted, the quotient and the sum are rounded; it is
    stored under the row's id.  An empty pool gives the empty dict.
    Otherwise, with vmin and vmax the least and greatest computed raw
    score: if vmin < vmax every value is rescaled to
    (v - vmin) / (vmax - vmin), each operation rounded, which lies in
    [0,1]; if not (all computed raw scores are equal, as in a pool of one
    asset) the raw scores are returned as they are. *)
Theorem popularity_min_max_policy (fl : Q -> Q) (rows : list AssetRow) :
  rounding_ok fl ->
  (forall row,
     raw_score fl row
     = fl (fl (inject_Z (Z.max 1 (Z.of_nat (length (List.filter
                                                    (fun t => truthy (strip t))
                                                    (split_on ";" (row_tags row)))))))
           + fl (fl (inject_Z (Z.of_nat (String.length (row_description row)))) / 1000)))
  /\ (forall k, raw_scores fl rows !! k
                = raw_score fl <$> List.find (fun r => String.eqb (row_id r) k) (rev rows))
  /\ (rows = [] -> _compute_popularity_score fl rows = ∅)
  /\ (rows <> [] ->
      exists vmin vmax,
        is_min vmin (raw_scores fl rows)
        /\ is_max vmax (raw_scores fl rows)
        /\ (vmin < vmax ->
            _compute_popularity_score fl rows
            = (fun v => fl (fl (v - vmin) / fl (vmax - vmin))) <$> raw_scores fl rows
            /\ forall k p, _compute_popularity_score fl rows !! k = Some p ->
                           0 <= p /\ p <= 1)
        /\ (~ vmin < vmax -> _compute_popularity_score fl rows = raw_scores fl rows)).
Proof.
  intros Hfl.
  split; [reflexivity|]. split; [apply raw_scores_lookup|].
  split; [intros ->; reflexivity|].
  intros Hne. unfold _compute_popularity_score.
  destruct ((map_to_list (raw_scores fl rows)).*2) as [|v vs] eqn:E.
  { exfalso. apply Hne, (raw_scores_empty fl).
    apply fmap_nil_inv in E. apply map_to_list_empty_iff, E. }
  destruct (min_max_are_raw fl rows v vs E)
    as ([rmin Hrmin] & [rmax Hrmax] & Hmin & Hmax).
  exists (array_min v vs), (array_max v vs).
  split; [exact Hmin|]. split; [exact Hmax|].
  split.
  - intros Hlt. apply Qltb_lt in Hlt as Hb. rewrite Hb.
    split; [reflexivity|]. intros k p Hp.
    rewrite lookup_fmap in Hp.
    destruct (raw_scores fl rows !! k) as [x|] eqn:Hx; [|discriminate].
    simpl in Hp. injection Hp as <-.
    destruct Hmin as [_ Hlo]. destruct Hmax as [_ Hhi].
    specialize (Hlo k x Hx). specialize (Hhi k x Hx).
    rewrite Hrmin in Hlt, Hlo |- *. rewrite Hrmax in Hlt, Hhi |- *.
    unfold raw_score in Hlt, Hlo, Hhi |- *.
    apply rescale_bounds; assumption.
  - intros Hnlt. destruct (Qltb _ _) eqn:Hb; [|reflexivity].
    exfalso. apply Hnlt, Qltb_lt, Hb.
Qed.

Lemma popularity_min_max_policy_witness :
  exists vmin vmax,
    is_min vmin (raw_scores exact (ds_events Sample.tables))
    /\ is_max vmax (raw_scores exact (ds_events Sample.tables))
    /\ vmin < vmax
    /\ forall k p, _compute_popularity_score exact (ds_events Sample.tables) !! k = Some p ->
                   0 <= p /\ p <= 1.
Proof.
  destruct (popularity_min_max_policy exact (ds_events Sample.tables) exact_ok)
    as (_ & _ & _ & Hpool).
  destruct Hpool as (vmin & vmax & Hmin & Hmax & Hlt & _); [discriminate|].
  exists vmin, vmax. split; [exact Hmin|]. split; [exact Hmax|].
  assert (Hlt' : vmin < vmax).
  { destruct Hmin as [_ Hlo]. destruct Hmax as [_ Hhi].
    apply Qle_lt_trans with (y := Scenario.raw_gallery);
      [apply (Hlo "e2"); vm_compute; reflexivity|].
    apply Qlt_le_trans with (y := Scenario.raw_meetup); [reflexivity|].
    apply (Hhi "e1"). vm_compute. reflexivity. }
  split; [exact Hlt'|]. apply Hlt, Hlt'.
Defined.

(** Claim C6, as stated, fails: the tags " ; " split into two tokens that
    are not the empty string, so the worded raw score is 2, and the score
    of this pool of one asset is 1.  The numbers 1 and 2 are binary64
    numbers, so no rounding takes part. *)
Lemma blank_tokens_not_counted :
  exists p,
    _compute_popularity_score exact [Sample.blank_tags] !! "e4" = Some p
    /\ p == 1
    /\ worded_raw_score exact Sample.blank_tags == 2
    /\ ~ p == worded_raw_score exact Sample.blank_tags.
Proof.
  eexists. split; [vm_compute; reflexivity|].
  split; [reflexivity|]. split; [reflexivity|].
  intros H. vm_compute in H. discriminate H.
Qed.

(** Two raw scores that are equal as rationals and differ in binary64:
    one tag with a description of 1006 characters, two tags with one of 6
    characters.  The code compares the binary64 numbers, so this pool is
    rescaled. *)
Lemma equal_in_Q_not_in_binary64 :
  1 + 1006 / 1000 == 2 + 6 / 1000
  /\ PrimFloat.ltb Binary64.two_tags_short Binary64.one_tag_long = true.
Proof. split; [reflexivity | vm_compute; reflexivity]. Qed.

End PopularityClaims.

(** * Statements about the feedback *)

Module FeedbackClaims.
Import Num Spec ActiveLearner ActiveLearnerFacts ArgsortFacts.
Local Open Scope Q_scope.

Lemma py_max_Qmax (a b : Q) : py_max a b == Qmax a b.
Proof.
  unfold py_max. destruct (Qltb a b) eqn:E.
  - apply Qltb_true in E. symmetry. apply Q.max_r, E.
  - apply Qltb_false in E. symmetry. apply Q.max_l, E.
Qed.

Lemma draw_feedback_cases (positive_ratio negative_ratio : Q) (rec : Rec) (r : Q) :
  (r < negative_ratio ->
   draw_feedback positive_ratio negative_ratio rec r
   = [(user_id rec, rec_type rec, asset_id rec, (-1)%Z)])
  /\ (negative_ratio <= r -> r < negative_ratio + positive_ratio ->
      draw_feedback positive_ratio negative_ratio rec r
      = [(user_id rec, rec_type rec, asset_id rec, 1%Z)])
  /\ (negative_ratio <= r -> negative_ratio + positive_ratio <= r ->
      draw_feedback positive_ratio negative_ratio rec r = []).
Proof.
  unfold draw_feedback. repeat split.
  - intros H. apply Qltb_lt in H. rewrite H. reflexivity.
  - intros H1 H2. apply Qltb_lt in H2. rewrite H2.
    destruct (Qltb r negative_ratio) eqn:E; [|reflexivity].
    apply Qltb_lt in E. exfalso. exact (Qlt_not_le _ _ E H1).
  - intros H1 H2.
    destruct (Qltb r negative_ratio) eqn:E1;
      [apply Qltb_lt in E1; exfalso; exact (Qlt_not_le _ _ E1 H1)|].
    destruct (Qltb r (negative_ratio + positive_ratio)) eqn:E2;
      [apply Qltb_lt in E2; exfalso; exact (Qlt_not_le _ _ E2 H2) | reflexivity].
Qed.

Lemma simulate_loop_draws (positive_ratio negative_ratio : Q) (random : nat -> Q)
    (recs : list Rec) :
  forall n,
    simulate_loop positive_ratio negative_ratio random n recs
    = concat (imap (fun i rec =>
                      draw_feedback positive_ratio negative_ratio rec (random (n + i)%nat))
                   recs).
Proof.
  induction recs as [|rec rest IH]; intros n; [reflexivity|].
  simpl. rewrite Nat.add_0_r, IH. do 2 f_equal.
  apply imap_ext. intros i x _. simpl. f_equal. f_equal. lia.
Qed.

(** Claim C2 (amended).  [simulate_feedback] checks nothing: for every pair
    of ratios, inside [0,1] or not, summing to at most 1 or not, it
    returns; the i-th recommendation gets a dislike when its draw is below
    negative_ratio, else a like when its draw is below
    negative_ratio + positive_ratio, else nothing; the entries are returned
    and appended to the learner's history. *)
Theorem simulate_feedback_never_rejects
    (self : t) (recommendations : list Rec) (positive_ratio negative_ratio : Q)
    (random : nat -> Q) :
  exists entries,
    simulate_feedback self recommendations positive_ratio negative_ratio random
    = Ok ({| positive_weight := positive_weight self;
             negative_weight := negative_weight self;
             feedback := feedback self ++ entries |}, entries)
    /\ entries
       = concat (imap (fun i rec =>
                         draw_feedback positive_ratio negative_ratio rec (random i))
                      recommendations)
    /\ forall rec r,
         (r < negative_ratio ->
          draw_feedback positive_ratio negative_ratio rec r
          = [(user_id rec, rec_type rec, asset_id rec, (-1)%Z)])
         /\ (negative_ratio <= r -> r < negative_ratio + positive_ratio ->
             draw_feedback positive_ratio negative_ratio rec r
             = [(user_id rec, rec_type rec, asset_id rec, 1%Z)])
         /\ (negative_ratio <= r -> negative_ratio + positive_ratio <= r ->
             draw_feedback positive_ratio negative_ratio rec r = []).
Proof.
  eexists. split; [reflexivity|]. split.
  - apply (simulate_loop_draws positive_ratio negative_ratio random recommendations 0).
  - intros rec r. apply draw_feedback_cases.
Qed.

(** Claim C2, as stated, fails: with positive_ratio = 2 and
    negative_ratio = 0.5 the call returns a like for a draw of 0.7. *)
Lemma out_of_range_ratios_accepted :
  ~ (2 <= 1)
  /\ ~ (2 + 0.5 <= 1)
  /\ simulate_feedback default_learner [Sample.liked] 2 0.5 (fun _ => 0.7)
     = Ok ({| positive_weight := 0.2; negative_weight := -0.25;
              feedback := [Sample.like] |}, [Sample.like])
  /\ simulate_feedback default_learner [Sample.liked] 2 0.5 (fun _ => 0.7)
     <> Raise InvalidRatioError.
Proof.
  split; [intros H; vm_compute in H; apply H; reflexivity|].
  split; [intros H; vm_compute in H; apply H; reflexivity|].
  split; [reflexivity | discriminate].
Qed.

(** Claim C3.  For references into the store, [apply_feedback] returns; and
    for every recommendation whose key occurs in the feedback, the entry
    returned at its position keeps the key and has, when the sum of the
    signals of the key is positive, the old score plus positive_weight and
    the old reason followed by "; feedback adjusted (positive)", and when
    the sum is zero or negative, max(0.0, old score + negative_weight) and
    the old reason followed by "; feedback adjusted (negative)". *)
Theorem feedback_adjusts_by_sign
    (self : t) (h : store) (recs : list ref) (fb : list entry) :
  (forall r, r ∈ recs -> (r < length h)%nat) ->
  exists h' out,
    apply_feedback self h recs fb = Some (h', out)
    /\ length out = length recs
    /\ forall i r v,
         recs !! i = Some r -> h !! r = Some v ->
         signals (key_of v) fb <> [] ->
         build_fb_map fb !! key_of v = Some (signal_sum (key_of v) fb)
         /\ exists r' v',
              out !! i = Some r' /\ h' !! r' = Some v'
              /\ key_of v' = key_of v
              /\ ((0 < signal_sum (key_of v) fb)%Z ->
                  score v' = score v + positive_weight self
                  /\ reason v'
                     = Some (default "" (reason v) +:+ "; feedback adjusted (positive)"))
              /\ ((signal_sum (key_of v) fb <= 0)%Z ->
                  score v' = py_max 0.0 (score v + negative_weight self)
                  /\ score v' == Qmax 0 (score v + negative_weight self)
                  /\ reason v'
                     = Some (default "" (reason v) +:+ "; feedback adjusted (negative)")).
Proof.
  intros Hvalid. unfold apply_feedback.
  destruct (adjust_loop_spec self (build_fb_map fb) h recs h) as
    (news & out & Hrun & Hlen & Hcells); [reflexivity | exact Hvalid |].
  exists (h ++ news), out. split; [exact Hrun|]. split; [exact Hlen|].
  intros i r v Hi Hv Hsig.
  assert (Hmap : build_fb_map fb !! key_of v = Some (signal_sum (key_of v) fb)).
  { rewrite build_fb_map_lookup. destruct (signals (key_of v) fb); [contradiction|reflexivity]. }
  split; [exact Hmap|].
  destruct (Hcells i r v Hi Hv) as (r' & Hr' & Hval & _ & _).
  exists r', (adjusted_value self (build_fb_map fb) v).
  split; [exact Hr'|]. split; [exact Hval|].
  unfold adjusted_value. rewrite Hmap.
  destruct (Z.ltb_spec 0 (signal_sum (key_of v) fb)) as [Hpos|Hneg].
  - split; [reflexivity|]. split; [intros _; split; reflexivity | lia].
  - split; [reflexivity|]. split; [lia|].
    intros _. split; [reflexivity|]. split; [|reflexivity].
    simpl. rewrite py_max_Qmax.
    assert (Hz : 0.0 == 0) by reflexivity. rewrite Hz. reflexivity.
Qed.

Lemma feedback_adjusts_by_sign_witness :
  exists h' out r' v',
    apply_feedback default_learner [Sample.liked] [0%nat] [Sample.like; Sample.dislike]
    = Some (h', out)
    /\ signal_sum (key_of Sample.liked) [Sample.like; Sample.dislike] = 0%Z
    /\ out !! 0%nat = Some r' /\ h' !! r' = Some v'
    /\ score v' = py_max 0.0 (score Sample.liked + negative_weight default_learner)
    /\ reason v' = Some ("text-based similarity" +:+ "; feedback adjusted (negative)").
Proof.
  destruct (feedback_adjusts_by_sign default_learner [Sample.liked] [0%nat]
              [Sample.like; Sample.dislike])
    as (h' & out & Hrun & _ & Hcells).
  { intros r Hr. apply list_elem_of_singleton in Hr as ->. simpl. lia. }
  destruct (Hcells 0%nat 0%nat Sample.liked eq_refl eq_refl)
    as (_ & r' & v' & Hout & Hv' & _ & _ & Hneg); [discriminate|].
  destruct Hneg as (Hscore & _ & Hreason); [vm_compute; discriminate|].
  exists h', out, r', v'. repeat split; assumption.
Defined.

(** Claim C7.  [apply_feedback] is not idempotent: on the default learner,
    one recommendation of score 0.5 and one like for it, applying the
    feedback gives 0.5 + 0.2, and applying it again to the result gives
    0.5 + 0.2 + 0.2. *)
Theorem apply_feedback_not_idempotent :
  exists h1 out1 h2 out2 r1 r2 v1 v2,
    [Sample.like] <> []
    /\ apply_feedback default_learner [Sample.liked] [0%nat] [Sample.like] = Some (h1, out1)
    /\ apply_feedback default_learner h1 out1 [Sample.like] = Some (h2, out2)
    /\ out1 !! 0%nat = Some r1 /\ h1 !! r1 = Some v1
    /\ out2 !! 0%nat = Some r2 /\ h2 !! r2 = Some v2
    /\ score v1 == score Sample.liked + 0.2
    /\ score v2 == score Sample.liked + 0.2 + 0.2
    /\ ~ score v2 == score v1.
Proof.
  do 8 eexists.
  split; [discriminate|].
  split; [vm_compute; reflexivity|].
  split; [vm_compute; reflexivity|].
  split; [reflexivity|]. split; [reflexivity|].
  split; [reflexivity|]. split; [reflexivity|].
  split; [reflexivity|]. split; [reflexivity|].
  intros H. vm_compute in H. discriminate H.
Qed.

(** Claim C8.  For references into the store, [apply_feedback] returns a
    store that extends the caller's: every cell the caller had holds the
    value it held, so no input dict is changed.  A recommendation whose key
    has no feedback is returned as the same reference, hence unchanged; one
    whose key has feedback is returned as a reference to a cell that did
    not exist before the call and holds the adjusted copy. *)
Theorem apply_feedback_frame
    (self : t) (h : store) (recs : list ref) (fb : list entry) :
  (forall r, r ∈ recs -> (r < length h)%nat) ->
  exists h' out,
    apply_feedback self h recs fb = Some (h', out)
    /\ h `prefix_of` h'
    /\ (forall l v, h !! l = Some v -> h' !! l = Some v)
    /\ length out = length recs
    /\ forall i r v,
         recs !! i = Some r -> h !! r = Some v ->
         (build_fb_map fb !! key_of v = None ->
          out !! i = Some r /\ h' !! r = Some v)
         /\ (is_Some (build_fb_map fb !! key_of v) ->
             exists r', out !! i = Some r'
                        /\ (length h <= r')%nat
                        /\ h' !! r' = Some (adjusted_value self (build_fb_map fb) v)).
Proof.
  intros Hvalid. unfold apply_feedback.
  destruct (adjust_loop_spec self (build_fb_map fb) h recs h) as
    (news & out & Hrun & Hlen & Hcells); [reflexivity | exact Hvalid |].
  exists (h ++ news), out. split; [exact Hrun|].
  split; [apply prefix_app_r; reflexivity|].
  split; [intros l v Hl; apply lookup_app_l_Some, Hl|].
  split; [exact Hlen|].
  intros i r v Hi Hv.
  destruct (Hcells i r v Hi Hv) as (r' & Hr' & Hval & Hsame & Hfresh).
  split.
  - intros Hnone. rewrite <- (Hsame Hnone). split; [exact Hr'|].
    rewrite (Hsame Hnone). apply lookup_app_l_Some, Hv.
  - intros Hsome. exists r'. split; [exact Hr'|].
    split; [exact (Hfresh Hsome) | exact Hval].
Qed.

Lemma apply_feedback_frame_witness :
  exists h' out,
    apply_feedback default_learner [Sample.liked; Sample.other] [0%nat; 1%nat] [Sample.like]
    = Some (h', out)
    /\ h' !! 0%nat = Some Sample.liked
    /\ h' !! 1%nat = Some Sample.other
    /\ out !! 1%nat = Some 1%nat
    /\ exists r', out !! 0%nat = Some r' /\ (2 <= r')%nat.
Proof.
  destruct (apply_feedback_frame default_learner [Sample.liked; Sample.other]
              [0%nat; 1%nat] [Sample.like])
    as (h' & out & Hrun & _ & Hframe & _ & Hcells).
  { intros r Hr. apply elem_of_cons in Hr as [->|Hr]; [simpl; lia|].
    apply list_elem_of_singleton in Hr as ->. simpl. lia. }
  exists h', out. split; [exact Hrun|].
  split; [apply Hframe; reflexivity|].
  split; [apply Hframe; reflexivity|].
  split.
  - destruct (Hcells 1%nat 1%nat Sample.other eq_refl eq_refl) as [Hsame _].
    apply Hsame. vm_compute. reflexivity.
  - destruct (Hcells 0%nat 0%nat Sample.liked eq_refl eq_refl) as [_ Hfresh].
    destruct Hfresh as (r' & Hr' & Hge & _); [eexists; vm_compute; reflexivity|].
    exists r'. split; [exact Hr' | exact Hge].
Defined.

End FeedbackClaims.

(** * More about [recommend_for_user]: errors, prefixes, bounds *)

Module RankingErrors.
Import PyStr Num Boost Spec BoostFacts Recommender RankingFacts.
Local Open Scope Q_scope.

Lemma index_of_None (x : string) (l : list string) :
  index_of x l = None <-> x ∉ l.
Proof.
  induction l as [|y r IH]; simpl.
  - split; [intros _ H; inversion H | reflexivity].
  - destruct (String.eqb_spec y x) as [->|Hne].
    + split; [discriminate | intros H; exfalso; apply H; left].
    + rewrite not_elem_of_cons. destruct (index_of x r); simpl.
      * split; [discriminate | intros [_ H]; apply IH in H; discriminate].
      * split; [intros _; split; [congruence | apply IH; reflexivity] | reflexivity].
Qed.

Lemma add_at_raise (i : nat) (d : Q) (a : list Q) (e : exn) :
  add_at i d a = Raise e -> e = IndexError.
Proof. unfold add_at. destruct (a !! i); [discriminate | congruence]. Qed.

Lemma boost_candidate_raise rows uc ui (boosts : list Q) i eid (e : exn) :
  boost_candidate rows uc ui boosts i eid = Raise e -> e = IndexError.
Proof.
  unfold boost_candidate, find_asset.
  destruct (List.find _ rows) as [row|]; cbn; [|congruence].
  destruct (city_rule _ _).
  - destruct (add_at i 0.1 boosts) as [b1|e1] eqn:E1; cbn;
      [|intros [= <-]; eapply add_at_raise, E1].
    destruct (category_rule _ _).
    + destruct (add_at i 0.05 b1) as [b2|e2] eqn:E2; cbn;
        [|intros [= <-]; eapply add_at_raise, E2].
      destruct (tag_rule _ _); [apply add_at_raise | discriminate].
    + cbn. destruct (tag_rule _ _); [apply add_at_raise | discriminate].
  - cbn. destruct (category_rule _ _).
    + destruct (add_at i 0.05 boosts) as [b2|e2] eqn:E2; cbn;
        [|intros [= <-]; eapply add_at_raise, E2].
      destruct (tag_rule _ _); [apply add_at_raise | discriminate].
    + cbn. destruct (tag_rule _ _); [apply add_at_raise | discriminate].
Qed.

Lemma boost_loop_raise rows uc ui (eids : list string) :
  forall (boosts : list Q) (i : nat) (e : exn),
    boost_loop rows uc ui boosts i eids = Raise e -> e = IndexError.
Proof.
  induction eids as [|eid rest IH]; intros boosts i e; simpl; [discriminate|].
  destruct (boost_candidate rows uc ui boosts i eid) as [b|e1] eqn:E1; cbn.
  - apply IH.
  - intros [= <-]. eapply boost_candidate_raise, E1.
Qed.

Lemma make_recs_raise uid ty rsn (eids : list string) (final : list Q) (order : list nat)
    (e : exn) :
  make_recs uid ty rsn eids final order = Raise e -> e = IndexError.
Proof.
  induction order as [|idx rest IH]; simpl; [discriminate|].
  destruct (eids !! idx); cbn; [|congruence].
  destruct (final !! idx); cbn; [|congruence].
  destruct (make_recs uid ty rsn eids final rest); cbn; [discriminate|].
  intros [= <-]. apply IH. reflexivity.
Qed.

End RankingErrors.

Section RankingMore.
Import PyStr Num Boost Spec PyStrFacts BoostFacts Recommender RankingFacts.
Import RankingErrors ArgsortFacts.
Local Open Scope Q_scope.

Variable cosine_similarity : vec -> vec -> Q.
Variable argsort : list Q -> list nat.

Local Abbreviation rank := (recommend_for_user cosine_similarity argsort).
Local Abbreviation base := (base_scores cosine_similarity).

(** A failing call: [KeyError] for a user id outside the embedding space;
    for one inside, [ValueError] when the user's row has a stored entry and
    the matrix of the asset type cannot be compared with it, [IndexError]
    otherwise. *)
Lemma recommend_for_user_raise self uid ty top_n (e : exn) :
  rank self uid ty top_n = Raise e ->
  (e = KeyError /\ uid ∉ ids (emb_users (embeddings self)))
  \/ (e = IndexError /\ uid ∈ ids (emb_users (embeddings self)))
  \/ (e = ValueError
      /\ exists uidx user_vec,
           index_of uid (ids (emb_users (embeddings self))) = Some uidx
           /\ vectors (emb_users (embeddings self)) !! uidx = Some user_vec
           /\ nnz user_vec <> 0%nat
           /\ ~ comparable (embeddings self) ty).
Proof.
  unfold recommend_for_user.
  destruct (index_of uid (ids (emb_users (embeddings self)))) as [uidx|] eqn:E1; cbn.
  - intros H.
    assert (Hin : uid ∈ ids (emb_users (embeddings self)))
      by (eapply list_elem_of_lookup_2, index_of_Some, E1).
    destruct (vectors (emb_users (embeddings self)) !! uidx) as [user_vec|] eqn:E2;
      cbn in H; [|injection H as <-; auto].
    destruct (base self ty user_vec) as [[scores rsn]|e0] eqn:E3; cbn in H.
    + right. left. split; [|exact Hin].
      unfold find_user in H.
      destruct (List.find _ (ds_users (datasets self))) as [user_row|]; cbn in H;
        [|congruence].
      destruct (boost_loop _ _ _ _ _ _) as [boosts|e1] eqn:E5; cbn in H.
      * eapply make_recs_raise, H.
      * injection H as <-. eapply boost_loop_raise, E5.
    + injection H as <-. right. right.
      apply base_scores_raise in E3 as (-> & Hnz & Hbad).
      split; [reflexivity|]. exists uidx, user_vec.
      split; [reflexivity|]. split; [exact E2|]. split; [exact Hnz|].
      intros (Hy & Hx & Hw). destruct Hbad as [Hb|[Hb|Hb]]; contradiction.
  - intros [= <-]. left. split; [reflexivity | apply index_of_None, E1].
Qed.

(** Property X1.  For each of the three asset types, [recommend_for_user]
    ends in [KeyError] exactly for a user id that is not in the user
    embedding space, and in [ValueError] exactly for a user of the
    embedding space whose row has a stored entry when the matrix of the
    asset type has no row, or no column, or another width than the user
    matrix; every other failure is an [IndexError]. *)
Theorem key_error_iff_unknown_user
    (self : Recommender.t) (uid : string) (ty : asset_type) (top_n : Z) :
  (rank self uid ty top_n = Raise KeyError
   <-> uid ∉ ids (emb_users (embeddings self)))
  /\ (rank self uid ty top_n = Raise ValueError
      <-> exists uidx user_vec,
            index_of uid (ids (emb_users (embeddings self))) = Some uidx
            /\ vectors (emb_users (embeddings self)) !! uidx = Some user_vec
            /\ nnz user_vec <> 0%nat
            /\ ~ comparable (embeddings self) ty)
  /\ forall e, rank self uid ty top_n = Raise e ->
               e = KeyError \/ e = IndexError \/ e = ValueError.
Proof.
  split; [|split].
  - split.
    + intros H. apply recommend_for_user_raise in H as [[_ H]|[[H _]|[H _]]];
        [exact H | discriminate | discriminate].
    + intros H. apply index_of_None in H.
      unfold recommend_for_user. rewrite H. reflexivity.
  - split.
    + intros H. apply recommend_for_user_raise in H as [[H _]|[[H _]|[_ H]]];
        [discriminate | discriminate | exact H].
    + intros (uidx & user_vec & Hidx & Hvec & Hnz & Hcmp).
      apply (recommend_for_user_value_error cosine_similarity argsort
               self uid ty top_n uidx user_vec); assumption.
  - intros e H. apply recommend_for_user_raise in H as [[-> _]|[[-> _]|[-> _]]]; auto.
Qed.

(** Property X2.  A call that returns was made for a user of the embedding space who has
    a row in the users table, and every candidate of the asset type has a
    row in its table, also the candidates that [top_n] leaves out. *)
Theorem returns_only_on_complete_tables
    (self : Recommender.t) (uid : string) (ty : asset_type) (top_n : Z)
    (recs : list Rec) :
  rank self uid ty top_n = Ok recs ->
  uid ∈ ids (emb_users (embeddings self))
  /\ (exists user_row, find_user (ds_users (datasets self)) uid = Ok user_row)
  /\ forall eid, eid ∈ ids (emb_of (embeddings self) ty) ->
       exists row, find_asset (asset_rows (datasets self) ty) eid = Ok row.
Proof.
  intros Hrank.
  apply recommend_for_user_inv in Hrank
    as (uidx & user_vec & scores & rsn & user_row & boosts & E1 & _ & _ & E3 & E5 & _).
  split; [eapply list_elem_of_lookup_2, index_of_Some, E1|].
  split; [eauto|].
  intros eid Hin. apply list_elem_of_lookup_1 in Hin as [k Hk].
  apply boost_loop_inv in E5 as (_ & _ & Hcells).
  destruct (Hcells k eid Hk) as (row & Hrow & _). eauto.
Qed.

Lemma make_recs_take uid ty rsn (eids : list string) (final : list Q) (order : list nat) :
  forall (n : nat) (recs : list Rec),
    make_recs uid ty rsn eids final order = Ok recs ->
    make_recs uid ty rsn eids final (take n order) = Ok (take n recs).
Proof.
  induction order as [|idx rest IH]; intros n recs; simpl.
  - intros [= <-]. rewrite !take_nil. reflexivity.
  - destruct (eids !! idx) as [eid|] eqn:E1; [|discriminate]. cbn.
    destruct (final !! idx) as [s|] eqn:E2; [|discriminate]. cbn.
    destruct (make_recs uid ty rsn eids final rest) as [recs'|] eqn:E3; [|discriminate].
    cbn. intros [= <-]. destruct n as [|n]; [reflexivity|].
    simpl. rewrite E1. cbn. rewrite E2. cbn.
    rewrite (IH n recs' eq_refl). reflexivity.
Qed.

(** Property X3.  The list for a smaller top_n is the beginning of the list for a larger
    one. *)
Theorem smaller_top_n_is_prefix
    (self : Recommender.t) (uid : string) (ty : asset_type) (k m : Z)
    (recs : list Rec) :
  (0 <= k <= m)%Z ->
  rank self uid ty m = Ok recs ->
  rank self uid ty k = Ok (take (Z.to_nat k) recs).
Proof.
  intros Hkm Hm.
  apply recommend_for_user_inv in Hm
    as (uidx & user_vec & scores & rsn & user_row & boosts
        & E1 & E2 & Eb & E3 & E5 & E6).
  unfold recommend_for_user. rewrite E1. cbn. rewrite E2. cbn. rewrite Eb. cbn.
  rewrite E3. cbn. rewrite E5. cbn.
  apply (make_recs_take _ _ _ _ _ _ (Z.to_nat k)) in E6.
  unfold slice_to in *.
  destruct (Z.leb_spec 0 m); [|lia]. destruct (Z.leb_spec 0 k); [|lia].
  rewrite take_take in E6.
  replace (Z.to_nat k `min` Z.to_nat m)%nat with (Z.to_nat k) in E6 by lia.
  exact E6.
Qed.

(** What a returned list is made of: the candidates at the indices of the
    order, that order being a beginning of what [argsort] lists. *)
Lemma recommend_for_user_order self uid ty top_n recs :
  rank self uid ty top_n = Ok recs ->
  exists (final : list Q) (order : list nat),
    (exists n, order = take n (argsort (Qopp <$> final)))
    /\ length recs = length order
    /\ forall p idx, order !! p = Some idx ->
         exists r, recs !! p = Some r
                   /\ ids (emb_of (embeddings self) ty) !! idx = Some (asset_id r)
                   /\ final !! idx = Some (score r).
Proof.
  intros Hrank.
  apply recommend_for_user_inv in Hrank
    as (uidx & user_vec & scores & rsn & user_row & boosts & _ & _ & _ & _ & _ & E6).
  apply make_recs_inv in E6 as [Hlen Hcells].
  eexists _, _. split; [apply slice_to_prefix|]. split; [exact Hlen|].
  intros p idx Hp. destruct (Hcells p idx Hp) as (eid & s & Heid & Hs & Hr).
  eexists. split; [exact Hr|]. split; assumption.
Qed.

(** Property X4.  When the candidate ids are distinct no asset is recommended twice,
    whatever top_n is. *)
Theorem no_asset_twice
    (self : Recommender.t) (uid : string) (ty : asset_type) (top_n : Z)
    (recs : list Rec) :
  argsort_ok argsort ->
  NoDup (ids (emb_of (embeddings self) ty)) ->
  rank self uid ty top_n = Ok recs ->
  NoDup (asset_id <$> recs).
Proof.
  intros Hsort Hids Hrank.
  destruct (recommend_for_user_order self uid ty top_n recs Hrank)
    as (final & order & [n ->] & Hlen & Hcells).
  destruct (Hsort (Qopp <$> final)) as [Hperm _].
  assert (Hnd : NoDup (argsort (Qopp <$> final))).
  { rewrite Hperm. apply NoDup_seq. }
  apply NoDup_alt. intros i j x Hi Hj.
  rewrite list_lookup_fmap in Hi, Hj.
  destruct (recs !! i) as [ri|] eqn:Eri; [|discriminate].
  destruct (recs !! j) as [rj|] eqn:Erj; [|discriminate].
  simpl in Hi, Hj. injection Hi as Hi. injection Hj as Hj.
  destruct (lookup_lt_is_Some_2 (take n (argsort (Qopp <$> final))) i) as [ii Hii];
    [rewrite <- Hlen; eapply lookup_lt_Some; eauto|].
  destruct (lookup_lt_is_Some_2 (take n (argsort (Qopp <$> final))) j) as [jj Hjj];
    [rewrite <- Hlen; eapply lookup_lt_Some; eauto|].
  destruct (Hcells i ii Hii) as (ri' & Hri' & Hidi & _).
  destruct (Hcells j jj Hjj) as (rj' & Hrj' & Hidj & _).
  rewrite Eri in Hri'. injection Hri' as <-.
  rewrite Erj in Hrj'. injection Hrj' as <-.
  rewrite Hi in Hidi. rewrite Hj in Hidj.
  assert (ii = jj) as -> by exact (proj1 (NoDup_alt _) Hids ii jj x Hidi Hidj).
  apply lookup_take_Some in Hii as [Hii _]. apply lookup_take_Some in Hjj as [Hjj _].
  exact (proj1 (NoDup_alt _) Hnd i j jj Hii Hjj).
Qed.

(** Property X5.  With a top_n that is not smaller than the number of candidates, and one
    vector per candidate id, the returned asset ids are the candidate ids
    in another order: every candidate is returned, once per listing. *)
Theorem large_top_n_returns_all
    (self : Recommender.t) (uid : string) (ty : asset_type) (top_n : Z)
    (recs : list Rec) :
  argsort_ok argsort ->
  length (vectors (emb_of (embeddings self) ty))
  = length (ids (emb_of (embeddings self) ty)) ->
  (Z.of_nat (length (ids (emb_of (embeddings self) ty))) <= top_n)%Z ->
  rank self uid ty top_n = Ok recs ->
  Permutation (asset_id <$> recs) (ids (emb_of (embeddings self) ty)).
Proof.
  intros Hsort Hvec Hn Hrank.
  apply recommend_for_user_inv in Hrank
    as (uidx & user_vec & scores & rsn & user_row & boosts & _ & _ & Eb & _ & E5 & E6).
  pose proof (base_scores_length cosine_similarity self ty user_vec scores rsn Hvec Eb)
    as Hbase.
  apply boost_loop_inv in E5 as (Hblen & _ & _). rewrite length_fmap in Hblen.
  set (eids := ids (emb_of (embeddings self) ty)) in *.
  set (final := zip_with Qplus scores boosts) in *.
  assert (Hfinal : length final = length eids)
    by (unfold final; rewrite length_zip_with; lia).
  destruct (Hsort (Qopp <$> final)) as [Hperm _].
  rewrite length_fmap, Hfinal in Hperm.
  assert (Hall : slice_to top_n (argsort (Qopp <$> final)) = argsort (Qopp <$> final)).
  { unfold slice_to. destruct (Z.leb_spec 0 top_n); [|lia].
    apply take_ge. rewrite (Permutation_length Hperm), length_seq. lia. }
  rewrite Hall in E6. apply make_recs_inv in E6 as [Hlen Hcells].
  assert (Hmap : asset_id <$> recs
                 = (fun idx => default "" (eids !! idx)) <$> argsort (Qopp <$> final)).
  { apply list_eq. intros p. rewrite !list_lookup_fmap.
    destruct (argsort (Qopp <$> final) !! p) as [idx|] eqn:Hidx; simpl.
    - destruct (Hcells p idx Hidx) as (eid & s & Heid & _ & ->). simpl.
      rewrite Heid. reflexivity.
    - apply lookup_ge_None in Hidx. rewrite <- Hlen in Hidx.
      apply lookup_ge_None in Hidx. rewrite Hidx. reflexivity. }
  rewrite Hmap, Hperm.
  replace ((fun idx => default "" (eids !! idx)) <$> seq 0 (length eids)) with eids;
    [reflexivity|].
  apply list_eq. intros p. rewrite list_lookup_fmap.
  destruct (eids !! p) as [x|] eqn:Hx.
  - rewrite lookup_seq_lt by (eapply lookup_lt_Some; eauto). simpl. rewrite Hx. reflexivity.
  - rewrite lookup_seq_ge by (apply lookup_ge_None, Hx). reflexivity.
Qed.

Lemma boost_bounds (user : UserRow) (row : AssetRow) :
  0 <= boost_of user row /\ boost_of user row <= 0.18.
Proof.
  unfold boost_of, bump, bump_city_category.
  destruct (city_rule _ _), (category_rule _ _), (tag_rule _ _);
    split; unfold Qle; simpl; lia.
Qed.

(** Property X6.  A boost never lowers a score: every returned score is at
    least the base score of its candidate, and it is the base score when
    none of the three rules holds for the candidate. *)
Theorem boost_never_lowers_score
    (self : Recommender.t) (uid : string) (ty : asset_type) (top_n : Z)
    (recs : list Rec) (r : Rec) :
  rank self uid ty top_n = Ok recs ->
  r ∈ recs ->
  exists uidx user_vec scores rsn user_row idx row b,
    index_of uid (ids (emb_users (embeddings self))) = Some uidx
    /\ vectors (emb_users (embeddings self)) !! uidx = Some user_vec
    /\ base self ty user_vec = Ok (scores, rsn)
    /\ find_user (ds_users (datasets self)) uid = Ok user_row
    /\ ids (emb_of (embeddings self) ty) !! idx = Some (asset_id r)
    /\ find_asset (asset_rows (datasets self) ty) (asset_id r) = Ok row
    /\ scores !! idx = Some b
    /\ b <= score r
    /\ (city_rule (lower (urow_city user_row)) (lower (row_city row)) = false ->
        category_rule (lower (urow_interests user_row)) (lower (row_category row)) = false ->
        tag_rule (lower (urow_interests user_row)) (lower (row_tags row)) = false ->
        score r == b).
Proof.
  intros Hrank Hin. apply list_elem_of_lookup_1 in Hin as [p Hp].
  destruct (recommend_for_user_entry _ _ self uid ty top_n recs p r Hrank Hp)
    as (uidx & user_vec & scores & rsn & user_row & idx & eid & row & b
        & E1 & E2 & E3 & E4 & E5 & E6 & E7 & ->).
  exists uidx, user_vec, scores, rsn, user_row, idx, row, b. simpl.
  repeat (split; [assumption|]).
  destruct (boost_bounds user_row row) as [Hlo _]. split.
  - rewrite <- (Qplus_0_r b) at 1. apply Qplus_le_r, Hlo.
  - intros H1 H2 H3. unfold boost_of, bump, bump_city_category.
    rewrite H1, H2, H3. ring.
Qed.

End RankingMore.

(** * More about the popularity score *)

Module PopularityMore.
Import PyStr Num Spec Popularity PopularityFacts ArgsortFacts.
Local Open Scope Q_scope.

Lemma popularity_unfold (fl : Q -> Q) (rows : list AssetRow) :
  rows <> [] ->
  exists rmin rmax,
    is_min (raw_score fl rmin) (raw_scores fl rows)
    /\ is_max (raw_score fl rmax) (raw_scores fl rows)
    /\ _compute_popularity_score fl rows
       = if Qltb (raw_score fl rmin) (raw_score fl rmax)
         then rescale fl (raw_score fl rmin) (raw_score fl rmax) <$> raw_scores fl rows
         else raw_scores fl rows.
Proof.
  intros Hne. unfold _compute_popularity_score.
  destruct ((map_to_list (raw_scores fl rows)).*2) as [|v vs] eqn:E.
  { exfalso. apply Hne, (raw_scores_empty fl).
    apply fmap_nil_inv in E. apply map_to_list_empty_iff, E. }
  destruct (min_max_are_raw fl rows v vs E)
    as ([rmin Hrmin] & [rmax Hrmax] & Hmin & Hmax).
  exists rmin, rmax. rewrite <- Hrmin, <- Hrmax.
  split; [exact Hmin|]. split; [exact Hmax | reflexivity].
Qed.

(** Property X7.  The popularity dict has one key per id of the pool and no other. *)
Theorem popularity_keys_are_row_ids (fl : Q -> Q) (rows : list AssetRow) (k : string) :
  is_Some (_compute_popularity_score fl rows !! k)
  <-> exists row, row ∈ rows /\ row_id row = k.
Proof.
  assert (Hraw : is_Some (raw_scores fl rows !! k)
                 <-> exists row, row ∈ rows /\ row_id row = k).
  { split.
    - intros [v Hv]. destruct (raw_scores_value fl rows k v Hv) as (row & ? & ? & _). eauto.
    - intros (row & Hin & Hid). rewrite raw_scores_lookup.
      destruct (List.find _ (rev rows)) as [r|] eqn:E; [eexists; reflexivity|].
      exfalso. assert (Hno := find_none _ _ E row). simpl in Hno.
      rewrite Hid, String.eqb_refl in Hno.
      assert (true = false); [|discriminate].
      apply Hno, in_rev. rewrite rev_involutive. apply list_elem_of_In, Hin. }
  rewrite <- Hraw. destruct rows as [|r0 rows0].
  - reflexivity.
  - destruct (popularity_unfold fl (r0 :: rows0)) as (rmin & rmax & _ & _ & ->);
      [discriminate|].
    destruct (Qltb _ _); [|reflexivity].
    rewrite lookup_fmap. split; intros [x Hx].
    + destruct (raw_scores fl (r0 :: rows0) !! k); [eauto | discriminate].
    + rewrite Hx. eexists. reflexivity.
Qed.

(** Property X8.  Normalisation never reverses the order of the computed
    raw scores: of two assets of the pool, the one whose raw score is not
    larger gets a popularity that is not larger. *)
Theorem popularity_keeps_raw_order
    (fl : Q -> Q) (rows : list AssetRow) (k1 k2 : string) (v1 v2 p1 p2 : Q) :
  rounding_ok fl ->
  raw_scores fl rows !! k1 = Some v1 ->
  raw_scores fl rows !! k2 = Some v2 ->
  _compute_popularity_score fl rows !! k1 = Some p1 ->
  _compute_popularity_score fl rows !! k2 = Some p2 ->
  v1 <= v2 ->
  p1 <= p2.
Proof.
  intros Hfl H1 H2 Hp1 Hp2 Hle.
  destruct rows as [|r0 rows0]; [discriminate H1|].
  destruct (popularity_unfold fl (r0 :: rows0)) as (rmin & rmax & _ & _ & Heq);
    [discriminate|].
  rewrite Heq in Hp1, Hp2. destruct (Qltb _ _) eqn:Hb.
  - rewrite lookup_fmap, H1 in Hp1. rewrite lookup_fmap, H2 in Hp2.
    simpl in Hp1, Hp2. injection Hp1 as <-. injection Hp2 as <-.
    apply Qltb_lt in Hb. unfold raw_score in Hb |- *.
    apply rescale_le; assumption.
  - rewrite H1 in Hp1. rewrite H2 in Hp2.
    injection Hp1 as <-. injection Hp2 as <-. exact Hle.
Qed.

(** Property X9.  When two assets of the pool have different raw scores the result is
    normalised: every value lies in [0,1], an asset of least raw score has
    popularity 0 and an asset of greatest raw score has popularity 1. *)
Theorem popularity_normalised_endpoints
    (fl : Q -> Q) (rows : list AssetRow) (k1 k2 : string) (v1 v2 : Q) :
  rounding_ok fl ->
  raw_scores fl rows !! k1 = Some v1 ->
  raw_scores fl rows !! k2 = Some v2 ->
  v1 < v2 ->
  (forall k p, _compute_popularity_score fl rows !! k = Some p -> 0 <= p /\ p <= 1)
  /\ exists klo khi plo phi,
       is_min (default 0 (raw_scores fl rows !! klo)) (raw_scores fl rows)
       /\ is_max (default 0 (raw_scores fl rows !! khi)) (raw_scores fl rows)
       /\ _compute_popularity_score fl rows !! klo = Some plo /\ plo == 0
       /\ _compute_popularity_score fl rows !! khi = Some phi /\ phi == 1.
Proof.
  intros Hfl H1 H2 Hlt.
  destruct rows as [|r0 rows0]; [discriminate H1|].
  destruct (popularity_unfold fl (r0 :: rows0)) as (rmin & rmax & Hmin & Hmax & Heq);
    [discriminate|].
  assert (Hmm : raw_score fl rmin < raw_score fl rmax).
  { destruct Hmin as [_ Hlo]. destruct Hmax as [_ Hhi].
    eapply Qle_lt_trans; [apply (Hlo k1 v1 H1)|].
    eapply Qlt_le_trans; [exact Hlt | apply (Hhi k2 v2 H2)]. }
  apply Qltb_lt in Hmm as Hb. rewrite Hb in Heq. rewrite Heq. split.
  - intros k p Hp. rewrite lookup_fmap in Hp.
    destruct (raw_scores fl (r0 :: rows0) !! k) as [x|] eqn:Hx; [|discriminate].
    simpl in Hp. injection Hp as <-.
    destruct Hmin as [_ Hlo]. destruct Hmax as [_ Hhi].
    specialize (Hlo k x Hx). specialize (Hhi k x Hx).
    unfold raw_score in Hmm, Hlo, Hhi |- *.
    apply rescale_bounds; assumption.
  - destruct Hmin as [[klo Hklo] Hlo]. destruct Hmax as [[khi Hkhi] Hhi].
    exists klo, khi,
      (rescale fl (raw_score fl rmin) (raw_score fl rmax) (raw_score fl rmin)),
      (rescale fl (raw_score fl rmin) (raw_score fl rmax) (raw_score fl rmax)).
    rewrite Hklo, Hkhi. simpl.
    split; [split; [eauto | exact Hlo]|]. split; [split; [eauto | exact Hhi]|].
    unfold raw_score in Hmm.
    destruct (rescale_endpoints fl _ _ Hfl Hmm) as [H0 H1'].
    split; [rewrite lookup_fmap, Hklo; reflexivity|].
    split; [exact H0|].
    split; [rewrite lookup_fmap, Hkhi; reflexivity | exact H1'].
Qed.

(** Property X10.  When all computed raw scores of the pool are equal, as
    in a pool of one asset or of assets with the same number of tags and
    the same description length, nothing is normalised and every
    popularity is the raw score, which is at least 1. *)
Theorem popularity_of_tied_pool (fl : Q -> Q) (rows : list AssetRow) :
  rounding_ok fl ->
  (forall k1 k2 v1 v2, raw_scores fl rows !! k1 = Some v1 ->
                       raw_scores fl rows !! k2 = Some v2 -> v1 == v2) ->
  _compute_popularity_score fl rows = raw_scores fl rows
  /\ forall k p, _compute_popularity_score fl rows !! k = Some p -> 1 <= p.
Proof.
  intros Hfl Htie.
  assert (Heq : _compute_popularity_score fl rows = raw_scores fl rows).
  { destruct rows as [|r0 rows0]; [reflexivity|].
    destruct (popularity_unfold fl (r0 :: rows0)) as (rmin & rmax & Hmin & Hmax & ->);
      [discriminate|].
    destruct (Qltb _ _) eqn:Hb; [|reflexivity].
    exfalso. apply Qltb_lt in Hb.
    destruct Hmin as [[klo Hklo] _]. destruct Hmax as [[khi Hkhi] _].
    rewrite (Htie klo khi _ _ Hklo Hkhi) in Hb. exact (Qlt_irrefl _ Hb). }
  split; [exact Heq|]. rewrite Heq. intros k p Hp.
  destruct (raw_scores_value fl rows k p Hp) as (row & _ & _ & ->).
  apply raw_score_at_least_one, Hfl.
Qed.

End PopularityMore.

(** * The batch over all users *)

Section BatchFacts.
Import PyStr Num Boost Spec Recommender RankingFacts RankingErrors ArgsortFacts.
Import Popularity PopularityFacts PopularityMore PopularityKeys Batch.
Local Open Scope Q_scope.

Variable cosine_similarity : vec -> vec -> Q.
Variable argsort : list Q -> list nat.

Local Abbreviation rank := (recommend_for_user cosine_similarity argsort).
Local Abbreviation base := (base_scores cosine_similarity).
Local Abbreviation generate := (generate_all_recommendations cosine_similarity argsort).

Lemma normalised_values_in_unit
    (fl : Q -> Q) (rows : list AssetRow) (k1 k2 : string) (v1 v2 : Q) :
  rounding_ok fl ->
  raw_scores fl rows !! k1 = Some v1 ->
  raw_scores fl rows !! k2 = Some v2 ->
  v1 < v2 ->
  forall k p, _compute_popularity_score fl rows !! k = Some p -> 0 <= p /\ p <= 1.
Proof.
  intros Hfl H1 H2 Hlt.
  destruct rows as [|r0 rows0]; [discriminate H1|].
  destruct (popularity_unfold fl (r0 :: rows0)) as (rmin & rmax & Hmin & Hmax & Heq);
    [discriminate|].
  destruct Hmin as [_ Hlo]. destruct Hmax as [_ Hhi].
  assert (Hmm : raw_score fl rmin < raw_score fl rmax).
  { eapply Qle_lt_trans; [apply (Hlo k1 v1 H1)|].
    eapply Qlt_le_trans; [exact Hlt | apply (Hhi k2 v2 H2)]. }
  apply Qltb_lt in Hmm as Hb. rewrite Hb in Heq. rewrite Heq.
  intros k p Hp. rewrite lookup_fmap in Hp.
  destruct (raw_scores fl (r0 :: rows0) !! k) as [x|] eqn:Hx; [|discriminate].
  simpl in Hp. injection Hp as <-.
  specialize (Hlo k x Hx). specialize (Hhi k x Hx).
  unfold raw_score in Hmm, Hlo, Hhi |- *.
  apply rescale_bounds; assumption.
Qed.

(** Property X11.  For a user without stored entries (cold start) and a pool in which two
    assets have different raw scores, every returned score lies in
    [0, 1.18]: a normalised popularity plus a boost. *)
Theorem cold_start_score_range
    (fl : Q -> Q) (e : Embeddings) (ds : Datasets) (uid : string) (ty : asset_type)
    (top_n : Z) (uidx : nat) (user_vec : vec) (k1 k2 : string) (v1 v2 : Q)
    (recs : list Rec) :
  rounding_ok fl ->
  index_of uid (ids (emb_users e)) = Some uidx ->
  vectors (emb_users e) !! uidx = Some user_vec ->
  nnz user_vec = 0%nat ->
  raw_scores fl (asset_rows ds ty) !! k1 = Some v1 ->
  raw_scores fl (asset_rows ds ty) !! k2 = Some v2 ->
  v1 < v2 ->
  rank (init fl e ds) uid ty top_n = Ok recs ->
  forall r, r ∈ recs -> 0 <= score r /\ score r <= 1.18.
Proof.
  intros Hfl Hidx Hvec Hnnz H1 H2 Hlt Hrank r Hin.
  apply list_elem_of_lookup_1 in Hin as [p Hp].
  destruct (recommend_for_user_entry _ _ _ uid ty top_n recs p r Hrank Hp)
    as (uidx' & uv & scores & rsn & user_row & idx & eid & row & b
        & F1 & F2 & Fb & _ & F4 & F5 & F6 & ->).
  simpl in F1, F2, F4, F5.
  rewrite Hidx in F1. injection F1 as <-.
  rewrite Hvec in F2. injection F2 as <-.
  apply base_scores_inv in Fb as [(_ & -> & _)|(Hnz & _)]; [|contradiction].
  simpl in F6. rewrite list_lookup_fmap, F4 in F6. simpl in F6. injection F6 as <-.
  destruct (popularity_keys fl (asset_rows ds ty) eid (find_asset_raw fl _ _ _ F5))
    as [q Hq].
  rewrite Hq. simpl.
  destruct (normalised_values_in_unit fl _ k1 k2 v1 v2 Hfl H1 H2 Hlt eid q Hq)
    as [Hq0 Hq1].
  destruct (boost_bounds user_row row) as [Hb0 Hb1]. split.
  - rewrite <- (Qplus_0_r 0). apply Qplus_le_compat; assumption.
  - change 1.18 with (1 + 0.18). apply Qplus_le_compat; assumption.
Qed.

Lemma user_pass_inv self top_n (acc acc' : all_recs) (uid : string) :
  user_pass cosine_similarity argsort self top_n acc uid = Ok acc' ->
  forall ty, exists recs,
    rank self uid ty top_n = Ok recs /\ recs_of acc' ty = recs_of acc ty ++ recs.
Proof.
  unfold user_pass.
  destruct (rank self uid events top_n) as [r1|] eqn:E1; [|discriminate]. cbn.
  destruct (rank self uid jobs top_n) as [r2|] eqn:E2; [|discriminate]. cbn.
  destruct (rank self uid posts top_n) as [r3|] eqn:E3; [|discriminate]. cbn.
  intros [= <-]. intros [| |]; eexists; (split; [eassumption | reflexivity]).
Qed.

Lemma user_pass_raise self top_n (acc : all_recs) (uid : string) (e : exn) :
  user_pass cosine_similarity argsort self top_n acc uid = Raise e ->
  exists ty, rank self uid ty top_n = Raise e.
Proof.
  unfold user_pass.
  destruct (rank self uid events top_n) as [r1|] eqn:E1; cbn;
    [|intros [= <-]; exists events; exact E1].
  destruct (rank self uid jobs top_n) as [r2|] eqn:E2; cbn;
    [|intros [= <-]; exists jobs; exact E2].
  destruct (rank self uid posts top_n) as [r3|] eqn:E3; cbn;
    [discriminate | intros [= <-]; exists posts; exact E3].
Qed.

Lemma user_loop_inv self top_n (uids : list string) :
  forall acc acc',
    user_loop cosine_similarity argsort self top_n acc uids = Ok acc' ->
    forall ty, exists per : list (list Rec),
      Forall2 (fun uid recs => rank self uid ty top_n = Ok recs) uids per
      /\ recs_of acc' ty = recs_of acc ty ++ concat per.
Proof.
  induction uids as [|uid rest IH]; intros acc acc'; simpl.
  - intros [= <-] ty. exists []. split; [constructor|]. simpl. rewrite app_nil_r. reflexivity.
  - destruct (user_pass _ _ self top_n acc uid) as [acc1|] eqn:E1; [|discriminate]. cbn.
    intros Hrest ty.
    destruct (user_pass_inv _ _ _ _ _ E1 ty) as (recs & Hrecs & Hacc1).
    destruct (IH _ _ Hrest ty) as (per & Hper & Hacc').
    exists (recs :: per). split; [constructor; assumption|].
    rewrite Hacc', Hacc1. simpl. rewrite app_assoc. reflexivity.
Qed.

Lemma user_loop_raise self top_n (uids : list string) :
  forall acc (e : exn),
    user_loop cosine_similarity argsort self top_n acc uids = Raise e ->
    exists uid ty, uid ∈ uids /\ rank self uid ty top_n = Raise e.
Proof.
  induction uids as [|uid rest IH]; intros acc e; simpl; [discriminate|].
  destruct (user_pass _ _ self top_n acc uid) as [acc1|e1] eqn:E1; cbn.
  - intros H. destruct (IH _ _ H) as (u & ty & Hin & Hr).
    exists u, ty. split; [right; exact Hin | exact Hr].
  - intros [= <-]. destruct (user_pass_raise _ _ _ _ _ E1) as [ty Hr].
    exists uid, ty. split; [left | exact Hr].
Qed.

Lemma user_loop_ok self top_n (uids : list string) :
  (forall uid ty, uid ∈ uids -> exists recs, rank self uid ty top_n = Ok recs) ->
  forall acc, exists acc', user_loop cosine_similarity argsort self top_n acc uids = Ok acc'.
Proof.
  induction uids as [|uid rest IH]; intros Hok acc; simpl; [eauto|].
  unfold user_pass.
  destruct (Hok uid events) as [r1 ->]; [left|]. cbn.
  destruct (Hok uid jobs) as [r2 ->]; [left|]. cbn.
  destruct (Hok uid posts) as [r3 ->]; [left|]. cbn.
  apply IH. intros u ty Hin. apply Hok. right. exact Hin.
Qed.

(** Property X12.  [generate_all_recommendations] never ends in [KeyError]:
    it asks only for users of the embedding space.  When it fails, the
    error is the [IndexError] or the [ValueError] of one of its calls of
    [recommend_for_user]. *)
Theorem generate_all_never_key_error (self : Recommender.t) (top_n : Z) (e : exn) :
  generate self top_n = Raise e ->
  (e = IndexError \/ e = ValueError)
  /\ exists uid ty, uid ∈ ids (emb_users (embeddings self))
                    /\ rank self uid ty top_n = Raise e.
Proof.
  unfold generate_all_recommendations. intros H.
  destruct (user_loop_raise _ _ _ _ _ H) as (uid & ty & Hin & Hr).
  split; [|exists uid, ty; split; assumption].
  destruct (recommend_for_user_raise _ _ _ _ _ _ _ Hr) as [[_ Hno]|[[-> _]|[-> _]]];
    [contradiction | left; reflexivity | right; reflexivity].
Qed.

(** Property X13.  On tables that agree with the embedding space for every
    user and asset type, which asks of a user with a stored entry that no
    matrix of an asset type is without rows or of another width, the batch
    returns; and whatever it returns holds, for each asset type, the lists
    of the users one after the other in the order of the user ids. *)
Theorem generate_all_concatenates
    (fl : Q -> Q) (e : Embeddings) (ds : Datasets) (top_n : Z) :
  (argsort_ok argsort ->
   (forall uid ty, uid ∈ ids (emb_users e) -> well_formed e ds uid ty) ->
   exists all, generate (init fl e ds) top_n = Ok all)
  /\ forall all, generate (init fl e ds) top_n = Ok all ->
     forall ty, exists per : list (list Rec),
       Forall2 (fun uid recs => rank (init fl e ds) uid ty top_n = Ok recs)
               (ids (emb_users e)) per
       /\ recs_of all ty = concat per.
Proof.
  split.
  - intros Hsort Hwf. apply user_loop_ok. intros uid ty Hin.
    apply recommend_for_user_ok; [exact Hsort | apply Hwf, Hin | exact Hin].
  - intros all H ty.
    destruct (user_loop_inv _ _ _ _ _ H ty) as (per & Hper & Hall).
    exists per. split; [exact Hper|]. rewrite Hall. destruct ty; reflexivity.
Qed.

(** Property X14.  Every entry of the batch under an asset type carries the singular label
    of that type and the id of a user of the embedding space; and for a
    top_n that is not negative the list under a type has at most top_n
    entries per user. *)
Theorem generate_all_entries
    (self : Recommender.t) (top_n : Z) (all : all_recs) (ty : asset_type) :
  generate self top_n = Ok all ->
  (forall r, r ∈ recs_of all ty ->
     rec_type r = match ty with events => "event" | jobs => "job" | posts => "post" end
     /\ user_id r ∈ ids (emb_users (embeddings self)))
  /\ ((0 <= top_n)%Z ->
      (Z.of_nat (length (recs_of all ty))
       <= top_n * Z.of_nat (length (ids (emb_users (embeddings self)))))%Z).
Proof.
  intros H. unfold generate_all_recommendations in H.
  destruct (user_loop_inv _ _ _ _ _ H ty) as (per & Hper & Hall).
  assert (Hall' : recs_of all ty = concat per) by (rewrite Hall; destruct ty; reflexivity).
  clear Hall. rewrite Hall'. clear Hall' H. split.
  - intros r Hin. apply list_elem_of_In, in_concat in Hin as (recs & Hrecs & Hr).
    apply list_elem_of_In in Hrecs. apply list_elem_of_In in Hr.
    apply list_elem_of_lookup_1 in Hrecs as [i Hi].
    destruct (Forall2_lookup_r _ _ _ _ _ Hper Hi) as (uid & Huid & Hrank).
    apply list_elem_of_lookup_1 in Hr as [p Hp].
    destruct (recommend_for_user_entry _ _ _ _ _ _ _ _ _ Hrank Hp)
      as (? & ? & ? & ? & ? & ? & ? & ? & ? & _ & _ & _ & _ & _ & _ & _ & ->).
    simpl. split; [destruct ty; reflexivity|].
    eapply list_elem_of_lookup_2, Huid.
  - intros Hn. induction Hper as [|uid recs uids per Hrank _ IH]; simpl; [lia|].
    rewrite length_app.
    pose proof (recommend_for_user_length _ _ _ _ _ _ _ Hn Hrank). lia.
Qed.

End BatchFacts.

(** * More about the feedback *)

Module FeedbackMore.
Import Num Spec ActiveLearner ActiveLearnerFacts ArgsortFacts.
Local Open Scope Q_scope.

Lemma draw_feedback_shape (positive_ratio negative_ratio : Q) (rec : Rec) (r : Q) :
  draw_feedback positive_ratio negative_ratio rec r = []
  \/ exists f, (f = 1%Z \/ f = (-1)%Z)
               /\ draw_feedback positive_ratio negative_ratio rec r
                  = [(user_id rec, rec_type rec, asset_id rec, f)].
Proof.
  unfold draw_feedback.
  destruct (Qltb r negative_ratio); [right; exists (-1)%Z; auto|].
  destruct (Qltb r (negative_ratio + positive_ratio)); [right; exists 1%Z; auto | left; reflexivity].
Qed.

Lemma simulate_loop_shape (positive_ratio negative_ratio : Q) (random : nat -> Q)
    (recs : list Rec) :
  forall n,
    (simulate_loop positive_ratio negative_ratio random n recs).*1
      `sublist_of` (key_of <$> recs)
    /\ Forall (fun e : entry => e.2 = 1%Z \/ e.2 = (-1)%Z)
              (simulate_loop positive_ratio negative_ratio random n recs).
Proof.
  induction recs as [|rec rest IH]; intros n; simpl.
  - split; constructor.
  - destruct (IH (S n)) as [Hsub Hall].
    destruct (draw_feedback_shape positive_ratio negative_ratio rec (random n))
      as [->|(f & Hf & ->)]; simpl.
    + split; [apply sublist_cons, Hsub | exact Hall].
    + split; [apply sublist_skip, Hsub | constructor; [exact Hf | exact Hall]].
Qed.

(** Property X15.  The entries [simulate_feedback] returns are, in the order of the
    recommendations, the keys of some of them, each at most once per
    occurrence, each with the signal +1 or -1; and they are what the call
    adds to the learner's history. *)
Theorem simulate_feedback_entries
    (self self' : t) (recommendations : list Rec) (positive_ratio negative_ratio : Q)
    (random : nat -> Q) (entries : list entry) :
  simulate_feedback self recommendations positive_ratio negative_ratio random
  = Ok (self', entries) ->
  entries.*1 `sublist_of` (key_of <$> recommendations)
  /\ Forall (fun e : entry => e.2 = 1%Z \/ e.2 = (-1)%Z) entries
  /\ (length entries <= length recommendations)%nat
  /\ feedback self' = feedback self ++ entries
  /\ positive_weight self' = positive_weight self
  /\ negative_weight self' = negative_weight self.
Proof.
  unfold simulate_feedback. intros [= <- <-].
  destruct (simulate_loop_shape positive_ratio negative_ratio random recommendations 0)
    as [Hsub Hall].
  split; [exact Hsub|]. split; [exact Hall|].
  split; [|repeat split].
  apply sublist_length in Hsub. rewrite !length_fmap in Hsub. exact Hsub.
Qed.

(** Property X16.  With draws in [0,1): ratios that are both zero or less give no feedback
    at all; a negative_ratio of 1 or more gives a dislike for every
    recommendation, whatever positive_ratio is; and with no dislikes, a
    positive_ratio of 1 or more gives a like for every recommendation. *)
Theorem simulate_feedback_extreme_ratios
    (self : t) (recommendations : list Rec) (positive_ratio negative_ratio : Q)
    (random : nat -> Q) :
  (forall i, 0 <= random i /\ random i < 1) ->
  exists self' entries,
    simulate_feedback self recommendations positive_ratio negative_ratio random
    = Ok (self', entries)
    /\ (negative_ratio <= 0 -> negative_ratio + positive_ratio <= 0 -> entries = [])
    /\ (1 <= negative_ratio ->
        entries = (fun rec => (user_id rec, rec_type rec, asset_id rec, (-1)%Z))
                  <$> recommendations)
    /\ (negative_ratio <= 0 -> 1 <= negative_ratio + positive_ratio ->
        entries = (fun rec => (user_id rec, rec_type rec, asset_id rec, 1%Z))
                  <$> recommendations).
Proof.
  intros Hdraw. unfold simulate_feedback. eexists _, _. split; [reflexivity|].
  generalize 0%nat as n.
  assert (Hnone : negative_ratio <= 0 -> negative_ratio + positive_ratio <= 0 ->
                  forall rec i, draw_feedback positive_ratio negative_ratio rec (random i) = []).
  { intros H1 H2 rec i. destruct (Hdraw i) as [H0 _]. unfold draw_feedback.
    destruct (Qltb (random i) negative_ratio) eqn:E1.
    - apply Qltb_lt in E1. exfalso.
      apply (Qlt_irrefl 0). eapply Qle_lt_trans; [exact H0|].
      eapply Qlt_le_trans; [exact E1 | exact H1].
    - destruct (Qltb (random i) (negative_ratio + positive_ratio)) eqn:E2; [|reflexivity].
      apply Qltb_lt in E2. exfalso.
      apply (Qlt_irrefl 0). eapply Qle_lt_trans; [exact H0|].
      eapply Qlt_le_trans; [exact E2 | exact H2]. }
  assert (Hdis : 1 <= negative_ratio ->
                 forall rec i, draw_feedback positive_ratio negative_ratio rec (random i)
                               = [(user_id rec, rec_type rec, asset_id rec, (-1)%Z)]).
  { intros H1 rec i. destruct (Hdraw i) as [_ Hlt]. unfold draw_feedback.
    assert (E : Qltb (random i) negative_ratio = true)
      by (apply Qltb_lt; eapply Qlt_le_trans; eassumption).
    rewrite E. reflexivity. }
  assert (Hlike : negative_ratio <= 0 -> 1 <= negative_ratio + positive_ratio ->
                  forall rec i, draw_feedback positive_ratio negative_ratio rec (random i)
                                = [(user_id rec, rec_type rec, asset_id rec, 1%Z)]).
  { intros H1 H2 rec i. destruct (Hdraw i) as [H0 Hlt]. unfold draw_feedback.
    destruct (Qltb (random i) negative_ratio) eqn:E1.
    - apply Qltb_lt in E1. exfalso.
      apply (Qlt_irrefl 0). eapply Qle_lt_trans; [exact H0|].
      eapply Qlt_le_trans; [exact E1 | exact H1].
    - assert (E : Qltb (random i) (negative_ratio + positive_ratio) = true)
        by (apply Qltb_lt; eapply Qlt_le_trans; eassumption).
      rewrite E. reflexivity. }
  induction recommendations as [|rec rest IH]; intros n; simpl.
  - split; [|split]; intros; reflexivity.
  - destruct (IH (S n)) as (I1 & I2 & I3). split; [|split].
    + intros H1 H2. rewrite (Hnone H1 H2), (I1 H1 H2). reflexivity.
    + intros H1. rewrite (Hdis H1), (I2 H1). reflexivity.
    + intros H1 H2. rewrite (Hlike H1 H2), (I3 H1 H2). reflexivity.
Qed.

Lemma signals_perm (k : key) (fb fb' : list entry) :
  fb ≡ₚ fb' -> signals k fb ≡ₚ signals k fb'.
Proof. intros H. unfold signals. rewrite H. reflexivity. Qed.

Lemma sum_perm (l l' : list Z) : l ≡ₚ l' -> foldr Z.add 0%Z l = foldr Z.add 0%Z l'.
Proof.
  induction 1; simpl; lia.
Qed.

(** Property X17.  The order of the feedback entries does not matter: two feedback lists
    with the same entries give the same dict of sums, hence the same
    adjustment. *)
Theorem feedback_order_irrelevant
    (self : t) (h : store) (recs : list ref) (fb fb' : list entry) :
  fb ≡ₚ fb' ->
  build_fb_map fb = build_fb_map fb'
  /\ apply_feedback self h recs fb = apply_feedback self h recs fb'.
Proof.
  intros Hperm.
  assert (Hmap : build_fb_map fb = build_fb_map fb').
  { apply map_eq. intros k. rewrite !build_fb_map_lookup.
    pose proof (signals_perm k fb fb' Hperm) as Hs.
    unfold signal_sum. rewrite (sum_perm _ _ Hs).
    destruct (signals k fb) as [|z l], (signals k fb') as [|z' l']; try reflexivity.
    - apply Permutation_nil in Hs. discriminate Hs.
    - symmetry in Hs. apply Permutation_nil in Hs. discriminate Hs. }
  split; [exact Hmap|]. unfold apply_feedback. rewrite Hmap. reflexivity.
Qed.

Lemma adjust_loop_untouched (self : t) (fb_map : gmap key Z) (h : store) (recs : list ref) :
  (forall r, r ∈ recs -> exists v, h !! r = Some v /\ fb_map !! key_of v = None) ->
  adjust_loop self fb_map h recs = Some (h, recs).
Proof.
  induction recs as [|r rest IH]; intros Hno; simpl; [reflexivity|].
  destruct (Hno r) as (v & Hv & Hk); [left|].
  rewrite (adjust_one_spec self fb_map h r v Hv), Hk. cbn.
  rewrite IH; [reflexivity|]. intros r' Hr'. apply Hno. right. exact Hr'.
Qed.

(** Property X18.  Feedback that names none of the recommendations, the empty feedback
    first of all, changes nothing: the same store and the same list of
    references are returned. *)
Theorem feedback_without_match_is_identity
    (self : t) (h : store) (recs : list ref) (fb : list entry) :
  (forall r, r ∈ recs -> exists v, h !! r = Some v /\ signals (key_of v) fb = []) ->
  apply_feedback self h recs fb = Some (h, recs)
  /\ apply_feedback self h recs [] = Some (h, recs).
Proof.
  intros Hno. split; apply adjust_loop_untouched; intros r Hr;
    destruct (Hno r Hr) as (v & Hv & Hs); exists v; (split; [exact Hv|]).
  - rewrite build_fb_map_lookup, Hs. reflexivity.
  - reflexivity.
Qed.

Lemma key_of_adjusted (self : t) (fb_map : gmap key Z) (v : Rec) :
  key_of (adjusted_value self fb_map v) = key_of v.
Proof.
  unfold adjusted_value. destruct (fb_map !! key_of v) as [f|]; [|reflexivity].
  destruct (0 <? f)%Z; reflexivity.
Qed.

Lemma adjusted_positive (self : t) (fb_map : gmap key Z) (v : Rec) (f : Z) :
  fb_map !! key_of v = Some f -> (0 < f)%Z ->
  adjusted_value self fb_map v
  = with_reason (with_score v (score v + positive_weight self))
      (default "" (reason v) +:+ suffix_positive).
Proof.
  intros Hk Hf. unfold adjusted_value. rewrite Hk.
  apply Z.ltb_lt in Hf. rewrite Hf. reflexivity.
Qed.

Lemma adjusted_negative (self : t) (fb_map : gmap key Z) (v : Rec) (f : Z) :
  fb_map !! key_of v = Some f -> (f <= 0)%Z ->
  adjusted_value self fb_map v
  = with_reason (with_score v (py_max 0.0 (score v + negative_weight self)))
      (default "" (reason v) +:+ suffix_negative).
Proof.
  intros Hk Hf. unfold adjusted_value. rewrite Hk.
  apply Z.ltb_ge in Hf. rewrite Hf. reflexivity.
Qed.

Lemma adjust_loop_refs (self : t) (fb_map : gmap key Z) (h : store) (recs : list ref)
    (news : store) (out : list ref) :
  (forall r, r ∈ recs -> (r < length h)%nat) ->
  length out = length recs ->
  (forall i r v, recs !! i = Some r -> h !! r = Some v ->
     exists r', out !! i = Some r'
                /\ (h ++ news) !! r' = Some (adjusted_value self fb_map v)
                /\ (fb_map !! key_of v = None -> r' = r)
                /\ (is_Some (fb_map !! key_of v) -> (length h <= r')%nat)) ->
  forall r, r ∈ out -> (r < length (h ++ news))%nat.
Proof.
  intros Hvalid Hlen Hcells r Hr.
  apply list_elem_of_lookup_1 in Hr as [i Hi].
  destruct (lookup_lt_is_Some_2 recs i) as [r0 Hr0];
    [rewrite <- Hlen; eapply lookup_lt_Some; eauto|].
  destruct (lookup_lt_is_Some_2 h r0) as [v Hv];
    [apply Hvalid; eapply list_elem_of_lookup_2; eauto|].
  destruct (Hcells i r0 v Hr0 Hv) as (r' & Hr' & Hval & _).
  rewrite Hi in Hr'. injection Hr' as <-. eapply lookup_lt_Some, Hval.
Qed.

(** Property X19.  Applying the same feedback to the result of an application adjusts
    every matched recommendation a second time: a key of positive sum ends
    with its score plus twice positive_weight and the suffix twice, a key
    of zero or negative sum with max(0, max(0, score + negative_weight) +
    negative_weight); a recommendation without feedback stays the same
    reference. *)
Theorem applying_twice_compounds
    (self : t) (h : store) (recs : list ref) (fb : list entry) :
  (forall r, r ∈ recs -> (r < length h)%nat) ->
  exists h1 out1 h2 out2,
    apply_feedback self h recs fb = Some (h1, out1)
    /\ apply_feedback self h1 out1 fb = Some (h2, out2)
    /\ forall i r v, recs !! i = Some r -> h !! r = Some v ->
         exists r2 v2,
           out2 !! i = Some r2 /\ h2 !! r2 = Some v2
           /\ (signals (key_of v) fb = [] -> r2 = r /\ v2 = v)
           /\ (signals (key_of v) fb <> [] -> (0 < signal_sum (key_of v) fb)%Z ->
               score v2 = score v + positive_weight self + positive_weight self
               /\ reason v2 = Some ((default "" (reason v) +:+ suffix_positive)
                                    +:+ suffix_positive))
           /\ (signals (key_of v) fb <> [] -> (signal_sum (key_of v) fb <= 0)%Z ->
               score v2 = py_max 0.0 (py_max 0.0 (score v + negative_weight self)
                                      + negative_weight self)
               /\ reason v2 = Some ((default "" (reason v) +:+ suffix_negative)
                                    +:+ suffix_negative)).
Proof.
  intros Hvalid. unfold apply_feedback. set (m := build_fb_map fb).
  destruct (adjust_loop_spec self m h recs h) as
    (news & out1 & Hrun1 & Hlen1 & Hcells1); [reflexivity | exact Hvalid |].
  pose proof (adjust_loop_refs self m h recs news out1 Hvalid Hlen1 Hcells1) as Hvalid1.
  destruct (adjust_loop_spec self m (h ++ news) out1 (h ++ news)) as
    (news2 & out2 & Hrun2 & Hlen2 & Hcells2); [reflexivity | exact Hvalid1 |].
  exists (h ++ news), out1, ((h ++ news) ++ news2), out2.
  split; [exact Hrun1|]. split; [exact Hrun2|].
  intros i r v Hi Hv.
  destruct (Hcells1 i r v Hi Hv) as (r1 & Hr1 & Hval1 & Hsame1 & _).
  destruct (Hcells2 i r1 _ Hr1 Hval1) as (r2 & Hr2 & Hval2 & Hsame2 & _).
  exists r2, (adjusted_value self m (adjusted_value self m v)).
  split; [exact Hr2|]. split; [exact Hval2|].
  assert (Hlook : m !! key_of v
                  = match signals (key_of v) fb with
                    | [] => None
                    | _ => Some (signal_sum (key_of v) fb)
                    end) by apply build_fb_map_lookup.
  split; [|split].
  - intros Hs. rewrite Hs in Hlook.
    assert (Hv1 : adjusted_value self m v = v)
      by (unfold adjusted_value; rewrite Hlook; reflexivity).
    split; [|rewrite !Hv1; reflexivity].
    rewrite Hsame2 by (rewrite key_of_adjusted; exact Hlook).
    apply Hsame1, Hlook.
  - intros Hs Hpos. destruct (signals (key_of v) fb) as [|z l]; [contradiction|].
    assert (Hlook1 : m !! key_of (adjusted_value self m v)
                     = Some (signal_sum (key_of v) fb))
      by (rewrite key_of_adjusted; exact Hlook).
    rewrite (adjusted_positive self m _ _ Hlook1 Hpos).
    rewrite (adjusted_positive self m v _ Hlook Hpos). split; reflexivity.
  - intros Hs Hneg. destruct (signals (key_of v) fb) as [|z l]; [contradiction|].
    assert (Hlook1 : m !! key_of (adjusted_value self m v)
                     = Some (signal_sum (key_of v) fb))
      by (rewrite key_of_adjusted; exact Hlook).
    rewrite (adjusted_negative self m _ _ Hlook1 Hneg).
    rewrite (adjusted_negative self m v _ Hlook Hneg). split; reflexivity.
Qed.

Lemma py_max_ge_left (a b : Q) : a <= py_max a b.
Proof.
  unfold py_max. destruct (Qltb a b) eqn:E; [apply Qltb_true, E | apply Qle_refl].
Qed.

Lemma py_max_le (a b c : Q) : a <= c -> b <= c -> py_max a b <= c.
Proof. intros Ha Hb. unfold py_max. destruct (Qltb a b); assumption. Qed.

(** Property X20.  The direction of an adjustment.  After feedback of zero or negative sum
    the score is never below 0, also when the score before was; with a
    negative_weight that is not positive, a score that was not negative
    does not rise.  After feedback of positive sum, with a positive_weight
    that is not negative, the score does not fall; nothing caps it. *)
Theorem adjustment_direction
    (self : t) (h : store) (recs : list ref) (fb : list entry) :
  (forall r, r ∈ recs -> (r < length h)%nat) ->
  exists h' out,
    apply_feedback self h recs fb = Some (h', out)
    /\ forall i r v, recs !! i = Some r -> h !! r = Some v ->
         signals (key_of v) fb <> [] ->
         exists r' v',
           out !! i = Some r' /\ h' !! r' = Some v'
           /\ ((signal_sum (key_of v) fb <= 0)%Z ->
               0 <= score v'
               /\ (negative_weight self <= 0 -> 0 <= score v -> score v' <= score v))
           /\ ((0 < signal_sum (key_of v) fb)%Z ->
               score v' == score v + positive_weight self
               /\ (0 <= positive_weight self -> score v <= score v')).
Proof.
  intros Hvalid. unfold apply_feedback.
  destruct (adjust_loop_spec self (build_fb_map fb) h recs h) as
    (news & out & Hrun & _ & Hcells); [reflexivity | exact Hvalid |].
  exists (h ++ news), out. split; [exact Hrun|].
  intros i r v Hi Hv Hsig.
  destruct (Hcells i r v Hi Hv) as (r' & Hr' & Hval & _ & _).
  exists r', (adjusted_value self (build_fb_map fb) v).
  split; [exact Hr'|]. split; [exact Hval|].
  unfold adjusted_value. rewrite build_fb_map_lookup.
  destruct (signals (key_of v) fb) as [|z l]; [contradiction|].
  destruct (Z.ltb_spec 0 (signal_sum (key_of v) fb)) as [Hpos|Hneg]; simpl.
  - split; [lia|]. intros _. split; [reflexivity|].
    intros Hpw. rewrite <- (Qplus_0_r (score v)) at 1. apply Qplus_le_r, Hpw.
  - split; [|lia]. intros _. split.
    + eapply Qle_trans; [|apply py_max_ge_left]. unfold Qle. simpl. lia.
    + intros Hnw H0. apply py_max_le.
      * eapply Qle_trans; [|exact H0]. unfold Qle. simpl. lia.
      * rewrite <- (Qplus_0_r (score v)) at 2. apply Qplus_le_r, Hnw.
Qed.

End FeedbackMore.

(** * Grouping by user, and reading the groups back *)

Module PipelineFacts.
Import Batch Pipeline.

(** The recommendations of one user in a list. *)
Local Abbreviation of_user uid :=
  (List.filter (fun r : Rec => String.eqb (user_id r) uid)).

Lemma get_set_eq (uid : string) (v : all_recs) (d : per_user) :
  get uid (set uid v d) = Some v.
Proof.
  induction d as [|[k w] rest IH]; simpl.
  - rewrite String.eqb_refl. reflexivity.
  - destruct (String.eqb_spec k uid) as [->|Hne]; simpl.
    + rewrite String.eqb_refl. reflexivity.
    + destruct (String.eqb_spec k uid); [contradiction | exact IH].
Qed.

Lemma get_set_ne (uid uid' : string) (v : all_recs) (d : per_user) :
  uid <> uid' -> get uid' (set uid v d) = get uid' d.
Proof.
  intros Hne. induction d as [|[k w] rest IH]; simpl.
  - destruct (String.eqb_spec uid uid'); [contradiction | reflexivity].
  - destruct (String.eqb_spec k uid) as [->|Hk]; simpl.
    + destruct (String.eqb_spec uid uid'); [contradiction | reflexivity].
    + destruct (String.eqb_spec k uid'); [reflexivity | exact IH].
Qed.

Lemma has_key_get (uid : string) (d : per_user) :
  has_key uid d = true <-> is_Some (get uid d).
Proof.
  induction d as [|[k w] rest IH]; simpl.
  - split; [discriminate | intros [x Hx]; discriminate].
  - destruct (String.eqb k uid); simpl; [split; eauto | exact IH].
Qed.

Lemma has_key_keys (uid : string) (d : per_user) :
  has_key uid d = true <-> uid ∈ d.*1.
Proof.
  induction d as [|[k w] rest IH]; simpl.
  - split; [discriminate | intros H; inversion H].
  - rewrite orb_true_iff, elem_of_cons, IH, String.eqb_eq. intuition congruence.
Qed.

Lemma keys_set (uid : string) (v : all_recs) (d : per_user) :
  (set uid v d).*1 = if has_key uid d then d.*1 else d.*1 ++ [uid].
Proof.
  induction d as [|[k w] rest IH]; [reflexivity|].
  cbn [set has_key].
  destruct (String.eqb_spec k uid) as [->|Hne]; cbn [orb]; [reflexivity|].
  rewrite !fmap_cons, IH. destruct (has_key uid rest); reflexivity.
Qed.

Lemma keys_set_NoDup (uid : string) (v : all_recs) (d : per_user) :
  NoDup d.*1 -> NoDup (set uid v d).*1.
Proof.
  intros Hnd. rewrite keys_set. destruct (has_key uid d) eqn:E; [exact Hnd|].
  apply NoDup_app. split; [exact Hnd|]. split; [|apply NoDup_singleton].
  intros x Hx Hx'. apply list_elem_of_singleton in Hx' as ->.
  apply has_key_keys in Hx. congruence.
Qed.

Lemma keys_set_prefix (uid : string) (v : all_recs) (d : per_user) :
  d.*1 `prefix_of` (set uid v d).*1.
Proof.
  rewrite keys_set. destruct (has_key uid d); [reflexivity | apply prefix_app_r; reflexivity].
Qed.

Lemma start_fold (user_ids : list string) :
  forall d : per_user,
    (NoDup d.*1 -> NoDup (foldl (fun d uid => set uid no_recs d) d user_ids).*1)
    /\ d.*1 `prefix_of` (foldl (fun d uid => set uid no_recs d) d user_ids).*1
    /\ forall uid, get uid (foldl (fun d uid => set uid no_recs d) d user_ids)
                   = if bool_decide (uid ∈ user_ids) then Some no_recs else get uid d.
Proof.
  induction user_ids as [|u rest IH]; intros d; cbn [foldl].
  - split; [auto|]. split; [reflexivity|]. intros uid.
    rewrite bool_decide_eq_false_2; [reflexivity | intros H; inversion H].
  - destruct (IH (set u no_recs d)) as (Hnd & Hpre & Hget).
    split; [intros H; apply Hnd, keys_set_NoDup, H|].
    split; [etransitivity; [apply keys_set_prefix | exact Hpre]|].
    intros uid. rewrite Hget.
    destruct (decide (uid ∈ rest)) as [Hin|Hnin].
    + rewrite !bool_decide_eq_true_2; [reflexivity | right; exact Hin | exact Hin].
    + rewrite (bool_decide_eq_false_2 _ Hnin).
      destruct (decide (u = uid)) as [->|Hne].
      * rewrite get_set_eq, bool_decide_eq_true_2; [reflexivity | left].
      * rewrite get_set_ne by exact Hne.
        rewrite bool_decide_eq_false_2; [reflexivity|].
        rewrite not_elem_of_cons. split; [congruence | exact Hnin].
Qed.

Lemma file_rec_spec (ty : asset_type) (d : per_user) (rec : Rec) :
  NoDup d.*1 ->
  NoDup (file_rec ty d rec).*1
  /\ d.*1 `prefix_of` (file_rec ty d rec).*1
  /\ forall uid,
       get uid (file_rec ty d rec)
       = if String.eqb (user_id rec) uid
         then Some (extend (default no_recs (get uid d)) ty [rec])
         else get uid d.
Proof.
  intros Hnd. unfold file_rec.
  set (d1 := if has_key (user_id rec) d then d else set (user_id rec) no_recs d).
  assert (Hd1 : NoDup d1.*1 /\ d.*1 `prefix_of` d1.*1
                /\ get (user_id rec) d1 = Some (default no_recs (get (user_id rec) d))
                /\ forall uid, user_id rec <> uid -> get uid d1 = get uid d).
  { unfold d1. destruct (has_key (user_id rec) d) eqn:E.
    - split; [exact Hnd|]. split; [reflexivity|]. split; [|reflexivity].
      apply has_key_get in E as [x Hx]. rewrite Hx. reflexivity.
    - split; [apply keys_set_NoDup, Hnd|]. split; [apply keys_set_prefix|].
      split; [|intros uid Hne; apply get_set_ne, Hne].
      rewrite get_set_eq.
      destruct (get (user_id rec) d) as [x|] eqn:Hx; [|reflexivity].
      assert (has_key (user_id rec) d = true) by (apply has_key_get; eauto). congruence. }
  destruct Hd1 as (Hnd1 & Hpre1 & Hown & Hother). rewrite Hown.
  split; [apply keys_set_NoDup, Hnd1|].
  split; [etransitivity; [exact Hpre1 | apply keys_set_prefix]|].
  intros uid. destruct (String.eqb_spec (user_id rec) uid) as [<-|Hne].
  - apply get_set_eq.
  - rewrite get_set_ne by exact Hne. apply Hother, Hne.
Qed.

Lemma extend_extend (v : all_recs) (ty : asset_type) (l1 l2 : list Rec) :
  extend (extend v ty l1) ty l2 = extend v ty (l1 ++ l2).
Proof. destruct ty; simpl; rewrite <- app_assoc; reflexivity. Qed.

Lemma extend_nil (v : all_recs) (ty : asset_type) : extend v ty [] = v.
Proof. destruct v, ty; simpl; rewrite app_nil_r; reflexivity. Qed.

Lemma file_fold (ty : asset_type) (recs : list Rec) :
  forall d : per_user,
    NoDup d.*1 ->
    NoDup (foldl (file_rec ty) d recs).*1
    /\ d.*1 `prefix_of` (foldl (file_rec ty) d recs).*1
    /\ forall uid,
         get uid (foldl (file_rec ty) d recs)
         = match get uid d with
           | Some v => Some (extend v ty (of_user uid recs))
           | None => if existsb (fun r => String.eqb (user_id r) uid) recs
                     then Some (extend no_recs ty (of_user uid recs))
                     else None
           end.
Proof.
  induction recs as [|rec rest IH]; intros d Hnd; cbn [foldl List.filter existsb].
  - split; [exact Hnd|]. split; [reflexivity|]. intros uid.
    destruct (get uid d); [rewrite extend_nil|]; reflexivity.
  - destruct (file_rec_spec ty d rec Hnd) as (Hnd1 & Hpre1 & Hget1).
    destruct (IH _ Hnd1) as (Hnd2 & Hpre2 & Hget2).
    split; [exact Hnd2|]. split; [etransitivity; eassumption|].
    intros uid. rewrite Hget2, Hget1.
    destruct (String.eqb (user_id rec) uid); cbn [orb].
    + rewrite extend_extend. destruct (get uid d); reflexivity.
    + reflexivity.
Qed.

(** How the groups are found again: key by key. *)
Lemma group_by_user_get (user_ids : list string) (adjusted : all_recs) :
  NoDup (group_by_user user_ids adjusted).*1
  /\ (NoDup user_ids -> user_ids `prefix_of` (group_by_user user_ids adjusted).*1)
  /\ forall uid,
       get uid (group_by_user user_ids adjusted)
       = if bool_decide (uid ∈ user_ids)
            || existsb (fun r => String.eqb (user_id r) uid)
                 (of_events adjusted ++ of_jobs adjusted ++ of_posts adjusted)
         then Some {| of_events := of_user uid (of_events adjusted);
                      of_jobs := of_user uid (of_jobs adjusted);
                      of_posts := of_user uid (of_posts adjusted) |}
         else None.
Proof.
  unfold group_by_user, start.
  destruct (start_fold user_ids []) as (Hnd0 & _ & Hget0).
  specialize (Hnd0 (NoDup_nil_2)).
  destruct (file_fold events (of_events adjusted) _ Hnd0) as (Hnd1 & Hpre1 & Hget1).
  destruct (file_fold jobs (of_jobs adjusted) _ Hnd1) as (Hnd2 & Hpre2 & Hget2).
  destruct (file_fold posts (of_posts adjusted) _ Hnd2) as (Hnd3 & Hpre3 & Hget3).
  split; [exact Hnd3|]. split.
  - intros Hids. etransitivity; [|exact Hpre3]. etransitivity; [|exact Hpre2].
    etransitivity; [|exact Hpre1].
    assert (H : forall d : per_user,
      NoDup (d.*1 ++ user_ids) ->
      (foldl (fun d uid => set uid no_recs d) d user_ids).*1 = d.*1 ++ user_ids).
    { clear. induction user_ids as [|u rest IH]; intros d Hnd; cbn [foldl].
      - rewrite app_nil_r. reflexivity.
      - assert (Hu : has_key u d = false).
        { destruct (has_key u d) eqn:E; [|reflexivity]. apply has_key_keys in E.
          apply NoDup_app in Hnd as (_ & Hdis & _). exfalso.
          apply (Hdis u E). left. }
        rewrite IH; rewrite keys_set, Hu.
        + rewrite <- app_assoc. reflexivity.
        + rewrite <- app_assoc. exact Hnd. }
    rewrite (H []); [reflexivity | exact Hids].
  - intros uid. rewrite Hget3, Hget2, Hget1, Hget0. cbn [get].
    rewrite !existsb_app.
    destruct (bool_decide (uid ∈ user_ids)); simpl.
    + reflexivity.
    + destruct (existsb _ (of_events adjusted)) eqn:E1; simpl.
      * reflexivity.
      * assert (F1 : of_user uid (of_events adjusted) = []).
        { clear -E1. induction (of_events adjusted) as [|r l IH]; [reflexivity|].
          simpl in *. apply orb_false_iff in E1 as [-> E1]. apply IH, E1. }
        destruct (existsb _ (of_jobs adjusted)) eqn:E2; simpl.
        -- rewrite F1. reflexivity.
        -- assert (F2 : of_user uid (of_jobs adjusted) = []).
           { clear -E2. induction (of_jobs adjusted) as [|r l IH]; [reflexivity|].
             simpl in *. apply orb_false_iff in E2 as [-> E2]. apply IH, E2. }
           destruct (existsb _ (of_posts adjusted)) eqn:E3; simpl; [|reflexivity].
           rewrite F1, F2. reflexivity.
Qed.

Lemma get_None_keys (k : string) (d : per_user) :
  k ∉ d.*1 -> get k d = None.
Proof.
  intros Hk. destruct (get k d) as [v|] eqn:E; [|reflexivity].
  exfalso. apply Hk, has_key_keys, has_key_get. eauto.
Qed.

Lemma get_elem_of (d : per_user) :
  NoDup d.*1 -> forall k v, (k, v) ∈ d <-> get k d = Some v.
Proof.
  induction d as [|[k0 w] rest IH]; intros Hnd k v.
  - split; [intros H; inversion H | discriminate].
  - rewrite fmap_cons in Hnd. apply NoDup_cons in Hnd as [Hk0 Hnd].
    rewrite elem_of_cons. cbn [get].
    destruct (String.eqb_spec k0 k) as [->|Hne].
    + split.
      * intros [[= ->]|Hin]; [reflexivity|].
        exfalso. apply Hk0. apply list_elem_of_fmap. exists (k, v). split; [reflexivity | exact Hin].
      * intros [= ->]. left. reflexivity.
    + rewrite <- (IH Hnd). split.
      * intros [[= -> _]|Hin]; [contradiction | exact Hin].
      * intros Hin. right. exact Hin.
Qed.

Lemma user_mapping_fold (d : per_user) :
  NoDup d.*1 ->
  forall (m : gmap string all_recs) k,
    foldl (fun m entry => <[entry.1 := entry.2]> m) m d !! k
    = match get k d with Some v => Some v | None => m !! k end.
Proof.
  induction d as [|[k0 w] rest IH]; intros Hnd m k; [reflexivity|].
  rewrite fmap_cons in Hnd. apply NoDup_cons in Hnd as [Hk0 Hnd].
  cbn [foldl get]. rewrite (IH Hnd). cbn [fst snd].
  destruct (String.eqb_spec k0 k) as [->|Hne].
  - rewrite (get_None_keys k rest Hk0). apply lookup_insert_eq.
  - destruct (get k rest); [reflexivity|]. apply lookup_insert_ne, Hne.
Qed.

(** Property X21.  The per-user file.  It holds one entry for each user id of the
    embedding space and for each user id found in a recommendation, and no
    other; no user id twice; the entry of a user holds, type by type, the
    recommendations of that user in the order of the adjusted lists, so that
    no recommendation is dropped or filed under another user; and when the
    embedding space lists no user id twice, the file starts with its users,
    in its order. *)
Theorem per_user_file_partitions (user_ids : list string) (adjusted : all_recs) :
  NoDup (group_by_user user_ids adjusted).*1
  /\ (forall uid v,
        (uid, v) ∈ group_by_user user_ids adjusted
        <-> (uid ∈ user_ids
             \/ exists r, r ∈ of_events adjusted ++ of_jobs adjusted ++ of_posts adjusted
                          /\ user_id r = uid)
            /\ v = {| of_events := of_user uid (of_events adjusted);
                      of_jobs := of_user uid (of_jobs adjusted);
                      of_posts := of_user uid (of_posts adjusted) |})
  /\ (NoDup user_ids -> user_ids `prefix_of` (group_by_user user_ids adjusted).*1).
Proof.
  destruct (group_by_user_get user_ids adjusted) as (Hnd & Hpre & Hget).
  split; [exact Hnd|]. split; [|exact Hpre].
  intros uid v. rewrite (get_elem_of _ Hnd), Hget.
  assert (Hex : existsb (fun r => String.eqb (user_id r) uid)
                  (of_events adjusted ++ of_jobs adjusted ++ of_posts adjusted) = true
                <-> exists r, r ∈ of_events adjusted ++ of_jobs adjusted ++ of_posts adjusted
                              /\ user_id r = uid).
  { rewrite existsb_exists. split; intros (r & Hin & Hr); exists r.
    - split; [apply list_elem_of_In, Hin | apply String.eqb_eq, Hr].
    - split; [apply list_elem_of_In, Hin | apply String.eqb_eq, Hr]. }
  destruct (bool_decide_reflect (uid ∈ user_ids)) as [Hin|Hnin]; cbn [orb].
  - split; [intros [= <-]; split; [left; exact Hin | reflexivity]|].
    intros [_ ->]. reflexivity.
  - destruct (existsb _ _) eqn:E.
    + split; [intros [= <-]; split; [right; apply Hex; reflexivity | reflexivity]|].
      intros [_ ->]. reflexivity.
    + split; [discriminate|]. intros [[Hin|Hr] _]; [contradiction|].
      apply Hex in Hr. discriminate.
Qed.

(** Property X22.  Reading the per-user file back: the mapping that the page builds from
    the file written for the given user ids and adjusted lists gives, for a
    user id of the embedding space or of some recommendation, exactly the
    recommendations of that user, type by type and in order; for any other
    user id it has no entry. *)
Theorem page_mapping_of_per_user_file
    (user_ids : list string) (adjusted : all_recs) (uid : string) :
  Display.user_mapping (group_by_user user_ids adjusted) !! uid
  = if bool_decide (uid ∈ user_ids)
       || existsb (fun r => String.eqb (user_id r) uid)
            (of_events adjusted ++ of_jobs adjusted ++ of_posts adjusted)
    then Some {| of_events := of_user uid (of_events adjusted);
                 of_jobs := of_user uid (of_jobs adjusted);
                 of_posts := of_user uid (of_posts adjusted) |}
    else None.
Proof.
  destruct (group_by_user_get user_ids adjusted) as (Hnd & _ & Hget).
  unfold Display.user_mapping. rewrite (user_mapping_fold _ Hnd), Hget.
  destruct (_ || _); [reflexivity | apply lookup_empty].
Qed.

End PipelineFacts.

(** * Texts of profiles and assets *)

Module FeatureTextFacts.
Import PyStr PyStrFacts Spec FeatureText.

Lemma append_assoc (a b c : string) : (a +:+ b) +:+ c = a +:+ (b +:+ c).
Proof.
  induction a as [|x a IH]; [reflexivity|].
  rewrite !append_cons, IH. reflexivity.
Qed.

Lemma append_nil_r (a : string) : a +:+ "" = a.
Proof. induction a as [|x a IH]; [reflexivity|]. rewrite append_cons, IH. reflexivity. Qed.

Lemma split_ws_from_nil (cur : string) :
  split_ws_from cur "" = if truthy cur then [cur] else [].
Proof. reflexivity. Qed.

Lemma split_ws_from_cons (cur : string) (c : ascii) (s : string) :
  split_ws_from cur (String c s)
  = if isspace c
    then (if truthy cur then cur :: split_ws_from "" s else split_ws_from "" s)
    else split_ws_from (cur +:+ String c "") s.
Proof. reflexivity. Qed.

(** A space between two texts keeps their tokens apart. *)
Lemma split_ws_from_space (a b : string) :
  forall cur, split_ws_from cur (a +:+ String " " b)
              = split_ws_from cur a ++ split_ws b.
Proof.
  induction a as [|c a IH]; intros cur.
  - change ("" +:+ String " " b) with (String " " b).
    rewrite split_ws_from_cons, split_ws_from_nil.
    change (isspace " ") with true. cbn iota.
    destruct (truthy cur); reflexivity.
  - rewrite append_cons, !split_ws_from_cons.
    destruct (isspace c).
    + destruct (truthy cur); rewrite IH; reflexivity.
    + apply IH.
Qed.

Lemma split_ws_join (parts : list string) :
  split_ws (join " " parts) = concat (split_ws <$> parts).
Proof.
  induction parts as [|p rest IH]; [reflexivity|].
  destruct rest as [|q rest].
  - simpl. rewrite app_nil_r. reflexivity.
  - change (join " " (p :: q :: rest)) with (p +:+ " " +:+ join " " (q :: rest)).
    change (" " +:+ join " " (q :: rest)) with (String " " (join " " (q :: rest))).
    unfold split_ws at 1. rewrite split_ws_from_space.
    rewrite IH. reflexivity.
Qed.

(** Property X23.  The whitespace tokens of the text built for a row are the tokens of its
    fields, field after field: joining with a space glues no two tokens and
    loses none.  A profile whose five cells hold no token gives a text
    without any. *)
Theorem text_tokens_are_field_tokens (r : row) (fields : list string) :
  split_ws (asset_text r fields) = concat (split_ws <$> (cell r <$> fields))
  /\ split_ws (profile_text r)
     = split_ws (cell r "university") ++ split_ws (cell r "degree")
       ++ split_ws (cell r "interests") ++ split_ws (cell r "bio")
       ++ split_ws (cell r "city")
  /\ (split_ws (cell r "university") = [] -> split_ws (cell r "degree") = [] ->
      split_ws (cell r "interests") = [] -> split_ws (cell r "bio") = [] ->
      split_ws (cell r "city") = [] -> split_ws (profile_text r) = []).
Proof.
  assert (Hp : split_ws (profile_text r)
               = split_ws (cell r "university") ++ split_ws (cell r "degree")
                 ++ split_ws (cell r "interests") ++ split_ws (cell r "bio")
                 ++ split_ws (cell r "city")).
  { unfold profile_text. rewrite split_ws_join. simpl. rewrite app_nil_r. reflexivity. }
  split; [apply split_ws_join|]. split; [exact Hp|].
  intros H1 H2 H3 H4 H5. rewrite Hp, H1, H2, H3, H4, H5. reflexivity.
Qed.

(** Property X24.  The loop over the users is the loop over the assets on the five profile
    columns and the id column "user_id"; both return one pair of id and
    text per row, in the order of the rows, when every row has the id
    column, and end in [KeyError] when a row has not. *)
Theorem text_series_by_row (df : list row) (id_col : string) (fields : list string) :
  build_user_profile_text df
  = build_asset_text df "user_id" ["university"; "degree"; "interests"; "bio"; "city"]
  /\ (Forall (fun r => is_Some (r !! id_col)) df ->
      build_asset_text df id_col fields
      = Ok ((fun r => (default "" (r !! id_col), asset_text r fields)) <$> df))
  /\ (~ Forall (fun r => is_Some (r !! id_col)) df ->
      build_asset_text df id_col fields = Raise KeyError).
Proof.
  split; [|split].
  - induction df as [|r rest IH]; [reflexivity|]. simpl.
    destruct (r !! "user_id"); cbn; [|reflexivity]. rewrite IH. reflexivity.
  - induction 1 as [|r rest [x Hx] _ IH]; [reflexivity|]. simpl.
    rewrite Hx. cbn. rewrite IH. reflexivity.
  - induction df as [|r rest IH]; intros Hno; [exfalso; apply Hno; constructor|].
    simpl. destruct (r !! id_col) as [x|] eqn:Hx; cbn; [|reflexivity].
    rewrite IH; [reflexivity|]. intros Hall. apply Hno. constructor; [eauto | exact Hall].
Qed.

End FeatureTextFacts.

(** * Display *)

Module DisplayFacts.
Import PyStr PyStrFacts Num Spec FeatureText FeatureTextFacts ArgsortFacts Display.
Local Open Scope Q_scope.

Lemma lower_app (a b : string) : lower (a +:+ b) = lower a +:+ lower b.
Proof.
  induction a as [|c a IH]; [reflexivity|].
  rewrite append_cons. simpl. rewrite IH, append_cons. reflexivity.
Qed.

Lemma contains_app_r (p a b : string) :
  contains p b = true -> contains p (a +:+ b) = true.
Proof.
  rewrite !contains_spec. intros (pre & post & ->).
  exists (a +:+ pre), post. rewrite append_assoc. reflexivity.
Qed.

Lemma substring_of_join (sep x : string) (parts : list string) :
  x ∈ parts -> substring_of x (join sep parts).
Proof.
  induction parts as [|p rest IH]; intros Hin; [inversion Hin|].
  destruct rest as [|q rest].
  - apply list_elem_of_singleton in Hin as ->. exists "", "".
    simpl. rewrite append_nil_r. reflexivity.
  - change (join sep (p :: q :: rest)) with (p +:+ sep +:+ join sep (q :: rest)).
    apply elem_of_cons in Hin as [->|Hin].
    + exists "", (sep +:+ join sep (q :: rest)). reflexivity.
    + destruct (IH Hin) as (pre & post & ->).
      exists (p +:+ sep +:+ pre), post. rewrite !append_assoc. reflexivity.
Qed.

Lemma friendly_reason_part (reason_raw part : string) :
  part ∈ friendly_parts (lower reason_raw) ->
  substring_of part (friendly_reason reason_raw).
Proof.
  intros Hin. unfold friendly_reason.
  assert (Hl : (if truthy reason_raw then lower reason_raw else "") = lower reason_raw)
    by (destruct reason_raw; reflexivity).
  rewrite Hl. destruct (friendly_parts (lower reason_raw)) as [|p rest] eqn:E;
    [inversion Hin|].
  apply substring_of_join, Hin.
Qed.

Lemma py_int_floor (x : Q) : 0 <= x -> py_int x = Qfloor x.
Proof.
  destruct x as [n d]. unfold py_int, Qfloor, Qle. simpl. intros H.
  apply Z.quot_div_nonneg; lia.
Qed.

Lemma clamp_bounds (score : Q) :
  0 <= py_max 0 (py_min 1 score) /\ py_max 0 (py_min 1 score) <= 1.
Proof.
  unfold py_max, py_min.
  destruct (Qltb score 1) eqn:E1.
  - destruct (Qltb 0 score) eqn:E2.
    + split; [apply Qltb_true, E2 | apply Qltb_true, E1].
    + split; [apply Qle_refl | unfold Qle; simpl; lia].
  - split; unfold Qle; simpl; lia.
Qed.

Lemma clamp_mono (s1 s2 : Q) :
  s1 <= s2 -> py_max 0 (py_min 1 s1) <= py_max 0 (py_min 1 s2).
Proof.
  intros H. unfold py_max, py_min.
  destruct (Qltb s1 1) eqn:A1, (Qltb s2 1) eqn:A2;
    try apply Qltb_lt in A1; try apply Qltb_false in A1;
    try apply Qltb_lt in A2; try apply Qltb_false in A2.
  - destruct (Qltb 0 s1) eqn:B1, (Qltb 0 s2) eqn:B2;
      try apply Qltb_lt in B1; try apply Qltb_false in B1;
      try apply Qltb_lt in B2; try apply Qltb_false in B2.
    + exact H.
    + exfalso. apply (Qlt_irrefl 0). eapply Qlt_le_trans; [exact B1|].
      eapply Qle_trans; eassumption.
    + apply Qlt_le_weak, B2.
    + apply Qle_refl.
  - change (Qltb 0 1) with true. cbn iota.
    destruct (Qltb 0 s1) eqn:B1; [apply Qlt_le_weak, A1 | unfold Qle; simpl; lia].
  - exfalso. apply (Qlt_irrefl 1). eapply Qle_lt_trans; [exact A1|].
    eapply Qle_lt_trans; eassumption.
  - apply Qle_refl.
Qed.

(** Property X25.  [score_to_percentage] always gives a whole number from 0 to 100: 0 for
    every score that is not positive, 100 for every score of 1 or more, a
    boosted score above 1 included, and never less for a larger score. *)
Theorem percentage_is_clamped (score : Q) :
  (0 <= score_to_percentage score <= 100)%Z
  /\ (score <= 0 -> score_to_percentage score = 0%Z)
  /\ (1 <= score -> score_to_percentage score = 100%Z)
  /\ forall other, score <= other ->
                   (score_to_percentage score <= score_to_percentage other)%Z.
Proof.
  unfold score_to_percentage.
  assert (Hpos : forall s, 0 <= py_max 0 (py_min 1 s) * 100).
  { intros s. destruct (clamp_bounds s) as [H0 _].
    apply Qmult_le_0_compat; [exact H0 | unfold Qle; simpl; lia]. }
  split; [|split; [|split]].
  - rewrite py_int_floor by apply Hpos.
    destruct (clamp_bounds score) as [H0 H1]. split.
    + change 0%Z with (Qfloor 0). apply Qfloor_resp_le, Hpos.
    + change 100%Z with (Qfloor 100). apply Qfloor_resp_le.
      change 100 with (1 * 100) at 2.
      apply Qmult_le_compat_r; [exact H1 | unfold Qle; simpl; lia].
  - intros H. unfold py_max, py_min.
    destruct (Qltb score 1) eqn:E1.
    + destruct (Qltb 0 score) eqn:E2; [|reflexivity].
      apply Qltb_lt in E2. exfalso. exact (Qlt_not_le _ _ E2 H).
    + apply Qltb_false in E1. exfalso.
      apply (Qlt_irrefl 0). eapply Qlt_le_trans; [|eapply Qle_trans; eassumption].
      reflexivity.
  - intros H. unfold py_max, py_min.
    destruct (Qltb score 1) eqn:E1; [|reflexivity].
    apply Qltb_lt in E1. exfalso. exact (Qlt_not_le _ _ E1 H).
  - intros other H. rewrite !py_int_floor by apply Hpos.
    apply Qfloor_resp_le, Qmult_le_compat_r;
      [apply clamp_mono, H | unfold Qle; simpl; lia].
Qed.

End DisplayFacts.

Module ShownFacts.
Import Num Spec ArgsortFacts Display.
Local Open Scope Q_scope.

Section Sorting.
Variable key : Rec -> Q.

Definition by_key (a b : Rec) : Prop := key a <= key b.

Lemma insert_by_perm (x : Rec) (l : list Rec) :
  Permutation (insert_by key x l) (x :: l).
Proof.
  induction l as [|y rest IH]; simpl; [reflexivity|].
  destruct (Qltb _ _); [reflexivity|]. rewrite IH. apply perm_swap.
Qed.

Lemma insert_by_sorted (x : Rec) (l : list Rec) :
  Sorted by_key l -> Sorted by_key (insert_by key x l).
Proof.
  induction l as [|y rest IH]; intros Hs; simpl.
  - repeat constructor.
  - inversion Hs as [|? ? Hrest Hhd]; subst.
    destruct (Qltb _ _) eqn:E.
    + constructor; [exact Hs|]. constructor. apply Qltb_true, E.
    + constructor; [apply IH, Hrest|].
      apply Qltb_false in E.
      destruct rest as [|z rest']; simpl.
      * constructor. exact E.
      * destruct (Qltb _ _); constructor; [exact E|]. inversion Hhd; assumption.
Qed.

Lemma py_sorted_fold (l acc : list Rec) :
  Sorted by_key acc ->
  Permutation (foldl (fun sorted x => insert_by key x sorted) acc l) (l ++ acc)
  /\ Sorted by_key (foldl (fun sorted x => insert_by key x sorted) acc l).
Proof.
  revert acc. induction l as [|x l IH]; intros acc Hs; simpl.
  - split; [reflexivity | exact Hs].
  - destruct (IH (insert_by key x acc) (insert_by_sorted x acc Hs)) as [Hp Hsorted].
    split; [|exact Hsorted].
    rewrite Hp, insert_by_perm. symmetry. apply Permutation_middle.
Qed.

Lemma insert_by_last (x : Rec) (l : list Rec) :
  (forall y, y ∈ l -> key y <= key x) -> insert_by key x l = l ++ [x].
Proof.
  induction l as [|y rest IH]; intros Hle; simpl; [reflexivity|].
  destruct (Qltb (key x) (key y)) eqn:E.
  - apply Qltb_lt in E. exfalso. apply (Qlt_not_le _ _ E). apply Hle. left.
  - rewrite IH; [reflexivity|]. intros z Hz. apply Hle. right. exact Hz.
Qed.

Lemma py_sorted_fixed (l : list Rec) :
  forall acc,
    (forall i j a b, (i < j)%nat -> (acc ++ l) !! i = Some a -> (acc ++ l) !! j = Some b ->
                     key a <= key b) ->
    foldl (fun sorted x => insert_by key x sorted) acc l = acc ++ l.
Proof.
  induction l as [|x l IH]; intros acc Hs; simpl.
  - rewrite app_nil_r. reflexivity.
  - rewrite insert_by_last.
    + rewrite IH; rewrite <- app_assoc; [reflexivity | exact Hs].
    + intros y Hy. apply list_elem_of_lookup_1 in Hy as [i Hi].
      apply (Hs i (length acc) y x).
      * eapply lookup_lt_Some, Hi.
      * apply lookup_app_l_Some, Hi.
      * apply list_lookup_middle. reflexivity.
Qed.

End Sorting.

Lemma shown_of_sorted (items : list Rec) :
  sorted_desc items -> shown items = take 10 items.
Proof.
  intros Hs. unfold shown, py_sorted.
  rewrite py_sorted_fixed; [reflexivity|].
  intros i j a b Hij Ha Hb. simpl in Ha, Hb.
  apply Qopp_le_compat. exact (Hs i j a b Hij Ha Hb).
Qed.

(** Property X26.  The page shows at most ten entries, in an order in which the scores do
    not increase; they are the first ten of a rearrangement of the entries
    it was given. *)
Theorem shown_is_top_ten (items : list Rec) :
  exists sorted,
    Permutation sorted items
    /\ sorted_desc sorted
    /\ shown items = take 10 sorted
    /\ sorted_desc (shown items)
    /\ (length (shown items) <= 10)%nat.
Proof.
  exists (py_sorted (fun x => - score x) items).
  destruct (py_sorted_fold (fun x => - score x) items []) as [Hp Hs]; [constructor|].
  rewrite app_nil_r in Hp.
  assert (Hd : sorted_desc (py_sorted (fun x => - score x) items)).
  { intros i j a b Hij Ha Hb.
    assert (H : - score a <= - score b).
    { apply (strongly_sorted_lookup (by_key (fun x => - score x))
               (py_sorted (fun x => - score x) items)) with (i := i) (j := j);
        try assumption.
      apply Sorted_StronglySorted; [|exact Hs].
      intros x y z Hxy Hyz. unfold by_key in *. eapply Qle_trans; eassumption. }
    apply Qopp_le_compat in H. rewrite !Qopp_involutive in H. exact H. }
  split; [exact Hp|]. split; [exact Hd|]. split; [reflexivity|].
  split.
  - intros i j a b Hij Ha Hb. unfold shown in Ha, Hb.
    change (slice_to 10 ?l) with (take 10 l) in Ha, Hb.
    apply lookup_take_Some in Ha as [Ha _]. apply lookup_take_Some in Hb as [Hb _].
    exact (Hd i j a b Hij Ha Hb).
  - unfold shown. change (slice_to 10 ?l) with (take 10 l). rewrite length_take. lia.
Qed.

End ShownFacts.

(** * What the page says about a recommendation *)

Section PageFacts.
Import PyStr PyStrFacts Num Spec Recommender RankingFacts ArgsortFacts.
Import FeatureText Display DisplayFacts ShownFacts.
Local Open Scope Q_scope.

Variable cosine_similarity : vec -> vec -> Q.
Variable argsort : list Q -> list nat.

Local Abbreviation rank := (recommend_for_user cosine_similarity argsort).

(** Property X27.  The page explains every entry that recommend_for_user returns by one
    sentence: the popularity sentence when the user's vector has no stored
    entry, the similarity sentence otherwise; the generic sentence is never
    shown for such an entry. *)
Theorem ranked_entry_explanation
    (self : Recommender.t) (uid : string) (ty : asset_type) (top_n : Z)
    (recs : list Rec) (r : Rec) :
  rank self uid ty top_n = Ok recs ->
  r ∈ recs ->
  exists uidx user_vec,
    index_of uid (ids (emb_users (embeddings self))) = Some uidx
    /\ vectors (emb_users (embeddings self)) !! uidx = Some user_vec
    /\ friendly_reason (default "" (reason r))
       = if (nnz user_vec =? 0)%nat
         then "Popular item fallback (cold-start)"
         else "Matches your profile based on textual similarity".
Proof.
  intros Hrank Hin. apply list_elem_of_lookup_1 in Hin as [p Hp].
  destruct (recommend_for_user_entry cosine_similarity argsort
              self uid ty top_n recs p r Hrank Hp)
    as (uidx & user_vec & scores & rsn & user_row & idx & eid & row & b
        & Hu & Hv & Hb & _ & _ & _ & _ & ->).
  exists uidx, user_vec. split; [exact Hu|]. split; [exact Hv|].
  apply (base_scores_inv cosine_similarity) in Hb
    as [(Hz & _ & ->)|(Hnz & _ & -> & _)]; simpl.
  - rewrite Hz. reflexivity.
  - destruct (Nat.eqb_spec (nnz user_vec) 0); [contradiction | reflexivity].
Qed.

(** Property X28.  With an argsort that sorts, the page shows the first ten entries of a
    list returned by recommend_for_user, in the order of that list:
    sorting it again moves nothing, also among equal scores. *)
Theorem page_keeps_ranked_order
    (self : Recommender.t) (uid : string) (ty : asset_type) (top_n : Z)
    (recs : list Rec) :
  argsort_ok argsort ->
  rank self uid ty top_n = Ok recs ->
  shown recs = take 10 recs.
Proof.
  intros Hsort Hrank. apply shown_of_sorted.
  exact (recommend_for_user_sorted cosine_similarity argsort
           self uid ty top_n recs Hsort Hrank).
Qed.

End PageFacts.

Module PageFeedback.
Import PyStr PyStrFacts Num Spec ActiveLearner ActiveLearnerFacts.
Import FeatureText Display DisplayFacts.
Local Open Scope Q_scope.

Lemma friendly_parts_positive (old : string) :
  "Boosted by positive feedback" ∈ friendly_parts (lower (old +:+ suffix_positive)).
Proof.
  rewrite lower_app. unfold friendly_parts.
  rewrite (contains_app_r "feedback adjusted (positive)" (lower old)
             (lower suffix_positive)) by reflexivity.
  apply elem_of_app. right. apply elem_of_app. right. apply elem_of_app. left. left.
Qed.

Lemma friendly_parts_negative (old : string) :
  "Reduced after negative feedback" ∈ friendly_parts (lower (old +:+ suffix_negative)).
Proof.
  rewrite lower_app. unfold friendly_parts.
  rewrite (contains_app_r "feedback adjusted (negative)" (lower old)
             (lower suffix_negative)) by reflexivity.
  apply elem_of_app. right. apply elem_of_app. right. apply elem_of_app. right. left.
Qed.

(** Property X29.  The explanation that the page gives for a recommendation adjusted by
    apply_feedback names the adjustment: it contains "Boosted by positive
    feedback" when the feedback on it sums to a positive number and
    "Reduced after negative feedback" otherwise, whatever the reason
    before was. *)
Theorem adjusted_entry_explanation
    (self : t) (h : store) (recs : list ref) (fb : list entry) :
  (forall r, r ∈ recs -> (r < length h)%nat) ->
  exists h' out,
    apply_feedback self h recs fb = Some (h', out)
    /\ forall i r v, recs !! i = Some r -> h !! r = Some v ->
         signals (key_of v) fb <> [] ->
         exists r' v',
           out !! i = Some r' /\ h' !! r' = Some v'
           /\ substring_of
                (if (0 <? signal_sum (key_of v) fb)%Z
                 then "Boosted by positive feedback"
                 else "Reduced after negative feedback")
                (friendly_reason (default "" (reason v'))).
Proof.
  intros Hvalid. unfold apply_feedback.
  destruct (adjust_loop_spec self (build_fb_map fb) h recs h) as
    (news & out & Hrun & _ & Hcells); [reflexivity | exact Hvalid |].
  exists (h ++ news), out. split; [exact Hrun|].
  intros i r v Hi Hv Hsig.
  destruct (Hcells i r v Hi Hv) as (r' & Hr' & Hval & _ & _).
  exists r', (adjusted_value self (build_fb_map fb) v).
  split; [exact Hr'|]. split; [exact Hval|].
  unfold adjusted_value. rewrite build_fb_map_lookup.
  destruct (signals (key_of v) fb) as [|z l]; [contradiction|].
  destruct (0 <? signal_sum (key_of v) fb)%Z; simpl;
    apply friendly_reason_part;
    [apply friendly_parts_positive | apply friendly_parts_negative].
Qed.

End PageFeedback.

(** * The statements above on the sample data *)

Module CoverageExamples.
Import PyStr Num Spec Recommender ArgsortFacts Popularity Batch.
Import ActiveLearner FeatureText Display.
Import PopularityMore FeedbackMore.
Local Open Scope Q_scope.

Local Abbreviation sample_rank :=
  (recommend_for_user Sample.dot insertion_argsort Sample.engine).

Lemma returns_only_on_complete_tables_witness :
  "u1" ∈ ids (emb_users (embeddings Sample.engine))
  /\ (exists user_row, find_user (ds_users (datasets Sample.engine)) "u1" = Ok user_row)
  /\ forall eid, eid ∈ ids (emb_of (embeddings Sample.engine) events) ->
       exists row, find_asset (asset_rows (datasets Sample.engine) events) eid = Ok row.
Proof.
  apply (returns_only_on_complete_tables Sample.dot insertion_argsort
           Sample.engine "u1" events 10 Scenario.ada_recs).
  vm_compute. reflexivity.
Defined.

Lemma smaller_top_n_is_prefix_witness :
  sample_rank "u1" events 1 = Ok (take 1 Scenario.ada_recs).
Proof.
  apply (smaller_top_n_is_prefix Sample.dot insertion_argsort
           Sample.engine "u1" events 1 10 Scenario.ada_recs);
    [lia | vm_compute; reflexivity].
Defined.

Lemma no_asset_twice_witness : NoDup (asset_id <$> Scenario.ada_recs).
Proof.
  apply (no_asset_twice Sample.dot insertion_argsort
           Sample.engine "u1" events 10 Scenario.ada_recs insertion_argsort_ok);
    [|vm_compute; reflexivity].
  apply (bool_decide_unpack _). vm_compute. exact I.
Defined.

Lemma large_top_n_returns_all_witness :
  Permutation (asset_id <$> Scenario.ada_recs) ["e1"; "e2"; "e3"].
Proof.
  apply (large_top_n_returns_all Sample.dot insertion_argsort
           Sample.engine "u1" events 10 Scenario.ada_recs insertion_argsort_ok);
    [reflexivity | simpl; lia | vm_compute; reflexivity].
Defined.

Lemma boost_never_lowers_score_witness :
  exists scores rsn idx b,
    base_scores Sample.dot Sample.engine events [(0%nat, 1)] = Ok (scores, rsn)
    /\ ids (emb_of (embeddings Sample.engine) events) !! idx
       = Some (asset_id Scenario.ada_first)
    /\ scores !! idx = Some b
    /\ b <= score Scenario.ada_first.
Proof.
  destruct (boost_never_lowers_score Sample.dot insertion_argsort
              Sample.engine "u1" events 10 Scenario.ada_recs Scenario.ada_first)
    as (uidx & user_vec & scores & rsn & user_row & idx & row & b
        & Hu & Hv & Hb & _ & Hid & _ & Hs & Hlo & _);
    [vm_compute; reflexivity | vm_compute; left |].
  vm_compute in Hu. injection Hu as <-.
  vm_compute in Hv. injection Hv as <-.
  exists scores, rsn, idx, b. repeat split; assumption.
Defined.

Lemma popularity_keeps_raw_order_witness :
  _compute_popularity_score exact (ds_events Sample.tables) !! "e2"
  = Some Scenario.pop_gallery
  /\ _compute_popularity_score exact (ds_events Sample.tables) !! "e1"
     = Some Scenario.pop_meetup
  /\ Scenario.pop_gallery <= Scenario.pop_meetup.
Proof.
  split; [vm_compute; reflexivity|]. split; [vm_compute; reflexivity|].
  apply (popularity_keeps_raw_order exact (ds_events Sample.tables) "e2" "e1"
           Scenario.raw_gallery Scenario.raw_meetup
           Scenario.pop_gallery Scenario.pop_meetup PopularityFacts.exact_ok);
    try (vm_compute; reflexivity).
  unfold Qle. simpl. lia.
Defined.

Lemma popularity_normalised_endpoints_witness :
  (forall k p, _compute_popularity_score exact (ds_events Sample.tables) !! k = Some p ->
               0 <= p /\ p <= 1)
  /\ exists klo khi plo phi,
       is_min (default 0 (raw_scores exact (ds_events Sample.tables) !! klo))
              (raw_scores exact (ds_events Sample.tables))
       /\ is_max (default 0 (raw_scores exact (ds_events Sample.tables) !! khi))
                 (raw_scores exact (ds_events Sample.tables))
       /\ _compute_popularity_score exact (ds_events Sample.tables) !! klo = Some plo
       /\ plo == 0
       /\ _compute_popularity_score exact (ds_events Sample.tables) !! khi = Some phi
       /\ phi == 1.
Proof.
  apply (popularity_normalised_endpoints exact (ds_events Sample.tables) "e2" "e1"
           Scenario.raw_gallery Scenario.raw_meetup PopularityFacts.exact_ok);
    vm_compute; reflexivity.
Defined.

Lemma popularity_of_tied_pool_witness :
  _compute_popularity_score exact [Sample.twin "b"; Sample.twin "a"]
  = raw_scores exact [Sample.twin "b"; Sample.twin "a"]
  /\ forall k p,
       _compute_popularity_score exact [Sample.twin "b"; Sample.twin "a"] !! k = Some p ->
       1 <= p.
Proof.
  apply (popularity_of_tied_pool exact [Sample.twin "b"; Sample.twin "a"]
           PopularityFacts.exact_ok).
  intros k1 k2 v1 v2 H1 H2.
  destruct (PopularityFacts.raw_scores_value exact _ k1 v1 H1) as (r1 & Hr1 & _ & ->).
  destruct (PopularityFacts.raw_scores_value exact _ k2 v2 H2) as (r2 & Hr2 & _ & ->).
  apply elem_of_cons in Hr1 as [->|Hr1];
    [|apply list_elem_of_singleton in Hr1 as ->];
    (apply elem_of_cons in Hr2 as [->|Hr2];
     [|apply list_elem_of_singleton in Hr2 as ->]); reflexivity.
Defined.

Lemma cold_start_score_range_witness :
  Forall (fun r => 0 <= score r /\ score r <= 1.18) Scenario.bob_recs.
Proof.
  apply Forall_forall.
  apply (cold_start_score_range Sample.dot insertion_argsort exact
           Sample.space Sample.tables "u2" events 10 1%nat [] "e2" "e1"
           Scenario.raw_gallery Scenario.raw_meetup Scenario.bob_recs
           PopularityFacts.exact_ok);
    vm_compute; reflexivity.
Defined.

Lemma generate_all_never_key_error_witness :
  (generate_all_recommendations Sample.dot insertion_argsort Scenario.short_engine 10
   = Raise IndexError
   /\ exists uid ty,
        uid ∈ ids (emb_users (embeddings Scenario.short_engine))
        /\ recommend_for_user Sample.dot insertion_argsort Scenario.short_engine uid ty 10
           = Raise IndexError)
  /\ (generate_all_recommendations Sample.dot insertion_argsort Sample.engine 10
      = Raise ValueError
      /\ exists uid ty,
           uid ∈ ids (emb_users (embeddings Sample.engine))
           /\ recommend_for_user Sample.dot insertion_argsort Sample.engine uid ty 10
              = Raise ValueError).
Proof.
  split; (split; [vm_compute; reflexivity|]).
  - apply (generate_all_never_key_error Sample.dot insertion_argsort
             Scenario.short_engine 10 IndexError).
    vm_compute. reflexivity.
  - apply (generate_all_never_key_error Sample.dot insertion_argsort
             Sample.engine 10 ValueError).
    vm_compute. reflexivity.
Defined.

Lemma full_well_formed (uid : string) (ty : asset_type) :
  uid ∈ ["u1"; "u2"] -> well_formed Scenario.full_space Scenario.full_tables uid ty.
Proof.
  intros Huid. split.
  - reflexivity.
  - apply elem_of_cons in Huid as [->|Huid]; [eexists; reflexivity|].
    apply list_elem_of_singleton in Huid as ->. eexists; reflexivity.
  - destruct ty; reflexivity.
  - intros eid Hin. destruct ty; simpl in Hin;
      repeat (apply elem_of_cons in Hin as [->|Hin]; [eexists; reflexivity|]);
      inversion Hin.
  - intros uidx user_vec _ _ _. destruct ty; repeat split; discriminate.
Qed.

Lemma generate_all_concatenates_witness :
  exists all per,
    generate_all_recommendations Sample.dot insertion_argsort Scenario.full_engine 10
    = Ok all
    /\ Forall2 (fun uid recs =>
                  recommend_for_user Sample.dot insertion_argsort
                    Scenario.full_engine uid jobs 10 = Ok recs)
               ["u1"; "u2"] per
    /\ of_jobs all = concat per.
Proof.
  destruct (generate_all_concatenates Sample.dot insertion_argsort exact
              Scenario.full_space Scenario.full_tables 10) as [Hok Hcat].
  destruct (Hok insertion_argsort_ok) as [all Hall];
    [intros uid ty Hin; apply full_well_formed, Hin|].
  destruct (Hcat all Hall jobs) as (per & Hper & Hjobs).
  exists all, per. split; [exact Hall|]. split; [exact Hper | exact Hjobs].
Defined.

Lemma generate_all_entries_witness :
  generate_all_recommendations Sample.dot insertion_argsort Scenario.full_engine 10
  = Ok Scenario.engine_all
  /\ (forall r, r ∈ of_events Scenario.engine_all ->
        rec_type r = "event" /\ user_id r ∈ ["u1"; "u2"])
  /\ (length (of_events Scenario.engine_all) <= 20)%nat.
Proof.
  split; [vm_compute; reflexivity|].
  destruct (generate_all_entries Sample.dot insertion_argsort
              Scenario.full_engine 10 Scenario.engine_all events) as [Hall Hlen];
    [vm_compute; reflexivity|].
  split; [exact Hall|].
  assert (H : (Z.of_nat (length (of_events Scenario.engine_all)) <= 10 * 2)%Z)
    by (apply Hlen; lia).
  lia.
Defined.

Lemma simulate_feedback_entries_witness :
  exists self' entries,
    simulate_feedback default_learner [Sample.liked; Sample.other] 0.3 0.1 Scenario.draws
    = Ok (self', entries)
    /\ entries = [Sample.dislike]
    /\ entries.*1 `sublist_of` (key_of <$> [Sample.liked; Sample.other])
    /\ feedback self' = feedback default_learner ++ entries.
Proof.
  exists {| positive_weight := 0.2; negative_weight := -0.25;
            feedback := [Sample.dislike] |}, [Sample.dislike].
  split; [reflexivity|]. split; [reflexivity|].
  destruct (simulate_feedback_entries default_learner
              {| positive_weight := 0.2; negative_weight := -0.25;
                 feedback := [Sample.dislike] |}
              [Sample.liked; Sample.other] 0.3 0.1 Scenario.draws [Sample.dislike])
    as (Hsub & _ & _ & Hfb & _); [reflexivity|].
  split; [exact Hsub | exact Hfb].
Defined.

Lemma simulate_feedback_extreme_ratios_witness :
  exists self' entries,
    simulate_feedback default_learner [Sample.liked; Sample.other] 0 1 Scenario.draws
    = Ok (self', entries)
    /\ entries = (fun rec => (user_id rec, rec_type rec, asset_id rec, (-1)%Z))
                 <$> [Sample.liked; Sample.other].
Proof.
  destruct (simulate_feedback_extreme_ratios default_learner
              [Sample.liked; Sample.other] 0 1 Scenario.draws)
    as (self' & entries & Hrun & _ & Hall & _).
  { intros i. unfold Scenario.draws. destruct (i =? 0)%nat;
      (split; [unfold Qle; simpl; lia | reflexivity]). }
  exists self', entries. split; [exact Hrun|]. apply Hall. unfold Qle. simpl. lia.
Defined.

Lemma feedback_order_irrelevant_witness :
  build_fb_map [Sample.like; Sample.dislike] = build_fb_map [Sample.dislike; Sample.like]
  /\ apply_feedback default_learner [Sample.liked] [0%nat] [Sample.like; Sample.dislike]
     = apply_feedback default_learner [Sample.liked] [0%nat] [Sample.dislike; Sample.like].
Proof.
  apply (feedback_order_irrelevant default_learner [Sample.liked] [0%nat]
           [Sample.like; Sample.dislike] [Sample.dislike; Sample.like]).
  apply perm_swap.
Defined.

Lemma feedback_without_match_is_identity_witness :
  apply_feedback default_learner [Sample.liked; Sample.other] [1%nat] [Sample.like]
  = Some ([Sample.liked; Sample.other], [1%nat])
  /\ apply_feedback default_learner [Sample.liked; Sample.other] [1%nat] []
     = Some ([Sample.liked; Sample.other], [1%nat]).
Proof.
  apply (feedback_without_match_is_identity default_learner
           [Sample.liked; Sample.other] [1%nat] [Sample.like]).
  intros r Hr. apply list_elem_of_singleton in Hr as ->.
  exists Sample.other. split; reflexivity.
Defined.

Lemma applying_twice_compounds_witness :
  exists h1 out1 h2 out2 r2 v2,
    apply_feedback default_learner [Sample.liked] [0%nat] [Sample.like] = Some (h1, out1)
    /\ apply_feedback default_learner h1 out1 [Sample.like] = Some (h2, out2)
    /\ out2 !! 0%nat = Some r2 /\ h2 !! r2 = Some v2
    /\ score v2 = score Sample.liked + 0.2 + 0.2.
Proof.
  destruct (applying_twice_compounds default_learner [Sample.liked] [0%nat] [Sample.like])
    as (h1 & out1 & h2 & out2 & Hrun1 & Hrun2 & Hcells).
  { intros r Hr. apply list_elem_of_singleton in Hr as ->. simpl. lia. }
  destruct (Hcells 0%nat 0%nat Sample.liked eq_refl eq_refl)
    as (r2 & v2 & Hout & Hv2 & _ & Hpos & _).
  destruct Hpos as [Hscore _]; [discriminate | reflexivity |].
  exists h1, out1, h2, out2, r2, v2. repeat split; assumption.
Defined.

Lemma adjustment_direction_witness :
  exists h' out r' v',
    apply_feedback default_learner [Sample.liked] [0%nat] [Sample.dislike] = Some (h', out)
    /\ out !! 0%nat = Some r' /\ h' !! r' = Some v'
    /\ 0 <= score v' /\ score v' <= score Sample.liked.
Proof.
  destruct (adjustment_direction default_learner [Sample.liked] [0%nat] [Sample.dislike])
    as (h' & out & Hrun & Hcells).
  { intros r Hr. apply list_elem_of_singleton in Hr as ->. simpl. lia. }
  destruct (Hcells 0%nat 0%nat Sample.liked eq_refl eq_refl)
    as (r' & v' & Hout & Hv' & Hneg & _); [discriminate|].
  destruct Hneg as [H0 Hle]; [vm_compute; discriminate|].
  exists h', out, r', v'. repeat split; try assumption.
  apply Hle; unfold Qle; simpl; lia.
Defined.

Lemma ranked_entry_explanation_witness :
  friendly_reason (default "" (reason Scenario.ada_first))
  = "Matches your profile based on textual similarity".
Proof.
  destruct (ranked_entry_explanation Sample.dot insertion_argsort
              Sample.engine "u1" events 10 Scenario.ada_recs Scenario.ada_first)
    as (uidx & user_vec & Hu & Hv & Hreason);
    [vm_compute; reflexivity | vm_compute; left |].
  vm_compute in Hu. injection Hu as <-.
  vm_compute in Hv. injection Hv as <-.
  exact Hreason.
Defined.

Lemma page_keeps_ranked_order_witness :
  shown Scenario.ada_recs = take 10 Scenario.ada_recs.
Proof.
  apply (page_keeps_ranked_order Sample.dot insertion_argsort
           Sample.engine "u1" events 10 Scenario.ada_recs insertion_argsort_ok).
  vm_compute. reflexivity.
Defined.

Lemma adjusted_entry_explanation_witness :
  exists h' out r' v',
    apply_feedback default_learner [Sample.liked] [0%nat] [Sample.like] = Some (h', out)
    /\ out !! 0%nat = Some r' /\ h' !! r' = Some v'
    /\ substring_of "Boosted by positive feedback"
         (friendly_reason (default "" (reason v'))).
Proof.
  destruct (PageFeedback.adjusted_entry_explanation default_learner
              [Sample.liked] [0%nat] [Sample.like])
    as (h' & out & Hrun & Hcells).
  { intros r Hr. apply list_elem_of_singleton in Hr as ->. simpl. lia. }
  destruct (Hcells 0%nat 0%nat Sample.liked eq_refl eq_refl)
    as (r' & v' & Hout & Hv' & Hsub); [discriminate|].
  exists h', out, r', v'. split; [exact Hrun|]. split; [exact Hout|].
  split; [exact Hv' | exact Hsub].
Defined.

End CoverageExamples.
